(** * Annotation agreement statistics (brise_plandok/annotation/agreement.py)

    A shallow embedding of the loader, the vote synthesizer, the agreement
    engine, the gold evaluator and the TSV export, with the properties of
    the specification stated and settled against it.

    Conventions of the embedding:
    - Python dicts keep insertion order; they are association lists
      ([dict]) with update in place and append for a new key.
    - A raised exception is a value of [exn]; functions that only read
      their input return [result A]; the loader, whose shared [data]
      dictionary is mutated row by row, passes its state explicitly and
      returns the state reached together with how it ended ([outcome]), so
      that the state at a raise is part of what is proved.
    - Spreadsheet cells are [None] or a string ([cell]); a file is given
      with its rows (what [xlsx_to_data] returns for it); [str.lower] is
      modelled on the ASCII letters.
    - Iterating a Python [set] has an unspecified order; it is the section
      variable [set_iter] for labels and [set_iter_id] for attribute ids,
      constrained by [set_order_ok].
    - [cohen_kappa_score] (scikit-learn) and the floating point numbers
      with their sum and division are section variables.
    - [Vocabulary] belongs to an imported package and is modelled from its
      description. *)

From Stdlib Require Import Ascii String.
From stdpp Require Import base decidable option list sorting strings pretty gmap.

(** ** Exceptions and results *)

Inductive exn : Type :=
  | KeyError_word (w : string)            (* Vocabulary.get_id, unknown word *)
  | KeyError_id (k : nat)                 (* dict[k] / Vocabulary.get_word *)
  | IndexError
  | UnpackError                           (* ValueError of a tuple unpacking *)
  | NoAnnotation (ann : nat) (sen_id : string)
      (* ValueError(f'no annotation from {ann} on {sen_id}') *)
  | UnexpectedHeader (fn : string)        (* AssertionError, header row *)
  | ChangedText (fn : string) (sen_id : string)
      (* AssertionError(f'changed text in {fn} sentence {sen_id}') *)
  | AssertionError                        (* assert without a message *)
  | ZeroDivisionError.

Abbreviation result A := (exn + A)%type.

Abbreviation Ok := (@inr exn _).
Abbreviation Raise := (@inl exn _).

Definition rbind {A B} (m : result A) (k : A → result B) : result B :=
  match m with
  | inl e => inl e
  | inr a => k a
  end.

Notation "'let*' x ':=' m 'in' k" := (rbind m (fun x => k))
  (at level 10, x pattern, m at level 100, k at level 200).

(** [for x in l: st = body(x, st)], stopping at the first exception. *)
Fixpoint rfold {A St} (body : A → St → result St) (l : list A) (st : St) : result St :=
  match l with
  | [] => Ok st
  | x :: l' => let* st' := body x st in rfold body l' st'
  end.

(** ** Insertion-ordered dictionaries *)

Abbreviation dict K V := (list (K * V)).

Section dict.
Context {K V : Type} `{EqDecision K}.

Fixpoint dget (k : K) (d : dict K V) : option V :=
  match d with
  | [] => None
  | (k', v) :: d' => if decide (k' = k) then Some v else dget k d'
  end.

(** [d[k] = v]: an existing key keeps its position. *)
Fixpoint dset (k : K) (v : V) (d : dict K V) : dict K V :=
  match d with
  | [] => [(k, v)]
  | (k', v') :: d' =>
      if decide (k' = k) then (k, v) :: d' else (k', v') :: dset k v d'
  end.

Definition dmem (k : K) (d : dict K V) : bool := bool_decide (is_Some (dget k d)).

Definition dkeys (d : dict K V) : list K := d.*1.
Definition dvalues (d : dict K V) : list V := d.*2.

(** [d[k]] as an expression: KeyError on a missing key. *)
Definition dindex (kerr : K → exn) (k : K) (d : dict K V) : result V :=
  match dget k d with
  | Some v => Ok v
  | None => Raise (kerr k)
  end.

End dict.


(** ** Vocabulary *)

(** Modelled from the spec: the class [Vocabulary] of the imported package
    tuw_nlp.common.vocabulary.  Ids are assigned on first sight in
    encounter order, starting at 0: the id of a word is its position in
    [id_to_word], whose iteration order is insertion order. *)
Module Vocabulary.
Abbreviation t := (list string).

Definition empty : t := [].

Definition len (v : t) : nat := length v.

Fixpoint find_word (w : string) (v : t) : option nat :=
  match v with
  | [] => None
  | w' :: v' => if decide (w' = w) then Some 0 else S <$> find_word w v'
  end.

(** [get_id(word, allow_new)]: the id and the vocabulary afterwards. *)
Definition get_id (w : string) (allow_new : bool) (v : t) : result (nat * t) :=
  match find_word w v with
  | Some i => Ok (i, v)
  | None => if allow_new then Ok (length v, v ++ [w]) else Raise (KeyError_word w)
  end.

Definition get_word (i : nat) (v : t) : result string :=
  match v !! i with
  | Some w => Ok w
  | None => Raise (KeyError_id i)
  end.

(** The keys of [id_to_word], in iteration order. *)
Definition ids (v : t) : list nat := seq 0 (length v).

(** The items of [id_to_word], in iteration order. *)
Definition items (v : t) : list (nat * string) := imap (λ i w, (i, w)) v.
End Vocabulary.

(** ** Constants of the module *)

Definition IGNORE_EMPTY : bool := true.

Definition REPLACEMENT_PAIRS : list (string * string) :=
  [("BBDachneigungMax", "DachneigungMax")]%string.

Definition ATTR_IGNORE : list string :=
  ["AusnahmePruefungErforderlich"; "WeitereBestimmungPruefungErforderlich";
   "ZuVorherigemSatzGehoerig"; "Segmentierungsfehler"; "NoAttribute"; "N/A";
   "StrittigeBedeutung"]%string.

Definition gold : string := "gold".

(** ** Small helpers *)

Fixpoint all_equal_from {A} `{EqDecision A} (first : A) (rest : list A) : bool :=
  match rest with
  | [] => true
  | x :: rest' => bool_decide (first = x) && all_equal_from first rest'
  end.

Definition all_equal {A} `{EqDecision A} (iterator : list A) : bool :=
  match iterator with
  | [] => true
  | first :: rest => all_equal_from first rest
  end.

Fixpoint preprocess_attr_in (pairs : list (string * string)) (attr : string) : string :=
  match pairs with
  | [] => attr
  | (a, b) :: pairs' => if decide (attr = a) then b else preprocess_attr_in pairs' attr
  end.

Definition preprocess_attr (attr : string) : string :=
  preprocess_attr_in REPLACEMENT_PAIRS attr.

(** [sorted(l)] for strings (byte-wise, as code points for UTF-8) and ids. *)
Definition sorted_str (l : list string) : list string := merge_sort String.le l.
Definition sorted_nat (l : list nat) : list nat := merge_sort le l.

(** ** File names and strings *)

(** [s.split(sep)] for a one-character separator. *)
Fixpoint split_on (sep : ascii) (s : string) : list string :=
  match s with
  | EmptyString => [EmptyString]
  | String c s' =>
      if decide (c = sep) then EmptyString :: split_on sep s'
      else match split_on sep s' with
           | [] => [String c EmptyString]
           | w :: ws => String c w :: ws
           end
  end.

(** [os.path.basename]: what follows the last slash. *)
Definition basename (fn : string) : string :=
  List.last (split_on "/"%char fn) EmptyString.

(** [str.lower], on the ASCII letters. *)
Definition lower_ascii (c : ascii) : ascii :=
  let n := nat_of_ascii c in
  if (65 <=? n) && (n <=? 90) then ascii_of_nat (n + 32) else c.

Fixpoint lower (s : string) : string :=
  match s with
  | EmptyString => EmptyString
  | String c s' => String (lower_ascii c) (lower s')
  end.

(** Lines 206-211 of load_data: the annotator name of a file name. *)
Definition annotator_of_filename (fn : string) : result string :=
  match split_on "."%char (basename fn) with
  | [name; filetype] =>
      if decide (filetype = "xlsx"%string) then
        match split_on "_"%char name with
        | [doc_id; annotator; date] => Ok annotator
        | [doc_id; annotator] => Ok annotator
        | _ => Raise UnpackError
        end
      else Raise AssertionError
  | _ => Raise UnpackError
  end.

(** ** Spreadsheets and sentence records *)

Abbreviation cell := (option string).

(** A workbook: its path and the rows [xlsx_to_data] reads from it. *)
Record xlsx_file : Type := {
  file_name : string;
  file_rows : list (list cell)
}.

(** The dict yielded by gen_sens_from_file. *)
Record sen_row : Type := {
  row_id : string;
  row_text : cell;
  row_attributes : list string
}.

(** A record of [data]; [full_agreement] is absent until print_data. *)
Record sentence : Type := {
  sen_id : string;
  sen_text : cell;
  annot : dict nat (list nat);
  attr_stats : dict nat nat;
  full_agreement : option bool
}.

Definition set_annot (f : dict nat (list nat) → dict nat (list nat)) (sen : sentence) : sentence :=
  {| sen_id := sen_id sen; sen_text := sen_text sen; annot := f (annot sen);
     attr_stats := attr_stats sen; full_agreement := full_agreement sen |}.

Definition set_attr_stats (f : dict nat nat → dict nat nat) (sen : sentence) : sentence :=
  {| sen_id := sen_id sen; sen_text := sen_text sen; annot := annot sen;
     attr_stats := f (attr_stats sen); full_agreement := full_agreement sen |}.

Definition set_full_agreement (b : bool) (sen : sentence) : sentence :=
  {| sen_id := sen_id sen; sen_text := sen_text sen; annot := annot sen;
     attr_stats := attr_stats sen; full_agreement := Some b |}.

(** [Counter()] *)
Definition Counter_empty {K} : dict K nat := [].

(** A [Counter] read: a missing key counts 0 (and is not inserted). *)
Definition counter_get {K} `{EqDecision K} (k : K) (c : dict K nat) : nat :=
  default 0 (dget k c).

(** [c[k] += 1] on a Counter. *)
Definition counter_incr {K} `{EqDecision K} (k : K) (c : dict K nat) : dict K nat :=
  dset k (S (counter_get k c)) c.

(** The filter of lines 263-265 over [enumerate(rest)] from index [j]. *)
Fixpoint attributes_from (j : nat) (rest : list cell) : list string :=
  match rest with
  | [] => []
  | field :: rest' =>
      match field with
      | Some s =>
          if bool_decide (s ≠ EmptyString) && Nat.odd j && bool_decide (s ∉ ATTR_IGNORE)
          then s :: attributes_from (S j) rest'
          else attributes_from (S j) rest'
      | None => attributes_from (S j) rest'
      end
  end.

(** One step of the generator gen_sens_from_file on row [i]: an
    exception, nothing (the row is skipped), or a yielded [sen_row]. *)
Definition gen_sen (fn : string) (i : nat) (row : list cell) : result (option sen_row) :=
  match row with
  | [] => Raise IndexError
  | row0 :: row_tl =>
      if decide (i = 0) then
        if decide (row0 = Some "Sentence_ID"%string) then Ok None
        else Raise (UnexpectedHeader fn)
      else
        match row0 with
        | None => if decide (i = 1) then Ok None else Raise AssertionError
        | Some sid =>
            match row_tl with
            | [] => Raise IndexError
            | sen_text :: row_tl2 =>
                Ok (Some {| row_id := sid; row_text := sen_text;
                            row_attributes :=
                              sorted_str (attributes_from 0 (take 10 row_tl2)) |})
            end
        end
  end.

(** ** The loader *)

(** What load_data builds; [data] is shared and mutated in place. *)
Record lstate : Type := {
  data : dict string sentence;
  attr_vocab : Vocabulary.t;
  annotator_vocab : Vocabulary.t
}.

Definition set_data (f : dict string sentence → dict string sentence) (st : lstate) : lstate :=
  {| data := f (data st); attr_vocab := attr_vocab st;
     annotator_vocab := annotator_vocab st |}.

Definition set_attr_vocab (v : Vocabulary.t) (st : lstate) : lstate :=
  {| data := data st; attr_vocab := v; annotator_vocab := annotator_vocab st |}.

Definition set_annotator_vocab (v : Vocabulary.t) (st : lstate) : lstate :=
  {| data := data st; attr_vocab := attr_vocab st; annotator_vocab := v |}.

Definition init_lstate : lstate :=
  {| data := []; attr_vocab := Vocabulary.empty; annotator_vocab := Vocabulary.empty |}.

(** [[attr_vocab.get_id(preprocess_attr(attr), allow_new=True) for attr in attrs]] *)
Fixpoint intern_attrs (attrs : list string) (v : Vocabulary.t) : result (list nat * Vocabulary.t) :=
  match attrs with
  | [] => Ok ([], v)
  | attr :: attrs' =>
      let* (i, v1) := Vocabulary.get_id (preprocess_attr attr) true v in
      let* (ids, v2) := intern_attrs attrs' v1 in
      Ok (i :: ids, v2)
  end.

(** Lines 229-230: [attr_stats[attr] += 1] for each attr. *)
Definition incr_all (attrs : list nat) (c : dict nat nat) : dict nat nat :=
  foldl (λ c attr, counter_incr attr c) c attrs.

(** Lines 232-234: a zero entry for each attr without one. *)
Definition ensure_all (attrs : list nat) (c : dict nat nat) : dict nat nat :=
  foldl (λ c attr, if dmem attr c then c else dset attr 0 c) c attrs.

(** The state reached and how the statement ended. *)
Abbreviation outcome := (lstate * result unit)%type.

(** [for x in l: ys.append(body(x))], stopping at the first exception. *)
Fixpoint rmap {A B} (body : A → result B) (l : list A) : result (list B) :=
  match l with
  | [] => Ok []
  | x :: l' => let* y := body x in let* ys := rmap body l' in Ok (y :: ys)
  end.

(** [for i, x in enumerate(l)] from index [i]. *)
Fixpoint rfoldi {A St} (body : nat → A → St → result St) (i : nat) (l : list A) (st : St) : result St :=
  match l with
  | [] => Ok st
  | x :: l' => let* st' := body i x st in rfoldi body (S i) l' st'
  end.


(** The three figures the gold evaluator counts. *)
Inductive figure : Type := TP | FN | FP.

#[global] Instance figure_eq_dec : EqDecision figure.
Proof. solve_decision. Defined.

(** [attr_stats] of eval_against_gold: attribute, annotator, figure. *)
Abbreviation gold_stats := (dict nat (dict nat (dict figure nat))).

(** The array [ratings], indexed attribute, annotator, sentence. *)
Abbreviation tensor := (list (list (list nat))).

(** ** Example workbooks *)

Definition header_row : list cell := [Some "Sentence_ID"; Some "Text"]%string.

(** A data row whose label cells (columns 3, 5, ...) hold [labels]. *)
Definition data_row (sid txt : string) (labels : list string) : list cell :=
  Some sid :: Some txt :: mjoin ((λ l, [None; Some l]) <$> labels).

Definition workbook (fn : string) (rows : list (list cell)) : xlsx_file :=
  {| file_name := fn; file_rows := header_row :: rows |}.

(** One annotator, one sentence, both spellings of one label. *)
Definition ann1_both_spellings : xlsx_file :=
  workbook "doc1_ann1.xlsx"
    [data_row "s1" "text" ["BBDachneigungMax"; "DachneigungMax"]%string].

(** One annotator, one sentence, one label. *)
Definition ann1_single : xlsx_file :=
  workbook "doc1_ann1.xlsx" [data_row "s1" "text" ["A"%string]].

(** Gold and two annotators who all pick A on the one sentence. *)
Definition gold_A : xlsx_file := workbook "doc1_gold.xlsx" [data_row "s1" "text" ["A"%string]].
Definition ann1_A : xlsx_file := workbook "doc1_ann1.xlsx" [data_row "s1" "text" ["A"%string]].
Definition ann2_A : xlsx_file := workbook "doc1_ann2.xlsx" [data_row "s1" "text" ["A"%string]].

(** Gold annotates two sentences, ann1 only the first. *)
Definition gold_two : xlsx_file :=
  workbook "doc1_gold.xlsx"
    [data_row "s1" "text1" ["A"%string]; data_row "s2" "text2" ["A"%string]].
Definition ann1_first : xlsx_file :=
  workbook "doc1_ann1.xlsx" [data_row "s1" "text1" ["A"%string]].

(** Two sentences; gold picks A, annotator1 picks A, annotator2 picks B. *)
Definition gold_2s : xlsx_file :=
  workbook "doc1_gold.xlsx"
    [data_row "s1" "text1" ["A"%string]; data_row "s2" "text2" ["A"%string]].
Definition annotator1_2s : xlsx_file :=
  workbook "doc1_annotator1.xlsx"
    [data_row "s1" "text1" ["A"%string]; data_row "s2" "text2" ["A"%string]].
Definition annotator2_2s : xlsx_file :=
  workbook "doc1_annotator2.xlsx"
    [data_row "s1" "text1" ["B"%string]; data_row "s2" "text2" ["B"%string]].

(** An annotator called min1. *)
Definition min1_A : xlsx_file := workbook "doc1_min1.xlsx" [data_row "s1" "text" ["A"%string]].
Definition ann1_B : xlsx_file := workbook "doc1_ann1.xlsx" [data_row "s1" "text" ["B"%string]].

(** A deterministic iteration order for sets: first occurrences. *)
Definition first_seen {A} `{EqDecision A} (l : list A) : list A := remove_dups l.

(** What the model assumes of the iteration order of [set(l)]: every
    element of [l] once. *)
Definition set_order_ok {A} (f : list A → list A) : Prop :=
  ∀ l, NoDup (f l) ∧ ∀ x, x ∈ f l ↔ x ∈ l.

(** ** Relations between loader states *)

(** [st] keeps what [st0] holds: every record of [st0] is still there
    with its text and each of its [annot] entries, and the annotator ids
    of [st0] still name the same annotators. *)
Definition extends (st0 st : lstate) : Prop :=
  annotator_vocab st0 `prefix_of` annotator_vocab st ∧
  ∀ sid rec, dget sid (data st0) = Some rec →
    ∃ rec', dget sid (data st) = Some rec'
      ∧ sen_id rec' = sen_id rec ∧ sen_text rec' = sen_text rec
      ∧ ∀ ann attrs, dget ann (annot rec) = Some attrs → dget ann (annot rec') = Some attrs.


(** ** Votes, as the specification counts them *)

(** How often [a] occurs in a list. *)
Definition occurrences (a : nat) (l : list nat) : nat := length (filter (λ x, x = a) l).

(** What annotator [ann] adds to the count of attribute [a] on a
    sentence: nothing if it is gold, else the occurrences of [a] in its
    list. *)
Definition vote_of (nv : Vocabulary.t) (sen : sentence) (a : nat) (ann : nat) : nat :=
  match nv !! ann with
  | Some w => if decide (w = gold) then 0
              else occurrences a (default [] (dget ann (annot sen)))
  | None => 0
  end.

(** The count of attribute [a] over the annotators of [nv]. *)
Definition votes (nv : Vocabulary.t) (sen : sentence) (a : nat) : nat :=
  sum_list (vote_of nv sen a <$> Vocabulary.ids nv).

(** What vote synthesis does to one record, for the annotator vocabulary
    [nv] it starts from: the three new ids are the next three; all other
    entries and fields stay; the entry of quorum [k] lists, sorted and
    once each, the attributes whose count over [nv] reaches [k]. *)
Definition votes_added (nv : Vocabulary.t) (sen sen' : sentence) : Prop :=
  let n := length nv in
  sen_id sen' = sen_id sen ∧ sen_text sen' = sen_text sen
  ∧ attr_stats sen' = attr_stats sen ∧ full_agreement sen' = full_agreement sen
  ∧ (∀ ann, ann ∉ [n; n + 1; n + 2] → dget ann (annot sen') = dget ann (annot sen))
  ∧ ∀ k, k ∈ [1; 2; 3] →
      ∃ attrs, dget (n + k - 1) (annot sen') = Some attrs
        ∧ Sorted le attrs ∧ NoDup attrs
        ∧ ∀ a, a ∈ attrs ↔ k ≤ votes nv sen a.

(** Every annotator of [nv] other than gold has an entry on every sentence. *)
Definition annotated_by_all (nv : Vocabulary.t) (d : dict string sentence) : Prop :=
  ∀ sid sen ann w, (sid, sen) ∈ d → nv !! ann = Some w → w ≠ gold →
    is_Some (dget ann (annot sen)).

Definition min_names : list string := ["min1"; "min2"; "min3"]%string.

(** ** Gold counts *)

(** What the loops of lines 62-79 add, for one sentence, to the count
    [fig] of attribute [attr] for annotator [ann], with [g] the list of
    gold and [l] the list of the annotator: the loops run over the list
    elements, so per occurrence of [attr] in [g] a true positive if [attr]
    is in [l] and a false negative if not, and per occurrence of [attr] in
    [l] a false positive if [attr] is not in [g]. *)
Definition occurrence_count (gold_ann : nat) (sen : sentence) (attr ann : nat)
    (fig : figure) : nat :=
  match dget gold_ann (annot sen), dget ann (annot sen) with
  | Some g, Some l =>
      match fig with
      | TP => if decide (attr ∈ l) then occurrences attr g else 0
      | FN => if decide (attr ∈ l) then 0 else occurrences attr g
      | FP => if decide (attr ∈ g) then 0 else occurrences attr l
      end
  | _, _ => 0
  end.

(** The count as the specification words it, over attribute sets: on one
    sentence an attribute that gold selected is one true positive for an
    annotator who selected it too and one false negative for one who did
    not; an attribute that the annotator selected and gold did not is one
    false positive. *)
Definition sentence_count (gold_ann : nat) (sen : sentence) (attr ann : nat)
    (fig : figure) : nat :=
  match dget gold_ann (annot sen), dget ann (annot sen) with
  | Some g, Some l =>
      match fig with
      | TP => if decide (attr ∈ g ∧ attr ∈ l) then 1 else 0
      | FN => if decide (attr ∈ g ∧ attr ∉ l) then 1 else 0
      | FP => if decide (attr ∈ l ∧ attr ∉ g) then 1 else 0
      end
  | _, _ => 0
  end.

(** Every annotator of [nv] has an entry on every sentence. *)
Definition fully_annotated (nv : Vocabulary.t) (d : dict string sentence) : Prop :=
  ∀ sid sen ann, (sid, sen) ∈ d → ann < length nv → is_Some (dget ann (annot sen)).

(** Every row of the table has a counter for every annotator but gold. *)
Definition rows_ok (nv : Vocabulary.t) (g : nat) (st : gold_stats) : Prop :=
  ∀ a row, dget a st = Some row → ∀ n, n < length nv → n ≠ g → is_Some (dget n row).

(** The list of an annotator on a sentence (empty without an entry). *)
Definition annot_of (sen : sentence) (ann : nat) : list nat :=
  default [] (dget ann (annot sen)).

(** What one occurrence of [a] in the list of gold adds for annotator [n]. *)
Definition tp_fn_unit (nv : Vocabulary.t) (g : nat) (sen : sentence) (a n : nat)
    (f : figure) : nat :=
  if decide (n < length nv ∧ n ≠ g) then
    match f with
    | TP => if decide (a ∈ annot_of sen n) then 1 else 0
    | FN => if decide (a ∈ annot_of sen n) then 0 else 1
    | FP => 0
    end
  else 0.

(** What the list of annotator [n] adds to its false positives of [a]. *)
Definition fp_unit (nv : Vocabulary.t) (g : nat) (sen : sentence) (gl : list nat)
    (a n : nat) (f : figure) : nat :=
  if decide (n < length nv ∧ n ≠ g ∧ f = FP ∧ a ∉ gl)
  then occurrences a (annot_of sen n) else 0.

(** ** Ratings, as the specification reads them *)

(** [ratings[a][n][j]], if the indices are in range. *)
Definition tget (t : tensor) (a n j : nat) : option nat :=
  t !! a ≫= λ m, m !! n ≫= λ vec, vec !! j.

(** Whether annotator [n] selected attribute [a] on the [j]-th sentence. *)
Definition presence (d : dict string sentence) (a n j : nat) : nat :=
  match d !! j with
  | Some (_, sen) => if decide (a ∈ annot_of sen n) then 1 else 0
  | None => 0
  end.

(** The presence vector of annotator [n] for attribute [a]. *)
Definition presence_vector (d : dict string sentence) (a n : nat) : list nat :=
  (λ e : string * sentence, if decide (a ∈ annot_of e.2 n) then 1 else 0) <$> d.

Definition tensor_shape (n_attr n_ann n_sen : nat) (t : tensor) : Prop :=
  length t = n_attr
  ∧ ∀ a m, t !! a = Some m →
      length m = n_ann ∧ ∀ n vec, m !! n = Some vec → length vec = n_sen.

(** The pairs of annotators in the order of the two loops of lines 163-166. *)
Definition row_pairs (x : nat * string) (l : list (nat * string))
    : list ((nat * string) * (nat * string)) :=
  y ← l; if decide (x.1 < y.1) then [(x, y)] else [].

Definition annotator_pairs (nv : Vocabulary.t) : list ((nat * string) * (nat * string)) :=
  x ← Vocabulary.items nv; row_pairs x (Vocabulary.items nv).

Definition gold_pair (p : (nat * string) * (nat * string)) : Prop :=
  p.1.2 = gold ∨ p.2.2 = gold.

(** The pairs behind [gold_kappas] and behind [attr_kappas], in order. *)
Definition gold_pairs (nv : Vocabulary.t) := filter gold_pair (annotator_pairs nv).
Definition inter_pairs (nv : Vocabulary.t) := filter (λ p, ¬ gold_pair p) (annotator_pairs nv).

(** A presence vector without a 1. *)
Definition all_zero (vec : list nat) : Prop := Forall (λ x, x = 0) vec.

(** What the loader keeps of every stored list: it is sorted, and its ids
    are ids of the attribute vocabulary. *)
Definition annot_lists_ok (st : lstate) : Prop :=
  ∀ sid sen ann attrs, (sid, sen) ∈ data st → (ann, attrs) ∈ annot sen →
    Sorted le attrs ∧ ∀ a, a ∈ attrs → a < length (attr_vocab st).

(** All entries of an [annot] map hold the same list. *)
Definition same_lists (sen : sentence) : Prop :=
  ∀ a1 l1 a2 l2, (a1, l1) ∈ annot sen → (a2, l2) ∈ annot sen → l1 = l2.

(** All entries of an [annot] map hold the same set of attributes. *)
Definition same_sets (sen : sentence) : Prop :=
  ∀ a1 l1 a2 l2, (a1, l1) ∈ annot sen → (a2, l2) ∈ annot sen →
    ∀ x : nat, x ∈ l1 ↔ x ∈ l2.

(** What an [annot] entry adds to the [attr_stats] of attribute [a]:
    nothing for gold, else the occurrences of [a] in the list. *)
Definition stat_of (nv : Vocabulary.t) (a : nat) (e : nat * list nat) : nat :=
  match nv !! e.1 with
  | Some w => if decide (w = gold) then 0 else occurrences a e.2
  | None => 0
  end.

(** What the loader keeps of every record: its annotators are known, its
    [attr_stats] count the entries of the annotators other than gold, and
    every attribute of an entry has a count. *)
Definition attr_stats_ok (st : lstate) : Prop :=
  ∀ sid sen, (sid, sen) ∈ data st →
    (∀ ann attrs, (ann, attrs) ∈ annot sen → ann < length (annotator_vocab st))
    ∧ ∀ a, counter_get a (attr_stats sen)
           = sum_list (stat_of (annotator_vocab st) a <$> annot sen)
         ∧ (∀ ann attrs, (ann, attrs) ∈ annot sen → a ∈ attrs →
              is_Some (dget a (attr_stats sen))).


(** ** Well-formedness of what the loader builds *)

(** The keys of [data] and of every [annot] and [attr_stats] are distinct;
    a record sits under its own id and has no [full_agreement] yet; its
    annotators are known; the vocabularies hold each word once, the
    annotator names in lower case, and no label that is empty, ignored or
    replaced. *)
Definition loaded_ok (st : lstate) : Prop :=
  NoDup (dkeys (data st)) ∧ NoDup (attr_vocab st) ∧ NoDup (annotator_vocab st)
  ∧ (∀ w, w ∈ attr_vocab st →
       w ≠ EmptyString ∧ (w ∉ ATTR_IGNORE) ∧ w ∉ REPLACEMENT_PAIRS.*1)
  ∧ (∀ w, w ∈ annotator_vocab st → lower w = w)
  ∧ ∀ sid sen, (sid, sen) ∈ data st →
      sen_id sen = sid ∧ NoDup (dkeys (annot sen)) ∧ NoDup (dkeys (attr_stats sen))
      ∧ full_agreement sen = None
      ∧ ∀ ann attrs, (ann, attrs) ∈ annot sen → ann < length (annotator_vocab st).

(** Annotator of entry [e] is not gold and selected attribute [a]. *)
Definition selected_by (nv : Vocabulary.t) (a : nat) (e : nat * list nat) : Prop :=
  nv !! e.1 ≠ Some gold ∧ a ∈ e.2.

#[global] Instance selected_by_dec nv a e : Decision (selected_by nv a e).
Proof. unfold selected_by. apply _. Defined.

(** ** File names *)

(** A part of a file name: without slash, dot and underscore. *)
Definition plain (s : string) : Prop :=
  ∀ c, c ∈ ["/"; "."; "_"]%char → c ∉ list_ascii_of_string s.

(** ** What the loader stores of a yielded sentence *)

(** The state holds, for the annotator called [name], the sentence [sen]:
    a record under its id with its text, and under the id of the
    annotator a list that holds exactly the ids of the labels of [sen]
    (after replacement), all of which are words of the attribute
    vocabulary. *)
Definition stored (st : lstate) (name : string) (sen : sen_row) : Prop :=
  ∃ rec ann attrs,
    dget (row_id sen) (data st) = Some rec ∧ sen_text rec = row_text sen
    ∧ Vocabulary.find_word name (annotator_vocab st) = Some ann
    ∧ dget ann (annot rec) = Some attrs
    ∧ (∀ w, w ∈ row_attributes sen →
         ∃ a, Vocabulary.find_word (preprocess_attr w) (attr_vocab st) = Some a ∧ a ∈ attrs)
    ∧ (∀ a, a ∈ attrs →
         ∃ w, w ∈ row_attributes sen
           ∧ Vocabulary.find_word (preprocess_attr w) (attr_vocab st) = Some a).

(** ** What the agreement engine needs and counts *)

(** Every id of a list and every key of [attr_stats] is an id of the
    attribute vocabulary. *)
Definition ids_known (av : Vocabulary.t) (d : dict string sentence) : Prop :=
  ∀ sid sen, (sid, sen) ∈ d →
    (∀ ann attrs a, (ann, attrs) ∈ annot sen → a ∈ attrs → a < length av)
    ∧ ∀ a, a ∈ dkeys (attr_stats sen) → a < length av.

(** Two annotators other than gold. *)
Definition two_annotators (nv : Vocabulary.t) : Prop :=
  ∃ a1 a2 w1 w2, a1 < a2 ∧ nv !! a1 = Some w1 ∧ nv !! a2 = Some w2
    ∧ w1 ≠ gold ∧ w2 ≠ gold.

(** In how many lists, of any annotator on any sentence, the attribute is. *)
Definition selections (d : dict string sentence) (nv : Vocabulary.t) (attr : nat) : nat :=
  sum_list ((λ n, sum_list (presence_vector d attr n)) <$> Vocabulary.ids nv).

(** Every id of a list is an id of the attribute vocabulary. *)
Definition lists_known (av : Vocabulary.t) (d : dict string sentence) : Prop :=
  ∀ sid sen ann attrs a, (sid, sen) ∈ d → (ann, attrs) ∈ annot sen → a ∈ attrs →
    a < length av.

(** ** The table of the gold evaluator *)

(** Every row belongs to an attribute below [n_attr] and has one counter
    for each annotator but gold, in the order of the annotators. *)
Definition gold_table_ok (n_attr : nat) (nv : Vocabulary.t) (g : nat) (st : gold_stats)
    : Prop :=
  ∀ a row, (a, row) ∈ st →
    a < n_attr ∧ dkeys row = filter (λ ann, ann ≠ g) (Vocabulary.ids nv).

(** Every row of the table has one counter for each annotator but gold,
    in the order of the annotators. *)
Definition gold_rows_ok (nv : Vocabulary.t) (g : nat) (st : gold_stats) : Prop :=
  ∀ a row, (a, row) ∈ st → dkeys row = filter (λ ann, ann ≠ g) (Vocabulary.ids nv).

(** ** The TSV export *)

(** An entry of [data] with [full_agreement] set as print_data sets it. *)
Definition with_full_agreement (e : string * sentence) : string * sentence :=
  (e.1, set_full_agreement (all_equal (dvalues (annot e.2))) e.2).

(** ** Example data *)

(** Gold with both spellings of one label; an annotator with the label. *)
Definition gold_both : xlsx_file :=
  workbook "doc1_gold.xlsx"
    [data_row "s1" "text" ["BBDachneigungMax"; "DachneigungMax"]%string].
Definition ann1_Max : xlsx_file :=
  workbook "doc1_ann1.xlsx" [data_row "s1" "text" ["DachneigungMax"%string]].


(** What the loader makes of [gold_A], [ann1_A] and [ann2_A]. *)
Definition sen_A : sentence :=
  {| sen_id := "s1"; sen_text := Some "text"%string;
     annot := [(0, [0]); (1, [0]); (2, [0])]; attr_stats := [(0, 2)];
     full_agreement := None |}.

Definition data_A : dict string sentence := [("s1"%string, sen_A)].
Definition attrs_A : Vocabulary.t := ["A"%string].
Definition annotators_A : Vocabulary.t := ["gold"; "ann1"; "ann2"]%string.

(** A workbook without the header row. *)
Definition ann1_no_header : xlsx_file :=
  {| file_name := "doc1_ann1.xlsx"; file_rows := [data_row "s1" "text" ["A"%string]] |}.
Section agreement.

(** Iteration order of [set(sen['attributes'])]. *)
Variable set_iter : list string → list string.

(** Iteration order of a set of attribute ids (get_tsv_line). *)
Variable set_iter_id : list nat → list nat.

(** Floating point numbers, and the kappa statistic of scikit-learn. *)
Variable K : Type.
Variables kzero kone : K.
Variable kadd : K → K → K.
Variable kdiv : K → nat → K.
Variable cohen_kappa_score : list nat → list nat → K.

Hypothesis set_iter_ok : set_order_ok set_iter.
Hypothesis set_iter_id_ok : set_order_ok set_iter_id.

(** Lines 218-220: the record created for a new sentence id. *)
Definition new_record (sen : sen_row) : sentence :=
  {| sen_id := row_id sen; sen_text := row_text sen; annot := [];
     attr_stats := Counter_empty; full_agreement := None |}.

(** Lines 228-234: the update of [attr_stats] for the labels just stored
    by the annotator called [w]. *)
Definition update_attr_stats (w : string) (labels : list nat) : dict nat nat → dict nat nat :=
  if decide (w ≠ gold) then incr_all labels else ensure_all labels.

(** The body of the loop of lines 214-234 for one yielded sentence. *)
Definition merge_sen (fn : string) (annotator : nat) (sen : sen_row) (st : lstate) : outcome :=
  let sid := row_id sen in
  let created : outcome :=
    match dget sid (data st) with
    | Some rec =>
        if decide (sen_text rec = row_text sen) then (st, Ok ())
        else (st, Raise (ChangedText fn sid))
    | None => (set_data (dset sid (new_record sen)) st, Ok ())
    end in
  match created with
  | (st1, inl e) => (st1, inl e)
  | (st1, inr _) =>
      match dget sid (data st1) with
      | None => (st1, Raise (KeyError_word sid))
      | Some rec =>
          if dmem annotator (annot rec) then (st1, Raise AssertionError)
          else
            match intern_attrs (set_iter (row_attributes sen)) (attr_vocab st1) with
            | inl e => (st1, inl e)
            | inr (ids, av) =>
                let st2 := set_attr_vocab av st1 in
                let labels := sorted_nat ids in
                let rec2 := set_annot (dset annotator labels) rec in
                let st3 := set_data (dset sid rec2) st2 in
                match Vocabulary.get_word annotator (annotator_vocab st3) with
                | inl e => (st3, inl e)
                | inr w =>
                    (set_data (dset sid (set_attr_stats (update_attr_stats w labels) rec2)) st3,
                     Ok ())
                end
            end
      end
  end.

(** The loop [for sen in gen_sens_from_file(fn)], from row [i]. *)
Fixpoint load_rows (fn : string) (annotator : nat) (i : nat) (rows : list (list cell))
    (st : lstate) : outcome :=
  match rows with
  | [] => (st, Ok ())
  | row :: rows' =>
      match gen_sen fn i row with
      | inl e => (st, inl e)
      | inr None => load_rows fn annotator (S i) rows' st
      | inr (Some sen) =>
          match merge_sen fn annotator sen st with
          | (st', inl e) => (st', inl e)
          | (st', inr _) => load_rows fn annotator (S i) rows' st'
          end
      end
  end.

(** The body of the loop of line 205 for one file. *)
Definition load_file (f : xlsx_file) (st : lstate) : outcome :=
  match annotator_of_filename (file_name f) with
  | inl e => (st, inl e)
  | inr name =>
      match Vocabulary.get_id (lower name) true (annotator_vocab st) with
      | inl e => (st, inl e)
      | inr (annotator, v) =>
          load_rows (file_name f) annotator 0 (file_rows f) (set_annotator_vocab v st)
      end
  end.

Fixpoint load_files (filenames : list xlsx_file) (st : lstate) : outcome :=
  match filenames with
  | [] => (st, Ok ())
  | f :: filenames' =>
      match load_file f st with
      | (st', inl e) => (st', inl e)
      | (st', inr _) => load_files filenames' st'
      end
  end.

Definition load_data (filenames : list xlsx_file) : outcome :=
  load_files filenames init_lstate.

(** ** Empty-sentence filter *)

Definition any_annotation (sen : sentence) : bool :=
  existsb (λ attrs : list nat, negb (bool_decide (attrs = []))) (dvalues (annot sen)).

Definition remove_empty (d : dict string sentence) : dict string sentence :=
  List.filter (λ '(_, sen_data), any_annotation sen_data) d.

(** ** TSV export *)

Record tsv_line : Type := {
  tsv_id : string;
  tsv_text : cell;
  tsv_annots : list string;
  tsv_counts : string;
  tsv_full_agreement : option bool
}.

Definition tab_join (l : list string) : string := String.concat (String "009"%char EmptyString) l.

Definition get_tsv_line (sen : sentence) (attr_vocab : Vocabulary.t) : result tsv_line :=
  let* cells :=
    rmap (λ '(ann, attrs),
            match attrs with
            | [] => Ok "no_attr"%string
            | _ => let* words := rmap (λ attr, Vocabulary.get_word attr attr_vocab) attrs in
                   Ok (String.concat "," words)
            end) (annot sen) in
  let* counts :=
    rmap (λ attr, let* w := Vocabulary.get_word attr attr_vocab in
                  Ok (w +:+ ":" +:+ pretty (counter_get attr (attr_stats sen)))%string)
         (set_iter_id (mjoin (sorted_nat <$> dvalues (annot sen)))) in
  Ok {| tsv_id := sen_id sen; tsv_text := sen_text sen; tsv_annots := cells;
        tsv_counts := String.concat " " counts;
        tsv_full_agreement := full_agreement sen |}.

(** The loop of print_data: every record gets its [full_agreement],
    and its line is written.  Returns the header, the lines written and
    the records as mutated; on an exception what was written so far. *)
Fixpoint print_sens (sens : dict string sentence) (attr_vocab : Vocabulary.t)
    : dict string sentence * list tsv_line * result unit :=
  match sens with
  | [] => ([], [], Ok ())
  | (sid, sen) :: sens' =>
      let sen' := set_full_agreement (all_equal (dvalues (annot sen))) sen in
      match get_tsv_line sen' attr_vocab with
      | inl e => ((sid, sen') :: sens', [], inl e)
      | inr line =>
          let '(sens'', lines, r) := print_sens sens' attr_vocab in
          ((sid, sen') :: sens'', line :: lines, r)
      end
  end.

Definition tsv_header (annotator_vocab : Vocabulary.t) : string :=
  ("sen_id" +:+ String "009"%char ("sen" +:+ String "009"%char
     (tab_join annotator_vocab +:+ String "009"%char
        ("attribute counts" +:+ String "009"%char "full_agreement"))))%string.

Definition print_data (d : dict string sentence) (attr_vocab annotator_vocab : Vocabulary.t)
    : dict string sentence * (string * list tsv_line) * result unit :=
  let '(d', lines, r) := print_sens d attr_vocab in
  (d', (tsv_header annotator_vocab, lines), r).

(** ** Vote synthesizer *)

(** Lines 121-125: the votes of the real annotators on one sentence. *)
Definition count_votes (real_annotators : list nat) (annotator_vocab : Vocabulary.t)
    (sen : sentence) : result (dict nat nat) :=
  rfold (λ ann attr_counter,
           let* w := Vocabulary.get_word ann annotator_vocab in
           if decide (w = gold) then Ok attr_counter
           else
             let* attrs := dindex KeyError_id ann (annot sen) in
             Ok (incr_all attrs attr_counter))
        real_annotators [].

(** Lines 127-131: [vote_sets[n]] for one quorum [n]. *)
Definition vote_set (attr_counter : dict nat nat) (n : nat) : gset nat :=
  foldl (λ (s : gset nat) '(attr, count),
           if decide (n ≤ count) then s ∪ {[attr]} else s)
        ∅ attr_counter.

(** Lines 133-134: the three entries written into [sen['annot']]. *)
Definition write_votes (vote_anns : list (nat * nat)) (attr_counter : dict nat nat)
    (sen : sentence) : sentence :=
  foldl (λ sen '(n, vote_ann),
           set_annot (dset vote_ann (sorted_nat (elements (vote_set attr_counter n)))) sen)
        sen vote_anns.

Definition min_name (n : nat) : string := ("min" +:+ pretty n)%string.

(** Lines 115-117: the dict [vote_anns] and the vocabulary afterwards. *)
Definition register_votes (annotator_vocab : Vocabulary.t)
    : result (list (nat * nat) * Vocabulary.t) :=
  rfold (λ n '(vote_anns, v),
           let* (i, v') := Vocabulary.get_id (min_name n) true v in
           Ok (vote_anns ++ [(n, i)], v'))
        [1; 2; 3] ([], annotator_vocab).

Definition add_votes (d : dict string sentence) (attr_vocab annotator_vocab : Vocabulary.t)
    : result (dict string sentence * Vocabulary.t) :=
  let real_annotators := Vocabulary.ids annotator_vocab in
  let* (vote_anns, annotator_vocab') := register_votes annotator_vocab in
  let* d' :=
    rmap (λ '(sid, sen),
            let* attr_counter := count_votes real_annotators annotator_vocab' sen in
            Ok (sid, write_votes vote_anns attr_counter sen))
         d in
  Ok (d', annotator_vocab').

(** ** Agreement engine *)

Definition tensor_zeros (n_attr n_ann n_sen : nat) : tensor :=
  replicate n_attr (replicate n_ann (replicate n_sen 0)).

(** [ratings[attr][ann][i] = 1] *)
Definition tensor_set (attr ann i : nat) (t : tensor) : result tensor :=
  match t !! attr with
  | None => Raise IndexError
  | Some m =>
      match m !! ann with
      | None => Raise IndexError
      | Some vec =>
          if decide (i < length vec)
          then Ok (<[attr := <[ann := <[i := 1]> vec]> m]> t)
          else Raise IndexError
      end
  end.

(** [ratings[attr][ann]] *)
Definition tensor_vec (attr ann : nat) (t : tensor) : result (list nat) :=
  match t !! attr with
  | None => Raise IndexError
  | Some m =>
      match m !! ann with
      | None => Raise IndexError
      | Some vec => Ok vec
      end
  end.

(** [vec.any()] *)
Definition vec_any (vec : list nat) : bool := existsb (λ x, negb (x =? 0)) vec.

(** Lines 147-151 for sentence [i]. *)
Definition rate_sen (annotator_vocab : Vocabulary.t) (i : nat) (sid : string)
    (sen : sentence) (ratings : tensor) : result tensor :=
  rfold (λ ann ratings,
           match dget ann (annot sen) with
           | None => Raise (NoAnnotation ann sid)
           | Some attrs => rfold (λ attr ratings, tensor_set attr ann i ratings) attrs ratings
           end)
        (Vocabulary.ids annotator_vocab) ratings.

(** Lines 153-154. *)
Definition count_sen (sen : sentence) (attr_counts : dict nat (dict nat nat))
    : result (dict nat (dict nat nat)) :=
  rfold (λ '(attr, count) attr_counts,
           let* c := dindex KeyError_id attr attr_counts in
           Ok (dset attr (counter_incr count c) attr_counts))
        (attr_stats sen) attr_counts.

(** The loop of lines 146-154. *)
Definition rate_all (d : dict string sentence) (attr_vocab annotator_vocab : Vocabulary.t)
    : result (tensor * dict nat (dict nat nat)) :=
  rfoldi (λ i '(sid, sen) '(ratings, attr_counts),
            let* ratings' := rate_sen annotator_vocab i sid sen ratings in
            let* attr_counts' := count_sen sen attr_counts in
            Ok (ratings', attr_counts'))
         0 d
         (tensor_zeros (Vocabulary.len attr_vocab) (Vocabulary.len annotator_vocab) (length d),
          (λ attr, (attr, [])) <$> Vocabulary.ids attr_vocab).

(** Lines 167-171: the kappa of one pair. *)
Definition pair_kappa (ratings : tensor) (attr ann1 ann2 : nat) : result K :=
  let* vec1 := tensor_vec attr ann1 ratings in
  let* vec2 := tensor_vec attr ann2 ratings in
  if negb (vec_any vec1) && negb (vec_any vec2) then Ok kone
  else Ok (cohen_kappa_score vec1 vec2).

(** The two nested loops of lines 163-176: (attr_kappas, gold_kappas). *)
Definition attr_pair_kappas (ratings : tensor) (annotator_vocab : Vocabulary.t) (attr : nat)
    : result (list K * list K) :=
  rfold (λ '(ann1, ann1_name) acc,
           rfold (λ '(ann2, ann2_name) '(attr_kappas, gold_kappas),
                    if decide (ann2 ≤ ann1) then Ok (attr_kappas, gold_kappas)
                    else
                      let* kappa := pair_kappa ratings attr ann1 ann2 in
                      if decide (ann1_name = gold ∨ ann2_name = gold)
                      then Ok (attr_kappas, gold_kappas ++ [kappa])
                      else Ok (attr_kappas ++ [kappa], gold_kappas))
                 (Vocabulary.items annotator_vocab) acc)
        (Vocabulary.items annotator_vocab) ([], []).

(** [sum(ks)] *)
Definition ksum (ks : list K) : K := foldl kadd kzero ks.

(** [sum(ks) / len(ks)] *)
Definition kavg (ks : list K) : result K :=
  if decide (length ks = 0) then Raise ZeroDivisionError
  else Ok (kdiv (ksum ks) (length ks)).

(** Stable insertion, descending by key (for the two rankings). *)
Fixpoint insert_desc {A} (key : A → nat) (x : A) (l : list A) : list A :=
  match l with
  | [] => [x]
  | y :: l' => if key x <? key y then y :: insert_desc key x l' else x :: l
  end.

Definition sort_desc {A} (key : A → nat) (l : list A) : list A :=
  foldr (insert_desc key) [] l.

(** One entry of [stats]. *)
Record attr_row : Type := {
  attr_freq : nat;
  attr_name : string;
  avg_gold : K;
  gold_kappas : list K;
  avg : K;
  attr_kappas : list K;
  attr_counts_str : string
}.

(** The body of the loop of lines 157-190 for one attribute. *)
Definition attr_stat (ratings : tensor) (attr_counts : dict nat (dict nat nat))
    (annotator_vocab : Vocabulary.t) (attr : nat) (name : string) : result attr_row :=
  let* (attr_ks, gold_ks) := attr_pair_kappas ratings annotator_vocab attr in
  let* a := kavg attr_ks in
  let* ag := match gold_ks with [] => Ok kzero | _ => kavg gold_ks end in
  let* slice := match ratings !! attr with Some m => Ok m | None => Raise IndexError end in
  let* c := dindex KeyError_id attr attr_counts in
  Ok {| attr_freq := sum_list (sum_list <$> slice);
        attr_name := name;
        avg_gold := ag; gold_kappas := gold_ks;
        avg := a; attr_kappas := attr_ks;
        attr_counts_str :=
          String.concat " "
            ((λ '(n, count), pretty n +:+ ":" +:+ pretty count)%string
               <$> sort_desc fst c) |}.

(** measure_agreement: the table [stats] that is printed. *)
Definition measure_agreement (d : dict string sentence) (attr_vocab annotator_vocab : Vocabulary.t)
    : result (list attr_row) :=
  let* (ratings, attr_counts) := rate_all d attr_vocab annotator_vocab in
  let* stats :=
    rmap (λ '(attr, name), attr_stat ratings attr_counts annotator_vocab attr name)
         (Vocabulary.items attr_vocab) in
  Ok (sort_desc attr_freq stats).

(** ** Gold evaluator *)

(** The value the defaultdict makes for a missing attribute. *)
Definition default_row (annotator_vocab : Vocabulary.t) (gold_ann : nat)
    : dict nat (dict figure nat) :=
  (λ ann, (ann, Counter_empty)) <$> filter (λ ann, ann ≠ gold_ann)
                                           (Vocabulary.ids annotator_vocab).

(** [attr_stats[attr][ann][fig] += 1] *)
Definition stats_incr (annotator_vocab : Vocabulary.t) (gold_ann : nat)
    (attr ann : nat) (fig : figure) (st : gold_stats) : result gold_stats :=
  let st1 := match dget attr st with
             | Some _ => st
             | None => dset attr (default_row annotator_vocab gold_ann) st
             end in
  let* row := dindex KeyError_id attr st1 in
  let* c := dindex KeyError_id ann row in
  Ok (dset attr (dset ann (counter_incr fig c) row) st1).

(** [attr_stats[attr][ann][fig]], read without inserting. *)
Definition stats_get (st : gold_stats) (attr ann : nat) (fig : figure) : nat :=
  match dget attr st with
  | Some row => match dget ann row with
                | Some c => counter_get fig c
                | None => 0
                end
  | None => 0
  end.

(** Lines 62-69: true positives and false negatives of one sentence. *)
Definition count_tp_fn (annotator_vocab : Vocabulary.t) (gold_ann : nat) (sen : sentence)
    (st : gold_stats) : result gold_stats :=
  let* gold_attrs := dindex KeyError_id gold_ann (annot sen) in
  rfold (λ attr st,
           rfold (λ ann st,
                    if decide (ann = gold_ann) then Ok st
                    else
                      let* attrs := dindex KeyError_id ann (annot sen) in
                      if decide (attr ∈ attrs)
                      then stats_incr annotator_vocab gold_ann attr ann TP st
                      else stats_incr annotator_vocab gold_ann attr ann FN st)
                 (Vocabulary.ids annotator_vocab) st)
        gold_attrs st.

(** Lines 72-79: false positives of one sentence. *)
Definition count_fp (annotator_vocab : Vocabulary.t) (gold_ann : nat) (sid : string)
    (sen : sentence) (st : gold_stats) : result gold_stats :=
  rfold (λ ann st,
           if decide (ann = gold_ann) then Ok st
           else
             match dget ann (annot sen) with
             | None => Raise (NoAnnotation ann sid)
             | Some attrs =>
                 rfold (λ attr st,
                          let* gold_attrs := dindex KeyError_id gold_ann (annot sen) in
                          if decide (attr ∉ gold_attrs)
                          then stats_incr annotator_vocab gold_ann attr ann FP st
                          else Ok st)
                       attrs st
             end)
        (Vocabulary.ids annotator_vocab) st.

(** The loop of lines 60-79. *)
Definition count_gold (d : dict string sentence) (annotator_vocab : Vocabulary.t)
    (gold_ann : nat) : result gold_stats :=
  rfold (λ '(sid, sen) st,
           let* st1 := count_tp_fn annotator_vocab gold_ann sen st in
           count_fp annotator_vocab gold_ann sid sen st1)
        d [].

(** Lines 81-85: the row of the pseudo-attribute total. *)
Definition total_row (annotator_vocab : Vocabulary.t) (gold_ann : nat) (st : gold_stats)
    : result (dict nat (dict figure nat)) :=
  rmap (λ ann,
          let* figs :=
            rmap (λ fig,
                    let* counts :=
                      rmap (λ attr,
                              let* row := dindex KeyError_id attr st in
                              let* c := dindex KeyError_id ann row in
                              Ok (counter_get fig c))
                           (dkeys st) in
                    Ok (fig, sum_list counts))
                 [TP; FN; FP] in
          Ok (ann, figs))
       (filter (λ ann, ann ≠ gold_ann) (Vocabulary.ids annotator_vocab)).

(** The key of line 89. *)
Definition volume (entry : nat * dict nat (dict figure nat)) : nat :=
  sum_list ((λ a_s : dict figure nat, sum_list (dvalues a_s)) <$> dvalues entry.2).

Definition starts_with_min (name : string) : bool :=
  bool_decide (String.prefix "min" name = true).

(** One printed block: the attribute and the two tables handed to
    print_cat_stats. *)
Record gold_block : Type := {
  block_attr : string;
  real_annot : dict string (dict figure nat);
  vote_annot : dict string (dict figure nat)
}.

Definition named_block (attr_vocab annotator_vocab : Vocabulary.t)
    (entry : nat * dict nat (dict figure nat)) : result gold_block :=
  let* named_stats :=
    rfold (λ '(ann, st) named,
             let* w := Vocabulary.get_word ann annotator_vocab in
             Ok (dset w st named))
          entry.2 [] in
  let* w := Vocabulary.get_word entry.1 attr_vocab in
  Ok {| block_attr := w;
        real_annot := List.filter (λ '(ann, _), negb (starts_with_min ann)) named_stats;
        vote_annot := List.filter (λ '(ann, _), starts_with_min ann) named_stats |}.

(** eval_against_gold: the ranked table and the blocks printed. *)
Definition eval_against_gold (d : dict string sentence) (attr_vocab annotator_vocab : Vocabulary.t)
    : result (list (nat * dict nat (dict figure nat)) * list gold_block) :=
  let* (gold_ann, _) := Vocabulary.get_id gold false annotator_vocab in
  let* st := count_gold d annotator_vocab gold_ann in
  let* total := total_row annotator_vocab gold_ann st in
  let* (total_id, attr_vocab') := Vocabulary.get_id "total" true attr_vocab in
  let ranked := sort_desc volume (dset total_id total st) in
  let* blocks := rmap (named_block attr_vocab' annotator_vocab) (take 10 ranked) in
  Ok (ranked, blocks).

(** ** Entry point *)

(** What a run leaves behind: the TSV file if it was opened, the table of
    the agreement engine, the data and annotator vocabulary after vote
    synthesis and the output of the gold evaluator, each if the run
    reached it, and how the run ended. *)
Record run : Type := {
  run_tsv : option (string * list tsv_line);
  run_agreement : option (list attr_row);
  run_votes : option (dict string sentence * Vocabulary.t);
  run_gold : option (list (nat * dict nat (dict figure nat)) * list gold_block);
  run_exit : result unit
}.

Definition main (filenames : list xlsx_file) : run :=
  match load_data filenames with
  | (st, inl e) =>
      {| run_tsv := None; run_agreement := None; run_votes := None;
         run_gold := None; run_exit := inl e |}
  | (st, inr _) =>
      let '(d1, tsv, r) := print_data (data st) (attr_vocab st) (annotator_vocab st) in
      match r with
      | inl e =>
          {| run_tsv := Some tsv; run_agreement := None; run_votes := None;
             run_gold := None; run_exit := inl e |}
      | inr _ =>
          let d2 := if IGNORE_EMPTY then remove_empty d1 else d1 in
          match measure_agreement d2 (attr_vocab st) (annotator_vocab st) with
          | inl e =>
              {| run_tsv := Some tsv; run_agreement := None; run_votes := None;
                 run_gold := None; run_exit := inl e |}
          | inr stats =>
              match add_votes d2 (attr_vocab st) (annotator_vocab st) with
              | inl e =>
                  {| run_tsv := Some tsv; run_agreement := Some stats; run_votes := None;
                     run_gold := None; run_exit := inl e |}
              | inr (d3, av) =>
                  match eval_against_gold d3 (attr_vocab st) av with
                  | inl e =>
                      {| run_tsv := Some tsv; run_agreement := Some stats;
                         run_votes := Some (d3, av); run_gold := None; run_exit := inl e |}
                  | inr g =>
                      {| run_tsv := Some tsv; run_agreement := Some stats;
                         run_votes := Some (d3, av); run_gold := Some g;
                         run_exit := Ok () |}
                  end
              end
          end
      end
  end.

(** * Properties *)


(** ** Results *)

Lemma rbind_Ok {A B} (m : result A) (k : A → result B) (b : B) :
  rbind m k = Ok b ↔ ∃ a, m = Ok a ∧ k a = Ok b.
Proof.
  destruct m as [e|a]; simpl.
  - split; [done | intros (a & Ha & _); done].
  - split; [eauto | intros (a' & [= <-] & Hk); done].
Qed.

Lemma rmap_Ok {A B} (body : A → result B) (l : list A) (ys : list B) :
  rmap body l = Ok ys ↔ Forall2 (λ x y, body x = Ok y) l ys.
Proof.
  revert ys. induction l as [|x l IH]; intros ys; simpl.
  - split; [intros [= <-]; constructor | intros H; by inversion H].
  - rewrite rbind_Ok. split.
    + intros (y & Hy & H). apply rbind_Ok in H as (ys' & Hys' & [= <-]).
      constructor; [done|]. by apply IH.
    + intros H. inversion H as [|? y ? ys' Hy Hys']; subst.
      exists y. split; [done|]. apply rbind_Ok. exists ys'. split; [by apply IH|done].
Qed.

Lemma rfold_app {A St} (body : A → St → result St) (l1 l2 : list A) (st : St) :
  rfold body (l1 ++ l2) st = rbind (rfold body l1 st) (rfold body l2).
Proof.
  revert st. induction l1 as [|x l1 IH]; intros st; simpl; [done|].
  destruct (body x st); simpl; [done|]. apply IH.
Qed.

(** ** Dictionaries *)

Section dict_lemmas.
Context {Key Val : Type} `{EqDecision Key}.
Implicit Types (d : dict Key Val).

Lemma dget_dset_eq k v d : dget k (dset k v d) = Some v.
Proof.
  induction d as [|[k' v'] d IH]; simpl.
  - by rewrite decide_True.
  - destruct (decide (k' = k)) as [->|Hne]; simpl.
    + by rewrite decide_True.
    + by rewrite decide_False.
Qed.

Lemma dget_dset_ne k k' v d : k ≠ k' → dget k' (dset k v d) = dget k' d.
Proof.
  intros Hne. induction d as [|[k0 v0] d IH]; simpl.
  - by rewrite decide_False.
  - destruct (decide (k0 = k)) as [->|Hne0]; simpl.
    + by rewrite !decide_False.
    + destruct (decide (k0 = k')); done.
Qed.

Lemma dget_dset k k' v d :
  dget k' (dset k v d) = if decide (k = k') then Some v else dget k' d.
Proof.
  destruct (decide (k = k')) as [->|Hne].
  - apply dget_dset_eq.
  - by apply dget_dset_ne.
Qed.

Lemma dget_Some_elem_of k v d : dget k d = Some v → (k, v) ∈ d.
Proof.
  induction d as [|[k' v'] d IH]; simpl; [done|].
  destruct (decide (k' = k)) as [->|Hne].
  - intros [= ->]. left.
  - intros H. right. auto.
Qed.

Lemma dget_None_not_key k d : dget k d = None ↔ k ∉ dkeys d.
Proof.
  unfold dkeys. induction d as [|[k' v'] d IH]; simpl.
  - split; [intros _; apply not_elem_of_nil | done].
  - rewrite not_elem_of_cons. destruct (decide (k' = k)) as [->|Hne].
    + split; [done | intros [? _]; done].
    + rewrite IH. split; [intros ?; split; [congruence|done] | intros [_ ?]; done].
Qed.

Lemma dget_is_Some_key k d : is_Some (dget k d) ↔ k ∈ dkeys d.
Proof.
  rewrite <-not_eq_None_Some, dget_None_not_key.
  destruct (decide (k ∈ dkeys d)) as [Hin|Hnin]; split.
  - by intros _.
  - intros _ Hn. exact (Hn Hin).
  - intros Hn. destruct (Hn Hnin).
  - intros Hin. destruct (Hnin Hin).
Qed.

Lemma dkeys_dset_present k v d : k ∈ dkeys d → dkeys (dset k v d) = dkeys d.
Proof.
  unfold dkeys. induction d as [|[k' v'] d IH]; simpl.
  - intros H. by apply elem_of_nil in H.
  - intros H. destruct (decide (k' = k)) as [->|Hne]; simpl; [done|].
    f_equal. apply IH. apply elem_of_cons in H as [->|H]; done.
Qed.

Lemma dkeys_dset_absent k v d : k ∉ dkeys d → dkeys (dset k v d) = dkeys d ++ [k].
Proof.
  unfold dkeys. induction d as [|[k' v'] d IH]; simpl; [done|].
  rewrite not_elem_of_cons. intros [Hne Hnin].
  rewrite decide_False by done. simpl. f_equal. by apply IH.
Qed.

Lemma dget_elem_of_NoDup k v d : NoDup (dkeys d) → (k, v) ∈ d → dget k d = Some v.
Proof.
  unfold dkeys. induction d as [|[k' v'] d IH]; simpl.
  - intros _ H. by apply elem_of_nil in H.
  - rewrite NoDup_cons. intros [Hnin Hnd] Hin.
    apply elem_of_cons in Hin as [[= -> ->]|Hin].
    + by rewrite decide_True.
    + destruct (decide (k' = k)) as [->|Hne]; [|by apply IH].
      exfalso. apply Hnin. apply list_elem_of_fmap. by exists (k, v).
Qed.

Lemma NoDup_dkeys_dset k v d : NoDup (dkeys d) → NoDup (dkeys (dset k v d)).
Proof.
  intros Hnd. destruct (decide (k ∈ dkeys d)) as [Hin|Hnin].
  - by rewrite dkeys_dset_present.
  - rewrite dkeys_dset_absent by done. apply NoDup_app. split_and!; [done| |apply NoDup_singleton].
    intros x Hx Hx'. apply list_elem_of_singleton in Hx' as ->. done.
Qed.
End dict_lemmas.

Lemma elem_of_dset {Key Val} `{EqDecision Key} (k : Key) (v : Val) (d : dict Key Val)
    (x : Key * Val) :
  x ∈ dset k v d → x = (k, v) ∨ x ∈ d.
Proof.
  induction d as [|[k' v'] d IH]; simpl.
  - intros H. apply list_elem_of_singleton in H. by left.
  - destruct (decide (k' = k)) as [->|Hne].
    + intros H. apply elem_of_cons in H as [->|H]; [by left|]. right. by right.
    + intros H. apply elem_of_cons in H as [->|H]; [right; left|].
      destruct (IH H) as [->|H']; [by left|]. right. by right.
Qed.

Lemma dget_elem_of_values {Key Val} `{EqDecision Key} (k : Key) (v : Val) (d : dict Key Val) :
  dget k d = Some v → v ∈ dvalues d.
Proof.
  intros H. apply dget_Some_elem_of in H. unfold dvalues.
  apply list_elem_of_fmap. by exists (k, v).
Qed.

(** ** The vocabulary *)

Lemma find_word_Some (w : string) (v : Vocabulary.t) (i : nat) :
  Vocabulary.find_word w v = Some i → v !! i = Some w.
Proof.
  revert i. induction v as [|w' v IH]; intros i; simpl; [done|].
  destruct (decide (w' = w)) as [->|Hne].
  - by intros [= <-].
  - destruct (Vocabulary.find_word w v) as [j|]; simpl; [|done].
    intros [= <-]. simpl. by apply IH.
Qed.

Lemma find_word_app (w : string) (v v' : Vocabulary.t) (i : nat) :
  Vocabulary.find_word w v = Some i → Vocabulary.find_word w (v ++ v') = Some i.
Proof.
  revert i. induction v as [|w0 v IH]; intros i; simpl; [done|].
  destruct (decide (w0 = w)); [done|].
  destruct (Vocabulary.find_word w v) as [j|]; simpl; [|done].
  intros [= <-]. by rewrite (IH j).
Qed.

Lemma find_word_None (w : string) (v : Vocabulary.t) :
  Vocabulary.find_word w v = None ↔ w ∉ v.
Proof.
  induction v as [|w' v IH]; simpl.
  - split; [intros _; apply not_elem_of_nil | done].
  - rewrite not_elem_of_cons. destruct (decide (w' = w)) as [->|Hne].
    + split; [done | intros [? _]; done].
    + destruct (Vocabulary.find_word w v); simpl.
      * split; [done|]. intros [_ Hnin]. by apply IH in Hnin.
      * split; [|done]. intros _. split; [congruence | by apply IH].
Qed.

Lemma find_word_snoc (w : string) (v : Vocabulary.t) :
  Vocabulary.find_word w v = None → Vocabulary.find_word w (v ++ [w]) = Some (length v).
Proof.
  induction v as [|w' v IH]; simpl.
  - by rewrite decide_True.
  - destruct (decide (w' = w)); [done|].
    destruct (Vocabulary.find_word w v); [done|]. intros _. by rewrite IH.
Qed.

(** [get_id(w, allow_new=True)] never fails; the vocabulary only grows at
    its end, and the id names [w] afterwards. *)
Lemma get_id_new (w : string) (v : Vocabulary.t) :
  ∃ i v', Vocabulary.get_id w true v = Ok (i, v')
    ∧ v `prefix_of` v' ∧ Vocabulary.find_word w v' = Some i ∧ i < length v'.
Proof.
  unfold Vocabulary.get_id. destruct (Vocabulary.find_word w v) as [i|] eqn:E.
  - exists i, v. split_and!; [done..|].
    apply find_word_Some in E. by apply lookup_lt_Some in E.
  - exists (length v), (v ++ [w]). split_and!; [done| |by apply find_word_snoc|].
    + by apply prefix_app_r.
    + rewrite length_app. simpl. lia.
Qed.

Lemma get_id_known (w : string) (allow_new : bool) (v : Vocabulary.t) (i : nat) :
  Vocabulary.find_word w v = Some i → Vocabulary.get_id w allow_new v = Ok (i, v).
Proof. unfold Vocabulary.get_id. by intros ->. Qed.

Lemma find_word_prefix (w : string) (v v' : Vocabulary.t) (i : nat) :
  v `prefix_of` v' → Vocabulary.find_word w v = Some i →
  Vocabulary.find_word w v' = Some i.
Proof. intros [k ->]. apply find_word_app. Qed.

(** ** Iteration orders *)

Lemma set_order_const {A} (f : list A → list A) (x : A) (l : list A) :
  set_order_ok f → x ∈ l → (∀ y, y ∈ l → y = x) → f l = [x].
Proof.
  intros Hok Hx Hall. destruct (Hok l) as [Hnd Hin].
  assert (∀ y, y ∈ f l → y = x) as Hall' by (intros y Hy; apply Hall, Hin, Hy).
  apply Hin in Hx.
  destruct (f l) as [|y [|z l']].
  - by apply elem_of_nil in Hx.
  - f_equal. apply Hall'. left.
  - exfalso. apply NoDup_cons in Hnd as [Hnd _]. apply Hnd.
    rewrite (Hall' y) by left. rewrite (Hall' z) by (right; left). left.
Qed.

Lemma set_order_singleton {A} (f : list A → list A) (x : A) :
  set_order_ok f → f [x] = [x].
Proof.
  intros Hok. apply set_order_const; [done|left|].
  intros y Hy. by apply list_elem_of_singleton in Hy.
Qed.

Lemma set_order_pair {A} (f : list A → list A) (x y : A) :
  set_order_ok f → x ≠ y → f [x; y] = [x; y] ∨ f [x; y] = [y; x].
Proof.
  intros Hok Hne. destruct (Hok [x; y]) as [Hnd Hin].
  assert (∀ z, z ∈ f [x; y] → z = x ∨ z = y) as Hsub.
  { intros z Hz. apply Hin in Hz. apply elem_of_cons in Hz as [->|Hz]; [by left|].
    apply list_elem_of_singleton in Hz. by right. }
  assert (x ∈ f [x; y]) as Hx by (apply Hin; left).
  assert (y ∈ f [x; y]) as Hy by (apply Hin; right; left).
  destruct (f [x; y]) as [|a [|b [|c l]]].
  - by apply elem_of_nil in Hx.
  - apply list_elem_of_singleton in Hx, Hy. congruence.
  - apply NoDup_cons in Hnd as [Hab _]. rewrite list_elem_of_singleton in Hab.
    pose proof (Hsub a ltac:(left)) as Ha'.
    pose proof (Hsub b ltac:(right; left)) as Hb'.
    destruct Ha' as [->| ->], Hb' as [->| ->]; auto; done.
  - exfalso. apply NoDup_cons in Hnd as [Ha Hnd]. apply NoDup_cons in Hnd as [Hb _].
    apply not_elem_of_cons in Ha as [Hab Ha]. apply not_elem_of_cons in Ha as [Hac _].
    apply not_elem_of_cons in Hb as [Hbc _].
    pose proof (Hsub a ltac:(left)) as Ha'.
    pose proof (Hsub b ltac:(right; left)) as Hb'.
    pose proof (Hsub c ltac:(do 2 right; left)) as Hc'.
    destruct Ha' as [->| ->], Hb' as [->| ->], Hc' as [->| ->]; congruence.
Qed.

Lemma first_seen_ok {A} `{EqDecision A} : set_order_ok (@first_seen A _).
Proof.
  intros l. split; [apply NoDup_remove_dups|].
  intros x. apply elem_of_remove_dups.
Qed.

Lemma set_iter_A : set_iter ["A"%string] = ["A"%string].
Proof using set_iter_ok. by apply set_order_singleton. Qed.

Lemma set_iter_B : set_iter ["B"%string] = ["B"%string].
Proof using set_iter_ok. by apply set_order_singleton. Qed.

Lemma set_iter_both :
  set_iter ["BBDachneigungMax"; "DachneigungMax"]%string
    = ["BBDachneigungMax"; "DachneigungMax"]%string
  ∨ set_iter ["BBDachneigungMax"; "DachneigungMax"]%string
    = ["DachneigungMax"; "BBDachneigungMax"]%string.
Proof using set_iter_ok. by apply set_order_pair. Qed.

Lemma set_iter_id_zeros (n : nat) : set_iter_id (replicate (S n) 0) = [0].
Proof using set_iter_id_ok.
  apply set_order_const; [done|left|].
  intros y Hy. by apply elem_of_replicate in Hy as [-> _].
Qed.

Lemma set_iter_id_1 : set_iter_id [0] = [0].
Proof using set_iter_id_ok. exact (set_iter_id_zeros 0). Qed.

Lemma set_iter_id_2 : set_iter_id [0; 0] = [0].
Proof using set_iter_id_ok. exact (set_iter_id_zeros 1). Qed.

Lemma set_iter_id_3 : set_iter_id [0; 0; 0] = [0].
Proof using set_iter_id_ok. exact (set_iter_id_zeros 2). Qed.

(** Evaluation up to the calls of [set_iter] and [set_iter_id], which are
    then rewritten. *)
Ltac run_with E :=
  repeat (vm_compute;
          progress rewrite ?E, ?set_iter_A, ?set_iter_B, ?set_iter_id_1, ?set_iter_id_2,
            ?set_iter_id_3);
  vm_compute.

Lemma load_both_spellings :
  load_data [ann1_both_spellings]
  = ({| data := [("s1"%string,
                  {| sen_id := "s1"; sen_text := Some "text"%string;
                     annot := [(0, [0; 0])]; attr_stats := [(0, 2)];
                     full_agreement := None |})];
        attr_vocab := ["DachneigungMax"%string];
        annotator_vocab := ["ann1"%string] |}, Ok ()).
Proof using set_iter_ok.
  destruct set_iter_both as [E|E]; run_with E; reflexivity.
Qed.

Lemma load_gold_two_ann1_first :
  load_data [gold_two; ann1_first]
  = ({| data := [("s1"%string,
                  {| sen_id := "s1"; sen_text := Some "text1"%string;
                     annot := [(0, [0]); (1, [0])]; attr_stats := [(0, 1)];
                     full_agreement := None |});
                 ("s2"%string,
                  {| sen_id := "s2"; sen_text := Some "text2"%string;
                     annot := [(0, [0])]; attr_stats := [(0, 0)];
                     full_agreement := None |})];
        attr_vocab := ["A"%string];
        annotator_vocab := ["gold"; "ann1"]%string |}, Ok ()).
Proof using set_iter_ok. run_with set_iter_A. reflexivity. Qed.

(** ** Claims settled by evaluation *)

(** C5 (fails on the code).  The stored list is meant to be free of
    duplicates after normalization, but [set] is taken over the raw labels,
    before [preprocess_attr]: a row that carries both BBDachneigungMax and
    DachneigungMax stores the shared id twice. *)
Theorem both_spellings_stored_twice :
  ∃ st sen attrs,
    load_data [ann1_both_spellings] = (st, Ok ()) ∧
    attr_vocab st = ["DachneigungMax"%string] ∧
    dget "s1"%string (data st) = Some sen ∧
    dget 0 (annot sen) = Some attrs ∧
    attrs = [0; 0] ∧ ¬ NoDup attrs.
Proof using set_iter_ok.
  eexists _, _, _. rewrite load_both_spellings.
  split_and!; try reflexivity.
  intros Hnd. apply NoDup_cons in Hnd as [Hnin _]. apply Hnin. left.
Qed.

(** C6 (fails on the code, by the defect of C5).  [attr_stats] is meant to
    count the non-gold annotators who selected the attribute; for the row
    with both spellings the only annotator is counted twice. *)
Theorem both_spellings_counted_twice :
  ∃ st sen,
    load_data [ann1_both_spellings] = (st, Ok ()) ∧
    annotator_vocab st = ["ann1"%string] ∧
    dget "s1"%string (data st) = Some sen ∧
    dkeys (annot sen) = [0] ∧
    counter_get 0 (attr_stats sen) = 2.
Proof using set_iter_ok.
  eexists _, _. rewrite load_both_spellings. split_and!; reflexivity.
Qed.

(** C1 (fails on the code, by the defect of C5).  min2 is meant to hold the
    attributes selected by at least two non-gold annotators; for the row
    with both spellings the only annotator reaches the quorum of two. *)
Theorem both_spellings_reach_quorum_two :
  ∃ st d' nv' sen',
    load_data [ann1_both_spellings] = (st, Ok ()) ∧
    annotator_vocab st = ["ann1"%string] ∧
    add_votes (data st) (attr_vocab st) (annotator_vocab st) = Ok (d', nv') ∧
    nv' = ["ann1"; "min1"; "min2"; "min3"]%string ∧
    dget "s1"%string d' = Some sen' ∧
    dget 2 (annot sen') = Some [0].
Proof using set_iter_ok.
  eexists _, _, _, _. rewrite load_both_spellings.
  split_and!; try reflexivity.
Qed.

(** C4 (fails on the code).  The average of the inter-annotator kappas is
    [sum / len] without the guard the gold average has: with a single
    annotator, and also with gold and one annotator, the list is empty and
    the run ends in ZeroDivisionError before any report. *)
Theorem single_annotator_run_divides_by_zero :
  run_exit (main [ann1_single]) = Raise ZeroDivisionError ∧
  run_agreement (main [ann1_single]) = None ∧
  run_exit (main [gold_A; ann1_A]) = Raise ZeroDivisionError ∧
  run_agreement (main [gold_A; ann1_A]) = None.
Proof using set_iter_ok set_iter_id_ok.
  split_and!; run_with set_iter_A; reflexivity.
Qed.

(** C7 (fails on the code).  ann1 is known and has no entry for s2, where
    gold selected A: the gold evaluator reads [sen['annot'][ann]] in the
    true-positive loop, before its own check, and ends in a KeyError that
    does not name the sentence; the agreement engine names both. *)
Theorem missing_annotator_gold_evaluator_keyerror :
  ∃ st sen,
    load_data [gold_two; ann1_first] = (st, Ok ()) ∧
    annotator_vocab st = ["gold"; "ann1"]%string ∧
    dget "s2"%string (data st) = Some sen ∧
    dget 0 (annot sen) = Some [0] ∧
    dget 1 (annot sen) = None ∧
    eval_against_gold (data st) (attr_vocab st) (annotator_vocab st)
      = Raise (KeyError_id 1) ∧
    measure_agreement (data st) (attr_vocab st) (annotator_vocab st)
      = Raise (NoAnnotation 1 "s2").
Proof using set_iter_ok.
  eexists _, _. rewrite load_gold_two_ann1_first.
  split_and!; reflexivity.
Qed.

(** ** The loader *)

Lemma dset_dset {Key Val} `{EqDecision Key} (k : Key) (v v' : Val) (d : dict Key Val) :
  dset k v (dset k v' d) = dset k v d.
Proof.
  induction d as [|[k0 v0] d IH]; simpl.
  - by rewrite decide_True.
  - destruct (decide (k0 = k)) as [->|Hne]; simpl.
    + by rewrite decide_True.
    + rewrite decide_False by done. by rewrite IH.
Qed.

Lemma intern_attrs_Ok (attrs : list string) (v : Vocabulary.t) :
  ∃ ids v', intern_attrs attrs v = Ok (ids, v') ∧ v `prefix_of` v'
    ∧ Forall2 (λ a i, Vocabulary.find_word (preprocess_attr a) v' = Some i) attrs ids.
Proof.
  revert v. induction attrs as [|a attrs IH]; intros v; simpl.
  - exists [], v. split_and!; [done..|constructor].
  - destruct (get_id_new (preprocess_attr a) v) as (i & v1 & -> & Hpre1 & Hfind & _). simpl.
    destruct (IH v1) as (ids & v2 & -> & Hpre2 & Hall). simpl.
    exists (i :: ids), v2. split_and!; [done|by etrans|].
    constructor; [|done]. by eapply find_word_prefix.
Qed.

Lemma merge_sen_annotator_vocab fn ann sen st st' r :
  merge_sen fn ann sen st = (st', r) → annotator_vocab st' = annotator_vocab st.
Proof.
  unfold merge_sen. intros H.
  repeat (case_match; simplify_eq/=); done.
Qed.

(** What one merge does: it raises one of the two assertions and leaves
    the state as it was, or it stores the labels in the record of the
    sentence (the one found, or a new one). *)
Lemma merge_sen_cases fn ann sen st st' r :
  merge_sen fn ann sen st = (st', r) →
  ann < length (annotator_vocab st) →
  (st' = st ∧ ∃ rec, dget (row_id sen) (data st) = Some rec ∧
     (sen_text rec ≠ row_text sen ∧ r = Raise (ChangedText fn (row_id sen))
      ∨ sen_text rec = row_text sen ∧ is_Some (dget ann (annot rec))
        ∧ r = Raise AssertionError))
  ∨ (r = Ok () ∧ ∃ rec0 ids av w,
       (dget (row_id sen) (data st) = Some rec0 ∧ sen_text rec0 = row_text sen
        ∨ dget (row_id sen) (data st) = None ∧ rec0 = new_record sen)
       ∧ dget ann (annot rec0) = None
       ∧ intern_attrs (set_iter (row_attributes sen)) (attr_vocab st) = Ok (ids, av)
       ∧ annotator_vocab st !! ann = Some w
       ∧ st' = {| data :=
                    dset (row_id sen)
                      (set_attr_stats (update_attr_stats w (sorted_nat ids))
                         (set_annot (dset ann (sorted_nat ids)) rec0))
                      (data st);
                  attr_vocab := av;
                  annotator_vocab := annotator_vocab st |}).
Proof.
  intros H Hann. apply lookup_lt_is_Some_2 in Hann as [w Hw].
  unfold merge_sen in H.
  destruct (intern_attrs_Ok (set_iter (row_attributes sen)) (attr_vocab st))
    as (ids & av & Hint & _ & _).
  destruct (dget (row_id sen) (data st)) as [rec|] eqn:Hrec.
  - destruct (decide (sen_text rec = row_text sen)) as [Htext|Htext].
    + rewrite Hrec in H. unfold dmem in H. case_bool_decide as Hdup.
      * injection H as <- <-. left. split; [done|]. exists rec. split; [done|].
        right. done.
      * rewrite Hint in H. unfold Vocabulary.get_word, set_data, set_attr_vocab in H.
        cbn in H. rewrite Hw in H. injection H as <- <-.
        right. split; [done|]. exists rec, ids, av, w. split_and!; [by left| |done..|].
        { by apply eq_None_not_Some. }
        unfold set_data, set_attr_vocab. simpl. by rewrite dset_dset.
    + injection H as <- <-. left. split; [done|]. exists rec. split; [done|].
      left. done.
  - simpl in H. rewrite dget_dset_eq in H. simpl in H.
    rewrite Hint in H. unfold Vocabulary.get_word, set_data, set_attr_vocab in H.
    cbn in H. rewrite Hw in H. injection H as <- <-.
    right. split; [done|]. exists (new_record sen), ids, av, w.
    split_and!; [by right|done..|].
    unfold set_data, set_attr_vocab. simpl. by rewrite !dset_dset.
Qed.



Lemma extends_refl st : extends st st.
Proof. split; [done|]. intros sid rec Hrec. exists rec. done. Qed.

Lemma extends_trans st1 st2 st3 : extends st1 st2 → extends st2 st3 → extends st1 st3.
Proof.
  intros [Hv12 H12] [Hv23 H23]. split; [by etrans|].
  intros sid rec Hrec.
  destruct (H12 sid rec Hrec) as (rec2 & Hrec2 & Hid2 & Htext2 & Hann2).
  destruct (H23 sid rec2 Hrec2) as (rec3 & Hrec3 & Hid3 & Htext3 & Hann3).
  exists rec3. split_and!; [done|congruence|congruence|]. auto.
Qed.

Lemma merge_sen_extends fn ann sen st st' r :
  ann < length (annotator_vocab st) →
  merge_sen fn ann sen st = (st', r) → extends st st'.
Proof.
  intros Hann H.
  destruct (merge_sen_cases _ _ _ _ _ _ H Hann)
    as [[-> _]|(_ & rec0 & ids & av & w & Hrec0 & Hnew & _ & _ & ->)];
    [apply extends_refl|].
  split; [done|]. simpl. intros sid rec Hrec.
  destruct (decide (row_id sen = sid)) as [<-|Hne].
  - rewrite dget_dset_eq.
    destruct Hrec0 as [[Hrec0 _]|[Hrec0 _]]; [|congruence].
    assert (rec0 = rec) as -> by congruence.
    eexists. split; [done|]. simpl. split_and!; [done..|].
    intros ann' attrs Hattrs. rewrite dget_dset_ne; [done|]. congruence.
  - rewrite dget_dset_ne by done. exists rec. done.
Qed.



(** A property kept by every merge holds after the rows of a file. *)
Lemma load_rows_ind (P : lstate → Prop) fn ann :
  (∀ sen st st' r, ann < length (annotator_vocab st) → P st →
     merge_sen fn ann sen st = (st', r) → P st') →
  ∀ rows i st st' r, ann < length (annotator_vocab st) → P st →
    load_rows fn ann i rows st = (st', r) → P st'.
Proof.
  intros Hstep rows. induction rows as [|row rows IH]; intros i st st' r Hann HP; simpl.
  - by intros [= <- _].
  - destruct (gen_sen fn i row) as [e|[sen|]]; [by intros [= <- _]| |by apply IH].
    destruct (merge_sen fn ann sen st) as [st1 [e|u]] eqn:Hm.
    + intros [= <- _]. by eapply Hstep.
    + apply IH.
      * by rewrite (merge_sen_annotator_vocab _ _ _ _ _ _ Hm).
      * by eapply Hstep.
Qed.


(** How the loop body for one file starts. *)
Lemma load_file_start f st :
  (∃ e, load_file f st = (st, Raise e))
  ∨ ∃ name ann v,
      annotator_of_filename (file_name f) = Ok name
      ∧ annotator_vocab st `prefix_of` v
      ∧ Vocabulary.find_word (lower name) v = Some ann
      ∧ ann < length v
      ∧ load_file f st
        = load_rows (file_name f) ann 0 (file_rows f) (set_annotator_vocab v st).
Proof.
  unfold load_file. destruct (annotator_of_filename (file_name f)) as [e|name].
  - left. by exists e.
  - right.
    destruct (get_id_new (lower name) (annotator_vocab st)) as (ann & v & -> & ? & ? & ?).
    by exists name, ann, v.
Qed.

Lemma load_file_ind (P : lstate → Prop) :
  (∀ st v, P st → annotator_vocab st `prefix_of` v → P (set_annotator_vocab v st)) →
  (∀ fn ann sen st st' r, ann < length (annotator_vocab st) → P st →
     merge_sen fn ann sen st = (st', r) → P st') →
  ∀ f st st' r, P st → load_file f st = (st', r) → P st'.
Proof.
  intros Hvocab Hstep f st st' r HP.
  destruct (load_file_start f st) as [[e ->]|(name & ann & v & _ & Hpre & _ & Hann & ->)].
  - by intros [= <- _].
  - apply load_rows_ind; [by apply Hstep|done|by apply Hvocab].
Qed.

Lemma load_files_ind (P : lstate → Prop) :
  (∀ st v, P st → annotator_vocab st `prefix_of` v → P (set_annotator_vocab v st)) →
  (∀ fn ann sen st st' r, ann < length (annotator_vocab st) → P st →
     merge_sen fn ann sen st = (st', r) → P st') →
  ∀ fs st st' r, P st → load_files fs st = (st', r) → P st'.
Proof.
  intros Hvocab Hstep fs. induction fs as [|f fs IH]; intros st st' r HP; simpl.
  - by intros [= <- _].
  - destruct (load_file f st) as [st1 [e|u]] eqn:Hf.
    + intros [= <- _]. by eapply load_file_ind.
    + apply IH. by eapply load_file_ind.
Qed.


Lemma extends_set_annotator_vocab st v :
  annotator_vocab st `prefix_of` v → extends st (set_annotator_vocab v st).
Proof. intros Hpre. split; [done|]. intros sid rec Hrec. exists rec. done. Qed.

Lemma load_rows_extends fn ann rows i st st' r :
  ann < length (annotator_vocab st) →
  load_rows fn ann i rows st = (st', r) → extends st st'.
Proof.
  intros Hann. apply (load_rows_ind (extends st)); [|done|apply extends_refl].
  intros sen st1 st2 r' Hann1 Hext Hm. eapply extends_trans; [done|].
  by eapply merge_sen_extends.
Qed.

Lemma load_file_extends f st st' r : load_file f st = (st', r) → extends st st'.
Proof.
  apply (load_file_ind (extends st)); [| |apply extends_refl].
  - intros st1 v Hext Hpre. eapply extends_trans; [done|].
    by apply extends_set_annotator_vocab.
  - intros fn ann sen st1 st2 r' Hann1 Hext Hm. eapply extends_trans; [done|].
    by eapply merge_sen_extends.
Qed.

Lemma load_files_extends fs st st' r : load_files fs st = (st', r) → extends st st'.
Proof.
  revert st. induction fs as [|f fs IH]; intros st; simpl.
  - intros [= <- _]. apply extends_refl.
  - destruct (load_file f st) as [st1 [e|u]] eqn:Hf.
    + intros [= <- _]. by eapply load_file_extends.
    + intros H. eapply extends_trans; [by eapply load_file_extends|by apply IH].
Qed.




(** ** Sorting and counters *)

Lemma elem_of_sorted_nat (a : nat) (l : list nat) : a ∈ sorted_nat l ↔ a ∈ l.
Proof. unfold sorted_nat. by rewrite merge_sort_Permutation. Qed.

Lemma Sorted_sorted_nat (l : list nat) : Sorted le (sorted_nat l).
Proof. apply (Sorted_merge_sort le). Qed.

Lemma NoDup_sorted_nat (l : list nat) : NoDup l → NoDup (sorted_nat l).
Proof. unfold sorted_nat. by rewrite merge_sort_Permutation. Qed.

Lemma occurrences_cons (a x : nat) (l : list nat) :
  occurrences a (x :: l) = (if decide (x = a) then 1 else 0) + occurrences a l.
Proof. unfold occurrences. rewrite filter_cons. by destruct (decide (x = a)). Qed.

Lemma occurrences_pos (a : nat) (l : list nat) : 0 < occurrences a l ↔ a ∈ l.
Proof.
  induction l as [|x l IH].
  - split; [unfold occurrences; simpl; lia | intros H; by apply elem_of_nil in H].
  - rewrite occurrences_cons, elem_of_cons. destruct (decide (x = a)) as [->|Hne].
    + split; [by left | lia].
    + simpl. rewrite IH. split; [by right | intros [->|?]; done].
Qed.

Lemma occurrences_NoDup (a : nat) (l : list nat) :
  NoDup l → occurrences a l = if decide (a ∈ l) then 1 else 0.
Proof.
  induction 1 as [|x l Hnin Hnd IH].
  - by rewrite decide_False by apply not_elem_of_nil.
  - rewrite occurrences_cons, IH. destruct (decide (x = a)) as [->|Hne].
    + rewrite decide_False by done. rewrite decide_True by left. done.
    + destruct (decide (a ∈ l)) as [Hin|Hnin'].
      * rewrite decide_True by (by right). done.
      * rewrite decide_False; [done|]. rewrite not_elem_of_cons. split; [congruence|done].
Qed.

Lemma counter_get_incr {Key} `{EqDecision Key} (k a : Key) (c : dict Key nat) :
  counter_get a (counter_incr k c) = counter_get a c + (if decide (k = a) then 1 else 0).
Proof.
  unfold counter_incr, counter_get. rewrite dget_dset.
  destruct (decide (k = a)) as [->|Hne]; simpl; lia.
Qed.

Lemma counter_get_incr_all (attrs : list nat) (a : nat) (c : dict nat nat) :
  counter_get a (incr_all attrs c) = counter_get a c + occurrences a attrs.
Proof.
  unfold incr_all. revert c. induction attrs as [|x attrs IH]; intros c; simpl.
  - unfold occurrences. simpl. lia.
  - rewrite IH, counter_get_incr, occurrences_cons. lia.
Qed.

Lemma NoDup_dkeys_incr_all (attrs : list nat) (c : dict nat nat) :
  NoDup (dkeys c) → NoDup (dkeys (incr_all attrs c)).
Proof.
  unfold incr_all. revert c. induction attrs as [|x attrs IH]; intros c Hnd; simpl; [done|].
  apply IH. by apply NoDup_dkeys_dset.
Qed.

(** ** The vote synthesizer *)

Lemma elem_of_vote_set_from (c : dict nat nat) (n a : nat) (s0 : gset nat) :
  a ∈ foldl (λ (s : gset nat) '(attr, count), if decide (n ≤ count) then s ∪ {[attr]} else s)
        s0 c
  ↔ a ∈ s0 ∨ ∃ count, (a, count) ∈ c ∧ n ≤ count.
Proof.
  revert s0. induction c as [|[attr count] c IH]; intros s0; simpl.
  - split; [by left | intros [?|(count & H & _)]; [done | by apply elem_of_nil in H]].
  - rewrite IH. split.
    + intros [Hin|(count' & Hin & Hle)].
      * destruct (decide (n ≤ count)); [|by left].
        apply elem_of_union in Hin as [?|Hin]; [by left|].
        apply elem_of_singleton in Hin as ->. right. exists count. split; [left|done].
      * right. exists count'. split; [by right|done].
    + intros [Hin|(count' & Hin & Hle)].
      * left. destruct (decide (n ≤ count)); [|done]. apply elem_of_union. by left.
      * apply elem_of_cons in Hin as [[= -> ->]|Hin].
        -- left. rewrite decide_True by done. apply elem_of_union. right.
           by apply elem_of_singleton.
        -- right. by exists count'.
Qed.

(** An attribute is in the vote set of quorum [n] iff its count reaches [n]. *)
Lemma elem_of_vote_set (c : dict nat nat) (n a : nat) :
  NoDup (dkeys c) → 0 < n → a ∈ vote_set c n ↔ n ≤ counter_get a c.
Proof.
  intros Hnd Hn. unfold vote_set. rewrite elem_of_vote_set_from. split.
  - intros [Hin|(count & Hin & Hle)]; [by apply not_elem_of_empty in Hin|].
    unfold counter_get. by rewrite (dget_elem_of_NoDup _ _ _ Hnd Hin).
  - intros Hle. right. unfold counter_get in Hle.
    destruct (dget a c) as [count|] eqn:E; simpl in Hle; [|lia].
    exists count. split; [by apply dget_Some_elem_of|done].
Qed.

Lemma vote_of_gold (nv : Vocabulary.t) (sen : sentence) (a ann : nat) :
  nv !! ann = Some gold → vote_of nv sen a ann = 0.
Proof. unfold vote_of. intros ->. by rewrite decide_True. Qed.

Lemma vote_of_other (nv : Vocabulary.t) (sen : sentence) (a ann : nat) w attrs :
  nv !! ann = Some w → w ≠ gold → dget ann (annot sen) = Some attrs →
  vote_of nv sen a ann = occurrences a attrs.
Proof. unfold vote_of. intros -> Hne ->. by rewrite decide_False. Qed.

Lemma count_votes_from (l : list nat) (nv : Vocabulary.t) (sen : sentence) (c0 c : dict nat nat) :
  rfold (λ ann attr_counter,
           let* w := Vocabulary.get_word ann nv in
           if decide (w = gold) then Ok attr_counter
           else
             let* attrs := dindex KeyError_id ann (annot sen) in
             Ok (incr_all attrs attr_counter)) l c0 = Ok c →
  NoDup (dkeys c0) →
  NoDup (dkeys c)
  ∧ ∀ a, counter_get a c = counter_get a c0 + sum_list (vote_of nv sen a <$> l).
Proof.
  assert (∀ a ann l', sum_list (vote_of nv sen a <$> ann :: l')
            = vote_of nv sen a ann + sum_list (vote_of nv sen a <$> l')) as Hcons by done.
  revert c0. induction l as [|ann l IH]; intros c0 H Hnd; simpl in H.
  - injection H as <-. split; [done|]. intros a. simpl. lia.
  - apply rbind_Ok in H as (c1 & Hbody & Hrest).
    apply rbind_Ok in Hbody as (w & Hw & Hbody).
    unfold Vocabulary.get_word in Hw.
    destruct (nv !! ann) as [w'|] eqn:Hlook; [|done]. injection Hw as ->.
    destruct (decide (w = gold)) as [->|Hne].
    + injection Hbody as <-. destruct (IH _ Hrest Hnd) as [Hnd' Hc].
      split; [done|]. intros a. rewrite Hcons, Hc, (vote_of_gold _ _ _ _ Hlook). lia.
    + apply rbind_Ok in Hbody as (attrs & Hattrs & [= <-]).
      unfold dindex in Hattrs.
      destruct (dget ann (annot sen)) as [attrs'|] eqn:Hget; [|done].
      injection Hattrs as ->.
      destruct (IH _ Hrest (NoDup_dkeys_incr_all _ _ Hnd)) as [Hnd' Hc].
      split; [done|]. intros a.
      rewrite Hcons, Hc, counter_get_incr_all, (vote_of_other _ _ _ _ _ _ Hlook Hne Hget).
      lia.
Qed.

Lemma count_votes_from_Ok (l : list nat) (nv : Vocabulary.t) (sen : sentence) (c0 : dict nat nat) :
  (∀ ann, ann ∈ l → ∃ w, nv !! ann = Some w ∧ (w ≠ gold → is_Some (dget ann (annot sen)))) →
  ∃ c, rfold (λ ann attr_counter,
           let* w := Vocabulary.get_word ann nv in
           if decide (w = gold) then Ok attr_counter
           else
             let* attrs := dindex KeyError_id ann (annot sen) in
             Ok (incr_all attrs attr_counter)) l c0 = Ok c.
Proof.
  revert c0. induction l as [|ann l IH]; intros c0 Hall; simpl; [by eexists|].
  destruct (Hall ann) as (w & Hw & Hentry); [left|].
  unfold Vocabulary.get_word. rewrite Hw. simpl.
  destruct (decide (w = gold)) as [->|Hne]; simpl.
  - apply IH. intros ann' Hin. apply Hall. by right.
  - destruct (Hentry Hne) as [attrs Hattrs]. unfold dindex. rewrite Hattrs. simpl.
    apply IH. intros ann' Hin. apply Hall. by right.
Qed.

Lemma vote_of_prefix (nv nv' : Vocabulary.t) (sen : sentence) (a : nat) :
  nv `prefix_of` nv' →
  vote_of nv' sen a <$> Vocabulary.ids nv = vote_of nv sen a <$> Vocabulary.ids nv.
Proof.
  intros [k ->]. apply list_fmap_ext. intros i ann Hann.
  unfold Vocabulary.ids in Hann. apply lookup_seq in Hann as [-> Hlt]. simpl in *.
  unfold vote_of. by rewrite lookup_app_l.
Qed.

Lemma register_votes_fresh (nv : Vocabulary.t) :
  (∀ w, w ∈ min_names → w ∉ nv) →
  register_votes nv
  = Ok ([(1, length nv); (2, length nv + 1); (3, length nv + 2)], nv ++ min_names).
Proof.
  intros Hfresh. unfold register_votes, min_names in *. simpl.
  assert (min_name 1 = "min1"%string) as -> by reflexivity.
  assert (min_name 2 = "min2"%string) as -> by reflexivity.
  assert (min_name 3 = "min3"%string) as -> by reflexivity.
  assert (Vocabulary.find_word "min1" nv = None) as H1.
  { apply find_word_None, Hfresh. left. }
  assert (Vocabulary.find_word "min2" (nv ++ ["min1"%string]) = None) as H2.
  { apply find_word_None. rewrite elem_of_app. intros [Hin|Hin].
    - revert Hin. apply Hfresh. right. left.
    - by apply list_elem_of_singleton in Hin. }
  assert (Vocabulary.find_word "min3" ((nv ++ ["min1"%string]) ++ ["min2"%string]) = None) as H3.
  { apply find_word_None. rewrite !elem_of_app. intros [[Hin|Hin]|Hin].
    - revert Hin. apply Hfresh. right. right. left.
    - by apply list_elem_of_singleton in Hin.
    - by apply list_elem_of_singleton in Hin. }
  unfold Vocabulary.get_id. rewrite H1. simpl. rewrite H2. simpl. rewrite H3. simpl.
  rewrite !length_app. simpl. rewrite <-!app_assoc. simpl.
  by replace (length nv + 1 + 1) with (length nv + 2) by lia.
Qed.

(** The three entries written for one sentence. *)
Lemma write_votes_added (nv nv' : Vocabulary.t) (sen : sentence) (c : dict nat nat) :
  nv `prefix_of` nv' →
  count_votes (Vocabulary.ids nv) nv' sen = Ok c →
  votes_added nv sen
    (write_votes [(1, length nv); (2, length nv + 1); (3, length nv + 2)] c sen).
Proof.
  intros Hpre Hc. unfold count_votes in Hc.
  apply count_votes_from in Hc as [Hnd Hc]; [|apply NoDup_nil_2].
  assert (∀ a, counter_get a c = votes nv sen a) as Hvotes.
  { intros a. rewrite Hc. unfold votes. by rewrite vote_of_prefix. }
  unfold votes_added, write_votes. simpl.
  split_and!; [done..| |].
  - intros ann Hann. rewrite !not_elem_of_cons in Hann.
    destruct Hann as (H1 & H2 & H3 & _). by rewrite !dget_dset_ne.
  - assert (∀ k a, 0 < k →
              a ∈ sorted_nat (elements (vote_set c k)) ↔ k ≤ votes nv sen a) as Hin.
    { intros k a Hk. rewrite elem_of_sorted_nat, elem_of_elements, <-Hvotes.
      by apply elem_of_vote_set. }
    intros k Hk. rewrite !elem_of_cons in Hk.
    destruct Hk as [->|[->|[->|Hk]]]; [| | |by apply elem_of_nil in Hk].
    + exists (sorted_nat (elements (vote_set c 1))).
      replace (length nv + 1 - 1) with (length nv) by lia.
      rewrite !dget_dset_ne by lia. rewrite dget_dset_eq.
      split_and!; [done|apply Sorted_sorted_nat| |intros a; apply Hin; lia].
      apply NoDup_sorted_nat, NoDup_elements.
    + exists (sorted_nat (elements (vote_set c 2))).
      replace (length nv + 2 - 1) with (length nv + 1) by lia.
      rewrite dget_dset_ne by lia. rewrite dget_dset_eq.
      split_and!; [done|apply Sorted_sorted_nat| |intros a; apply Hin; lia].
      apply NoDup_sorted_nat, NoDup_elements.
    + exists (sorted_nat (elements (vote_set c 3))).
      replace (length nv + 3 - 1) with (length nv + 2) by lia.
      rewrite dget_dset_eq.
      split_and!; [done|apply Sorted_sorted_nat| |intros a; apply Hin; lia].
      apply NoDup_sorted_nat, NoDup_elements.
Qed.

Lemma add_votes_entries_Ok (nv nv' : Vocabulary.t) (vote_anns : list (nat * nat))
    (d : dict string sentence) :
  nv `prefix_of` nv' → annotated_by_all nv d →
  ∃ d', rmap (λ '(sid, sen),
                let* attr_counter := count_votes (Vocabulary.ids nv) nv' sen in
                Ok (sid, write_votes vote_anns attr_counter sen)) d = Ok d'.
Proof.
  unfold annotated_by_all.
  intros Hpre. induction d as [|[sid sen] d IH]; intros Hall; simpl; [by eexists|].
  destruct (count_votes_from_Ok (Vocabulary.ids nv) nv' sen []) as [c Hc].
  { intros ann Hann. unfold Vocabulary.ids in Hann. apply elem_of_seq in Hann as [_ Hlt].
    simpl in Hlt. apply lookup_lt_is_Some_2 in Hlt as [w Hw]. exists w.
    split; [by eapply prefix_lookup_Some|].
    intros Hne. apply (Hall sid sen ann w); [left|done..]. }
  unfold count_votes at 1. rewrite Hc. simpl.
  destruct IH as [d' ->]; [|simpl; by eexists].
  intros sid' sen' ann w Hin. apply (Hall sid' sen' ann w). by right.
Qed.

Lemma add_votes_fresh (d : dict string sentence) (av nv : Vocabulary.t) :
  (∀ w, w ∈ min_names → w ∉ nv) →
  add_votes d av nv
  = let* d' := rmap (λ '(sid, sen),
                let* attr_counter :=
                  count_votes (Vocabulary.ids nv) (nv ++ min_names) sen in
                Ok (sid, write_votes
                           [(1, length nv); (2, length nv + 1); (3, length nv + 2)]
                           attr_counter sen)) d in
    Ok (d', nv ++ min_names).
Proof.
  intros Hfresh. unfold add_votes. by rewrite (register_votes_fresh _ Hfresh).
Qed.

(** C10 (as amended).  When no annotator is called min1, min2 or min3,
    add_votes registers them after the known annotators and changes each
    record only by the three new entries, whose counts range over the
    annotators known before; and it completes when every annotator other
    than gold has an entry on every sentence. *)
Theorem add_votes_frame (d : dict string sentence) (av nv : Vocabulary.t) :
  Forall (λ w, w ∉ nv) min_names →
  (∀ d' nv',
     add_votes d av nv = Ok (d', nv') →
     nv' = nv ++ min_names
     ∧ Forall2 (λ e e', e'.1 = e.1 ∧ votes_added nv e.2 e'.2) d d')
  ∧ (annotated_by_all nv d → ∃ d' nv', add_votes d av nv = Ok (d', nv')).
Proof.
  intros Hfresh. rewrite Forall_forall in Hfresh.
  rewrite (add_votes_fresh _ _ _ Hfresh).
  split.
  - intros d' nv' H. apply rbind_Ok in H as (d1 & Hmap & [= <- <-]).
    split; [done|]. apply rmap_Ok in Hmap.
    eapply Forall2_impl; [done|]. intros [sid sen] [sid' sen'] He. simpl in *.
    apply rbind_Ok in He as (c & Hc & [= <- <-]).
    split; [done|]. eapply write_votes_added; [|done]. by apply prefix_app_r.
  - intros Hall.
    destruct (add_votes_entries_Ok nv (nv ++ min_names)
                [(1, length nv); (2, length nv + 1); (3, length nv + 2)] d)
      as [d' Hd']; [by apply prefix_app_r|done|].
    exists d', (nv ++ min_names). by rewrite Hd'.
Qed.

(** ** The gold evaluator *)

Ltac clear_parameters :=
  try clear set_iter_ok; try clear set_iter_id_ok;
  try clear kzero; try clear kone; try clear kadd; try clear kdiv;
  try clear cohen_kappa_score; try clear K; try clear set_iter; try clear set_iter_id.

Ltac solve_indicator :=
  clear_parameters;
  repeat case_decide; destruct_and?; simplify_eq/=; try lia; try done;
  try (exfalso; intuition congruence).

Lemma sum_list_fmap_cons {A} (h : A → nat) (x : A) (l : list A) :
  sum_list (h <$> x :: l) = h x + sum_list (h <$> l).
Proof. done. Qed.

Lemma sum_list_fmap_ext_in {A} (h1 h2 : A → nat) (l : list A) :
  (∀ x, x ∈ l → h1 x = h2 x) → sum_list (h1 <$> l) = sum_list (h2 <$> l).
Proof.
  induction l as [|x l IH]; intros Hext; [done|].
  rewrite !sum_list_fmap_cons, (Hext x) by left.
  rewrite IH; [done|]. intros y Hy. apply Hext. by right.
Qed.

Lemma sum_list_off_seq (h : nat → nat) (n start len : nat) :
  (∀ x, x ≠ n → h x = 0) →
  sum_list (h <$> seq start len) = if decide (start ≤ n < start + len) then h n else 0.
Proof.
  intros Hoff. revert start. induction len as [|len IH]; intros start.
  - rewrite decide_False by lia. done.
  - cbn [seq]. rewrite sum_list_fmap_cons, IH. destruct (decide (start = n)) as [->|Hne].
    + rewrite decide_False by lia. rewrite decide_True by lia. lia.
    + rewrite (Hoff start Hne). solve_indicator.
Qed.

Lemma sum_list_indicator (h : nat → nat) (a v : nat) (l : list nat) :
  (∀ x, h x = if decide (x = a) then v else 0) →
  sum_list (h <$> l) = occurrences a l * v.
Proof.
  intros Hh. induction l as [|x l IH]; [done|].
  rewrite sum_list_fmap_cons, IH, Hh, occurrences_cons. solve_indicator.
Qed.

Lemma dget_fmap_const {Key Val} `{EqDecision Key} (v : Val) (l : list Key) (k : Key) :
  dget k ((λ x, (x, v)) <$> l) = if decide (k ∈ l) then Some v else None.
Proof.
  induction l as [|x l IH].
  - destruct (decide (k ∈ [])) as [Hin|_]; [by apply elem_of_nil in Hin|done].
  - rewrite fmap_cons. cbn [dget]. destruct (decide (x = k)) as [->|Hne].
    + destruct (decide (k ∈ k :: l)) as [_|Hnin]; [done|]. exfalso. apply Hnin. left.
    + rewrite IH. destruct (decide (k ∈ l)) as [Hin|Hnin].
      * destruct (decide (k ∈ x :: l)) as [_|Hnin]; [done|]. exfalso. apply Hnin. by right.
      * destruct (decide (k ∈ x :: l)) as [Hin|_]; [|done].
        apply elem_of_cons in Hin as [->|Hin]; done.
Qed.

Section gold_counts.
Variable nv : Vocabulary.t.
Variable g : nat.

Lemma dget_default_row (n : nat) :
  dget n (default_row nv g)
  = if decide (n < length nv ∧ n ≠ g) then Some Counter_empty else None.
Proof.
  unfold default_row. rewrite dget_fmap_const. unfold Vocabulary.ids.
  destruct (decide (n < length nv ∧ n ≠ g)) as [[Hlt Hne]|Hn].
  - rewrite decide_True; [done|]. apply list_elem_of_filter. split; [done|].
    apply elem_of_seq. lia.
  - rewrite decide_False; [done|]. intros Hin. apply list_elem_of_filter in Hin as [Hne Hin].
    apply elem_of_seq in Hin. apply Hn. split; [lia|done].
Qed.

(** One increment: it succeeds, and adds one to one count. *)
Lemma stats_incr_spec (attr ann : nat) (fig : figure) (st : gold_stats) :
  rows_ok nv g st → ann < length nv → ann ≠ g →
  ∃ st', stats_incr nv g attr ann fig st = Ok st' ∧ rows_ok nv g st'
    ∧ ∀ a n f, stats_get st' a n f
               = stats_get st a n f + (if decide (a = attr ∧ n = ann ∧ f = fig) then 1 else 0).
Proof.
  intros Hok Hann Hne. unfold stats_incr, dindex.
  destruct (dget attr st) as [row0|] eqn:Hrow.
  - rewrite Hrow. simpl. destruct (Hok _ _ Hrow ann Hann Hne) as [c Hc].
    rewrite Hc. simpl. eexists. split; [done|]. split.
    + intros a row Ha n Hn Hng. rewrite dget_dset in Ha.
      destruct (decide (attr = a)) as [->|Hna]; [|by eapply Hok].
      injection Ha as <-. rewrite dget_dset.
      destruct (decide (ann = n)); [done|]. by eapply Hok.
    + intros a n f. unfold stats_get. rewrite dget_dset.
      destruct (decide (attr = a)) as [<-|Hna]; [|solve_indicator].
      rewrite Hrow, dget_dset. destruct (decide (ann = n)) as [<-|Hnn]; [|solve_indicator].
      rewrite Hc, counter_get_incr. solve_indicator.
  - rewrite dget_dset_eq. simpl. rewrite dget_default_row.
    rewrite decide_True by done. simpl. rewrite dset_dset. eexists. split; [done|]. split.
    + intros a row Ha n Hn Hng. rewrite dget_dset in Ha.
      destruct (decide (attr = a)) as [->|Hna]; [|by eapply Hok].
      injection Ha as <-. rewrite dget_dset.
      destruct (decide (ann = n)); [done|]. rewrite dget_default_row.
      by rewrite decide_True.
    + intros a n f. unfold stats_get. rewrite dget_dset.
      destruct (decide (attr = a)) as [<-|Hna]; [|solve_indicator].
      rewrite Hrow, dget_dset. destruct (decide (ann = n)) as [<-|Hnn].
      * rewrite counter_get_incr. unfold counter_get, Counter_empty. simpl. solve_indicator.
      * rewrite dget_default_row. unfold counter_get, Counter_empty.
        solve_indicator.
Qed.

(** A loop whose every step succeeds and adds to the counts succeeds and
    adds the sum. *)
Lemma rfold_adds {A} (body : A → gold_stats → result gold_stats)
    (δ : A → nat → nat → figure → nat) (l : list A) :
  (∀ x st, x ∈ l → rows_ok nv g st →
     ∃ st', body x st = Ok st' ∧ rows_ok nv g st'
       ∧ ∀ a n f, stats_get st' a n f = stats_get st a n f + δ x a n f) →
  ∀ st, rows_ok nv g st →
    ∃ st', rfold body l st = Ok st' ∧ rows_ok nv g st'
      ∧ ∀ a n f, stats_get st' a n f
                 = stats_get st a n f + sum_list ((λ x, δ x a n f) <$> l).
Proof.
  induction l as [|x l IH]; intros Hstep st Hok; cbn [rfold].
  - exists st. split_and!; [done..|]. intros a n f. simpl. lia.
  - destruct (Hstep x st) as (st1 & -> & Hok1 & H1); [left|done|]. cbn [rbind].
    destruct (IH (λ y st Hy, Hstep y st (list_elem_of_further _ _ _ Hy)) st1 Hok1)
      as (st2 & -> & Hok2 & H2).
    exists st2. split_and!; [done..|]. intros a n f.
    rewrite sum_list_fmap_cons, H2, H1. lia.
Qed.

Section one_sentence.
Variable sen : sentence.
Variable gl : list nat.
Hypothesis Hgold : dget g (annot sen) = Some gl.
Hypothesis Hall : ∀ ann, ann < length nv → is_Some (dget ann (annot sen)).

Lemma annot_of_Some (ann : nat) (attrs : list nat) :
  dget ann (annot sen) = Some attrs → annot_of sen ann = attrs.
Proof. unfold annot_of. by intros ->. Qed.

(** Lines 63-69 for one attribute of gold. *)
Lemma tp_fn_inner (attr : nat) (st : gold_stats) :
  rows_ok nv g st →
  ∃ st', rfold (λ ann st,
                  if decide (ann = g) then Ok st
                  else
                    let* attrs := dindex KeyError_id ann (annot sen) in
                    if decide (attr ∈ attrs)
                    then stats_incr nv g attr ann TP st
                    else stats_incr nv g attr ann FN st)
               (Vocabulary.ids nv) st = Ok st'
    ∧ rows_ok nv g st'
    ∧ ∀ a n f, stats_get st' a n f
               = stats_get st a n f + (if decide (attr = a) then tp_fn_unit nv g sen a n f else 0).
Proof.
  intros Hok.
  edestruct (rfold_adds
               (λ ann st,
                  if decide (ann = g) then Ok st
                  else
                    let* attrs := dindex KeyError_id ann (annot sen) in
                    if decide (attr ∈ attrs)
                    then stats_incr nv g attr ann TP st
                    else stats_incr nv g attr ann FN st)
               (λ ann a n f,
                  if decide (ann = n)
                  then (if decide (attr = a) then tp_fn_unit nv g sen a n f else 0)
                  else 0)
               (Vocabulary.ids nv)) as (st' & Hrun & Hok' & Hget); [|exact Hok|].
  - intros ann st0 Hann Hok0. apply elem_of_seq in Hann as [_ Hlt]. simpl in Hlt.
    destruct (decide (ann = g)) as [->|Hne].
    + exists st0. split_and!; [done..|]. intros a n f. unfold tp_fn_unit. solve_indicator.
    + destruct (Hall ann Hlt) as [attrs Hattrs]. unfold dindex. rewrite Hattrs. simpl.
      destruct (decide (attr ∈ attrs)) as [Hin|Hnin].
      * destruct (stats_incr_spec attr ann TP st0 Hok0 Hlt Hne) as (st1 & -> & Hok1 & H1).
        exists st1. split_and!; [done..|]. intros a n f. rewrite H1. unfold tp_fn_unit.
        destruct (decide (ann = n)) as [<-|?]; [|solve_indicator].
        rewrite (annot_of_Some _ _ Hattrs). destruct f; solve_indicator.
      * destruct (stats_incr_spec attr ann FN st0 Hok0 Hlt Hne) as (st1 & -> & Hok1 & H1).
        exists st1. split_and!; [done..|]. intros a n f. rewrite H1. unfold tp_fn_unit.
        destruct (decide (ann = n)) as [<-|?]; [|solve_indicator].
        rewrite (annot_of_Some _ _ Hattrs). destruct f; solve_indicator.
  - exists st'. split_and!; [done..|]. intros a n f. rewrite Hget.
    unfold Vocabulary.ids. rewrite (sum_list_off_seq _ n).
    + unfold tp_fn_unit. solve_indicator.
    + intros x Hx. by rewrite decide_False.
Qed.

(** Lines 62-69: the loop over the attributes of gold. *)
Lemma count_tp_fn_spec (st : gold_stats) :
  rows_ok nv g st →
  ∃ st', count_tp_fn nv g sen st = Ok st' ∧ rows_ok nv g st'
    ∧ ∀ a n f, stats_get st' a n f
               = stats_get st a n f + occurrences a gl * tp_fn_unit nv g sen a n f.
Proof.
  intros Hok. unfold count_tp_fn, dindex. rewrite Hgold. cbn [rbind].
  edestruct (rfold_adds
               (λ attr st,
                  rfold (λ ann st,
                           if decide (ann = g) then Ok st
                           else
                             let* attrs := dindex KeyError_id ann (annot sen) in
                             if decide (attr ∈ attrs)
                             then stats_incr nv g attr ann TP st
                             else stats_incr nv g attr ann FN st)
                        (Vocabulary.ids nv) st)
               (λ attr a n f, if decide (attr = a) then tp_fn_unit nv g sen a n f else 0)
               gl) as (st' & Hrun & Hok' & Hget); [|exact Hok|].
  - intros attr st0 _ Hok0. apply tp_fn_inner, Hok0.
  - exists st'. split_and!; [done..|]. intros a n f. rewrite Hget.
    by rewrite (sum_list_indicator _ a (tp_fn_unit nv g sen a n f)).
Qed.

(** Lines 77-79 for one annotator. *)
Lemma fp_inner (ann : nat) (l : list nat) (st : gold_stats) :
  rows_ok nv g st → ann < length nv → ann ≠ g →
  ∃ st', rfold (λ attr st,
                  let* gold_attrs := dindex KeyError_id g (annot sen) in
                  if decide (attr ∉ gold_attrs)
                  then stats_incr nv g attr ann FP st
                  else Ok st) l st = Ok st'
    ∧ rows_ok nv g st'
    ∧ ∀ a n f, stats_get st' a n f
               = stats_get st a n f
                 + occurrences a l * (if decide (n = ann ∧ f = FP ∧ a ∉ gl) then 1 else 0).
Proof.
  intros Hok Hlt Hne.
  edestruct (rfold_adds
               (λ attr st,
                  let* gold_attrs := dindex KeyError_id g (annot sen) in
                  if decide (attr ∉ gold_attrs)
                  then stats_incr nv g attr ann FP st
                  else Ok st)
               (λ attr a n f,
                  if decide (attr = a)
                  then (if decide (n = ann ∧ f = FP ∧ a ∉ gl) then 1 else 0) else 0)
               l) as (st' & Hrun & Hok' & Hget); [|exact Hok|].
  - intros attr st0 _ Hok0. unfold dindex. rewrite Hgold. cbn [rbind].
    destruct (decide (attr ∉ gl)) as [Hnin|Hin].
    + destruct (stats_incr_spec attr ann FP st0 Hok0 Hlt Hne) as (st1 & -> & Hok1 & H1).
      exists st1. split_and!; [done..|]. intros a n f. rewrite H1. solve_indicator.
    + exists st0. split_and!; [done..|]. intros a n f. solve_indicator.
  - exists st'. split_and!; [done..|]. intros a n f. rewrite Hget.
    by rewrite (sum_list_indicator _ a (if decide (n = ann ∧ f = FP ∧ a ∉ gl) then 1 else 0)).
Qed.

(** Lines 72-79: the loop over the annotators. *)
Lemma count_fp_spec (sid : string) (st : gold_stats) :
  rows_ok nv g st →
  ∃ st', count_fp nv g sid sen st = Ok st' ∧ rows_ok nv g st'
    ∧ ∀ a n f, stats_get st' a n f = stats_get st a n f + fp_unit nv g sen gl a n f.
Proof.
  intros Hok. unfold count_fp.
  edestruct (rfold_adds
               (λ ann st,
                  if decide (ann = g) then Ok st
                  else
                    match dget ann (annot sen) with
                    | None => Raise (NoAnnotation ann sid)
                    | Some attrs =>
                        rfold (λ attr st,
                                 let* gold_attrs := dindex KeyError_id g (annot sen) in
                                 if decide (attr ∉ gold_attrs)
                                 then stats_incr nv g attr ann FP st
                                 else Ok st)
                              attrs st
                    end)
               (λ ann a n f, if decide (ann = n) then fp_unit nv g sen gl a n f else 0)
               (Vocabulary.ids nv)) as (st' & Hrun & Hok' & Hget); [|exact Hok|].
  - intros ann st0 Hann Hok0. apply elem_of_seq in Hann as [_ Hlt]. simpl in Hlt.
    destruct (decide (ann = g)) as [->|Hne].
    + exists st0. split_and!; [done..|]. intros a n f. unfold fp_unit. solve_indicator.
    + destruct (Hall ann Hlt) as [attrs Hattrs]. rewrite Hattrs.
      destruct (fp_inner ann attrs st0 Hok0 Hlt Hne) as (st1 & -> & Hok1 & H1).
      exists st1. split_and!; [done..|]. intros a n f. rewrite H1. unfold fp_unit.
      destruct (decide (ann = n)) as [<-|?]; [|solve_indicator].
      rewrite (annot_of_Some _ _ Hattrs). solve_indicator.
  - exists st'. split_and!; [done..|]. intros a n f. rewrite Hget.
    unfold Vocabulary.ids. rewrite (sum_list_off_seq _ n).
    + unfold fp_unit. solve_indicator.
    + intros x Hx. by rewrite decide_False.
Qed.

(** The body of the loop of lines 60-79 for one sentence. *)
Lemma count_sentence_spec (sid : string) (st : gold_stats) :
  rows_ok nv g st →
  ∃ st', (let* st1 := count_tp_fn nv g sen st in count_fp nv g sid sen st1) = Ok st'
    ∧ rows_ok nv g st'
    ∧ ∀ a n f, stats_get st' a n f
               = stats_get st a n f
                 + (if decide (n < length nv ∧ n ≠ g) then occurrence_count g sen a n f else 0).
Proof.
  intros Hok.
  destruct (count_tp_fn_spec st Hok) as (st1 & -> & Hok1 & H1). cbn [rbind].
  destruct (count_fp_spec sid st1 Hok1) as (st2 & -> & Hok2 & H2).
  exists st2. split_and!; [done..|]. intros a n f. rewrite H2, H1.
  unfold tp_fn_unit, fp_unit, occurrence_count. rewrite Hgold.
  destruct (decide (n < length nv ∧ n ≠ g)) as [[Hlt Hne]|Hn].
  - destruct (Hall n Hlt) as [attrs Hattrs]. rewrite Hattrs, (annot_of_Some _ _ Hattrs).
    destruct f; solve_indicator.
  - destruct f; solve_indicator.
Qed.

End one_sentence.

(** The loop of lines 60-79 over all sentences. *)
Lemma count_gold_spec (d : dict string sentence) :
  fully_annotated nv d → g < length nv →
  ∃ st, count_gold d nv g = Ok st
    ∧ ∀ attr ann fig, ann < length nv → ann ≠ g →
        stats_get st attr ann fig
        = sum_list ((λ e : string * sentence, occurrence_count g e.2 attr ann fig) <$> d).
Proof.
  intros Hfull Hg. unfold count_gold.
  assert (rows_ok nv g []) as Hnil by (intros a row Ha; done).
  edestruct (rfold_adds
               (λ '(sid, sen) st,
                  let* st1 := count_tp_fn nv g sen st in count_fp nv g sid sen st1)
               (λ (e : string * sentence) a n f,
                  if decide (n < length nv ∧ n ≠ g) then occurrence_count g e.2 a n f else 0)
               d) as (st' & Hrun & _ & Hget); [|exact Hnil|].
  - intros [sid sen] st0 Hin Hok0.
    assert (∀ ann, ann < length nv → is_Some (dget ann (annot sen))) as Hall.
    { intros ann Hlt. by eapply Hfull. }
    destruct (Hall g Hg) as [gl Hgl].
    apply (count_sentence_spec sen gl Hgl Hall sid st0 Hok0).
  - exists st'. split; [done|]. intros attr ann fig Hlt Hne. rewrite Hget.
    unfold stats_get at 1. simpl. apply sum_list_fmap_ext_in.
    intros e _. rewrite decide_True; done.
Qed.

End gold_counts.

Lemma load_gold_2s :
  load_data [gold_2s; annotator1_2s; annotator2_2s]
  = ({| data := [("s1"%string,
                  {| sen_id := "s1"; sen_text := Some "text1"%string;
                     annot := [(0, [0]); (1, [0]); (2, [1])];
                     attr_stats := [(0, 1); (1, 1)]; full_agreement := None |});
                 ("s2"%string,
                  {| sen_id := "s2"; sen_text := Some "text2"%string;
                     annot := [(0, [0]); (1, [0]); (2, [1])];
                     attr_stats := [(0, 1); (1, 1)]; full_agreement := None |})];
        attr_vocab := ["A"; "B"]%string;
        annotator_vocab := ["gold"; "annotator1"; "annotator2"]%string |}, Ok ()).
Proof using set_iter_ok. run_with set_iter_A. reflexivity. Qed.

(** Gold with both spellings of one label, one annotator with the label,
    one with another label. *)
Lemma set_iter_Max : set_iter ["DachneigungMax"%string] = ["DachneigungMax"%string].
Proof using set_iter_ok. by apply set_order_singleton. Qed.

Lemma load_gold_both :
  load_data [gold_both; ann1_Max; ann2_A]
  = ({| data := [("s1"%string,
                  {| sen_id := "s1"; sen_text := Some "text"%string;
                     annot := [(0, [0; 0]); (1, [0]); (2, [1])];
                     attr_stats := [(0, 1); (1, 1)];
                     full_agreement := None |})];
        attr_vocab := ["DachneigungMax"; "A"]%string;
        annotator_vocab := ["gold"; "ann1"; "ann2"]%string |}, Ok ()).
Proof using set_iter_ok.
  destruct set_iter_both as [E|E];
    repeat (vm_compute; progress rewrite ?E, ?set_iter_A, ?set_iter_Max);
    vm_compute; reflexivity.
Qed.

(** On lists without duplicates the loops count as the specification
    words it. *)
Lemma occurrence_count_NoDup (g : nat) (sen : sentence) (attr ann : nat) (fig : figure) :
  (∀ n l, dget n (annot sen) = Some l → NoDup l) →
  occurrence_count g sen attr ann fig = sentence_count g sen attr ann fig.
Proof.
  intros Hnd. unfold occurrence_count, sentence_count.
  destruct (dget g (annot sen)) as [gl|] eqn:Hg; [|done].
  destruct (dget ann (annot sen)) as [l|] eqn:Hl; [|done].
  rewrite (occurrences_NoDup attr gl) by by eapply Hnd.
  rewrite (occurrences_NoDup attr l) by by eapply Hnd.
  clear_parameters. destruct fig; repeat case_decide; try done; exfalso; tauto.
Qed.

(** C2 (fails on the code).  The loops of the gold evaluator run over the
    stored lists.  With every annotator annotating every sentence they
    complete, and when no stored list has a duplicate the counts are those
    of the specification: per sentence, an attribute of gold is one true positive
    for an annotator who has it too and one false negative for one who has
    not, and an attribute of the annotator that gold has not is one false
    positive; on the two sentences where gold picks A, annotator1 A and
    annotator2 B, annotator1 has only true positives for A and annotator2
    false negatives for A and false positives for B.  But the loader stores
    [0, 0] for a gold row with both spellings of one label (C5), and then
    the one sentence gives annotator ann1 two true positives and ann2 two
    false negatives for the one attribute, where the specification counts
    one of each. *)
Theorem gold_evaluator_counts :
  (∀ (d : dict string sentence) (nv : Vocabulary.t) (g : nat),
     fully_annotated nv d → g < length nv →
     (∀ sid sen ann attrs, (sid, sen) ∈ d → dget ann (annot sen) = Some attrs →
        NoDup attrs) →
     ∃ st, count_gold d nv g = Ok st
       ∧ ∀ attr ann fig, ann < length nv → ann ≠ g →
           stats_get st attr ann fig
           = sum_list ((λ e : string * sentence, sentence_count g e.2 attr ann fig) <$> d))
  ∧ (∃ st ranked blocks,
       load_data [gold_2s; annotator1_2s; annotator2_2s] = (st, Ok ())
       ∧ attr_vocab st = ["A"; "B"]%string
       ∧ annotator_vocab st = ["gold"; "annotator1"; "annotator2"]%string
       ∧ eval_against_gold (data st) (attr_vocab st) (annotator_vocab st)
         = Ok (ranked, blocks)
       ∧ (stats_get ranked 0 1 TP = 2 ∧ stats_get ranked 0 1 FN = 0
          ∧ stats_get ranked 0 1 FP = 0 ∧ stats_get ranked 1 1 FP = 0)
       ∧ (stats_get ranked 0 2 TP = 0 ∧ stats_get ranked 0 2 FN = 2
          ∧ stats_get ranked 1 2 FP = 2))
  ∧ ∃ st ranked blocks,
      load_data [gold_both; ann1_Max; ann2_A] = (st, Ok ())
      ∧ length (data st) = 1
      ∧ attr_vocab st = ["DachneigungMax"; "A"]%string
      ∧ annotator_vocab st = ["gold"; "ann1"; "ann2"]%string
      ∧ eval_against_gold (data st) (attr_vocab st) (annotator_vocab st)
        = Ok (ranked, blocks)
      ∧ (stats_get ranked 0 1 TP = 2
         ∧ sum_list ((λ e : string * sentence, sentence_count 0 e.2 0 1 TP) <$> data st) = 1)
      ∧ (stats_get ranked 0 2 FN = 2
         ∧ sum_list ((λ e : string * sentence, sentence_count 0 e.2 0 2 FN) <$> data st) = 1).
Proof using set_iter_ok.
  split_and!.
  - intros d nv g Hfull Hg Hnd.
    destruct (count_gold_spec nv g d Hfull Hg) as (st & Hst & Hget).
    exists st. split; [done|]. intros attr ann fig Hann Hne. rewrite (Hget _ _ _ Hann Hne).
    apply sum_list_fmap_ext_in. intros [sid sen] Hin. apply occurrence_count_NoDup.
    intros n l Hl. by eapply Hnd.
  - eexists _, _, _. rewrite load_gold_2s. split_and!; reflexivity.
  - eexists _, _, _. rewrite load_gold_both. split_and!; reflexivity.
Qed.

(** ** The agreement engine *)

Lemma tget_Some (t : tensor) (a n j x : nat) :
  tget t a n j = Some x ↔ ∃ m vec, t !! a = Some m ∧ m !! n = Some vec ∧ vec !! j = Some x.
Proof.
  unfold tget. destruct (t !! a) as [m|] eqn:Hm; simpl.
  - destruct (m !! n) as [vec|] eqn:Hvec; simpl.
    + split; [intros H; by exists m, vec|].
      intros (m' & vec' & [= <-] & Hvec' & Hx). congruence.
    + split; [done|]. intros (m' & vec' & [= <-] & Hvec' & _). congruence.
  - split; [done|]. by intros (? & ? & ? & _).
Qed.

Lemma tensor_shape_zeros (n_attr n_ann n_sen : nat) :
  tensor_shape n_attr n_ann n_sen (tensor_zeros n_attr n_ann n_sen).
Proof.
  unfold tensor_shape, tensor_zeros. split; [apply length_replicate|].
  intros a m Hm. apply lookup_replicate in Hm as [-> _].
  split; [apply length_replicate|].
  intros n vec Hvec. apply lookup_replicate in Hvec as [-> _]. apply length_replicate.
Qed.

Lemma tget_zeros (n_attr n_ann n_sen a n j : nat) :
  a < n_attr → n < n_ann → j < n_sen →
  tget (tensor_zeros n_attr n_ann n_sen) a n j = Some 0.
Proof.
  intros Ha Hn Hj. apply tget_Some. eexists _, _. unfold tensor_zeros.
  split_and!; by apply lookup_replicate_2.
Qed.

(** One assignment [ratings[attr][ann][i] = 1]. *)
Lemma tensor_set_spec (attr ann i : nat) (t t' : tensor) (n_attr n_ann n_sen : nat) :
  tensor_set attr ann i t = Ok t' → tensor_shape n_attr n_ann n_sen t →
  tensor_shape n_attr n_ann n_sen t'
  ∧ ∀ a n j, tget t' a n j
             = if decide (a = attr ∧ n = ann ∧ j = i) then Some 1 else tget t a n j.
Proof.
  unfold tensor_set. intros H [Hlen Hshape].
  destruct (t !! attr) as [m|] eqn:Hm; [|done].
  destruct (m !! ann) as [vec|] eqn:Hvec; [|done].
  destruct (decide (i < length vec)) as [Hi|]; [|done]. injection H as <-.
  destruct (Hshape _ _ Hm) as [Hlenm Hshapem].
  assert (attr < length t) as Hattr by (by eapply lookup_lt_Some).
  assert (ann < length m) as Hann by (by eapply lookup_lt_Some).
  split.
  - split; [by rewrite length_insert|].
    intros a m' Hm'. destruct (decide (a = attr)) as [->|Hne].
    + rewrite list_lookup_insert_eq in Hm' by done. injection Hm' as <-.
      split; [by rewrite length_insert|].
      intros n vec' Hvec'. destruct (decide (n = ann)) as [->|Hne'].
      * rewrite list_lookup_insert_eq in Hvec' by done. injection Hvec' as <-.
        rewrite length_insert. by eapply Hshapem.
      * rewrite list_lookup_insert_ne in Hvec' by done. by eapply Hshapem.
    + rewrite list_lookup_insert_ne in Hm' by done. by eapply Hshape.
  - intros a n j. unfold tget. destruct (decide (a = attr)) as [->|Hne].
    + rewrite list_lookup_insert_eq by done. rewrite Hm. simpl.
      destruct (decide (n = ann)) as [->|Hne'].
      * rewrite list_lookup_insert_eq by done. rewrite Hvec. simpl.
        destruct (decide (j = i)) as [->|Hne''].
        -- rewrite list_lookup_insert_eq by done. by rewrite decide_True.
        -- rewrite list_lookup_insert_ne by done.
           rewrite decide_False; [done|]. intros (_ & _ & ?). done.
      * rewrite list_lookup_insert_ne by done.
        rewrite decide_False; [done|]. intros (_ & ? & _). done.
    + rewrite list_lookup_insert_ne by done.
      rewrite decide_False; [done|]. intros (? & _ & _). done.
Qed.

Section rating.
Variables n_attr n_ann n_sen : nat.

(** Line 150-151 for one annotator. *)
Lemma rate_attrs_spec (ann i : nat) (l : list nat) (t t' : tensor) :
  rfold (λ attr ratings, tensor_set attr ann i ratings) l t = Ok t' →
  tensor_shape n_attr n_ann n_sen t →
  tensor_shape n_attr n_ann n_sen t'
  ∧ ∀ a n j, tget t' a n j
             = if decide (a ∈ l ∧ n = ann ∧ j = i) then Some 1 else tget t a n j.
Proof.
  revert t. induction l as [|attr l IH]; intros t H Hshape; simpl in H.
  - injection H as <-. split; [done|]. intros a n j.
    rewrite decide_False; [done|]. intros [Hin _]. by apply elem_of_nil in Hin.
  - apply rbind_Ok in H as (t1 & H1 & Hrest).
    destruct (tensor_set_spec _ _ _ _ _ _ _ _ H1 Hshape) as [Hshape1 Hget1].
    destruct (IH _ Hrest Hshape1) as [Hshape' Hget'].
    split; [done|]. intros a n j. rewrite Hget', Hget1.
    destruct (decide (a ∈ attr :: l ∧ n = ann ∧ j = i)) as [(Hin & -> & ->)|Hn].
    + apply elem_of_cons in Hin as [->|Hin].
      * rewrite (decide_True (P := attr = attr ∧ ann = ann ∧ i = i)) by done.
        by destruct (decide _).
      * by rewrite decide_True.
    + rewrite decide_False, decide_False; [done| |].
      * intros (-> & -> & ->). apply Hn. split_and!; [left|done..].
      * intros (Hin & -> & ->). apply Hn. split_and!; [by right|done..].
Qed.

(** Lines 147-151 for one sentence. *)
Lemma rate_anns_spec (i : nat) (sid : string) (sen : sentence) (l : list nat) (t t' : tensor) :
  rfold (λ ann ratings,
           match dget ann (annot sen) with
           | None => Raise (NoAnnotation ann sid)
           | Some attrs => rfold (λ attr ratings, tensor_set attr ann i ratings) attrs ratings
           end) l t = Ok t' →
  tensor_shape n_attr n_ann n_sen t →
  tensor_shape n_attr n_ann n_sen t'
  ∧ ∀ a n j, tget t' a n j
             = if decide (n ∈ l ∧ j = i ∧ a ∈ annot_of sen n) then Some 1 else tget t a n j.
Proof.
  revert t. induction l as [|ann l IH]; intros t H Hshape; simpl in H.
  - injection H as <-. split; [done|]. intros a n j.
    rewrite decide_False; [done|]. intros [Hin _]. by apply elem_of_nil in Hin.
  - apply rbind_Ok in H as (t1 & H1 & Hrest).
    destruct (dget ann (annot sen)) as [attrs|] eqn:Hattrs; [|done].
    destruct (rate_attrs_spec _ _ _ _ _ H1 Hshape) as [Hshape1 Hget1].
    destruct (IH _ Hrest Hshape1) as [Hshape' Hget'].
    split; [done|]. intros a n j. rewrite Hget', Hget1.
    pose proof (annot_of_Some _ _ _ Hattrs) as Hof.
    destruct (decide (n ∈ ann :: l ∧ j = i ∧ a ∈ annot_of sen n)) as [(Hin & -> & Ha)|Hn].
    + apply elem_of_cons in Hin as [->|Hin].
      * rewrite Hof in Ha. rewrite (decide_True (P := a ∈ attrs ∧ ann = ann ∧ i = i)) by done.
        by destruct (decide _).
      * by rewrite decide_True.
    + rewrite decide_False, decide_False; [done| |].
      * intros (Ha & -> & ->). apply Hn. split_and!; [left|done|by rewrite Hof].
      * intros (Hin & -> & Ha). apply Hn. split_and!; [by right|done..].
Qed.

End rating.

(** The loop of lines 146-154, from the sentences [suf] on: the tensor
    then holds the presence of every attribute for every annotator. *)
Lemma rate_all_from (d pre suf : dict string sentence) (av nv : Vocabulary.t)
    (t t' : tensor) (c c' : dict nat (dict nat nat)) :
  d = pre ++ suf →
  rfoldi (λ i '(sid, sen) '(ratings, attr_counts),
            let* ratings' := rate_sen nv i sid sen ratings in
            let* attr_counts' := count_sen sen attr_counts in
            Ok (ratings', attr_counts'))
         (length pre) suf (t, c) = Ok (t', c') →
  tensor_shape (length av) (length nv) (length d) t →
  (∀ a n j, a < length av → n < length nv → j < length d →
     tget t a n j = Some (if decide (j < length pre) then presence d a n j else 0)) →
  tensor_shape (length av) (length nv) (length d) t'
  ∧ ∀ a n j, a < length av → n < length nv → j < length d →
      tget t' a n j = Some (presence d a n j).
Proof.
  revert pre t c. induction suf as [|[sid sen] suf IH]; intros pre t c Hd H Hshape Hget.
  - simpl in H. injection H as <- <-. split; [done|]. intros a n j Ha Hn Hj.
    rewrite Hget by done. rewrite decide_True; [done|].
    rewrite Hd, length_app in Hj. simpl in Hj. lia.
  - simpl in H. apply rbind_Ok in H as ([t1 c1] & Hbody & Hrest).
    apply rbind_Ok in Hbody as (t1' & Hrate & Hbody).
    apply rbind_Ok in Hbody as (c1' & _ & [= <- <-]).
    unfold rate_sen in Hrate.
    destruct (rate_anns_spec _ _ _ _ _ _ _ _ _ Hrate Hshape) as [Hshape1 Hget1].
    assert (d !! length pre = Some (sid, sen)) as Hlook.
    { rewrite Hd. by rewrite list_lookup_middle. }
    apply (IH (pre ++ [(sid, sen)]) t1' c1').
    + by rewrite <-app_assoc.
    + rewrite length_app. simpl. by rewrite Nat.add_1_r.
    + done.
    + intros a n j Ha Hn Hj. rewrite Hget1, length_app. simpl.
      destruct (decide (n ∈ Vocabulary.ids nv ∧ j = length pre ∧ a ∈ annot_of sen n))
        as [(_ & -> & Hin)|Hnot].
      * rewrite decide_True by lia. unfold presence. rewrite Hlook.
        by rewrite decide_True.
      * rewrite Hget by done. destruct (decide (j = length pre)) as [->|Hne].
        -- rewrite decide_False by lia. rewrite decide_True by lia.
           unfold presence. rewrite Hlook. rewrite decide_False; [done|].
           intros Hin. apply Hnot. split_and!; [|done..]. apply elem_of_seq. lia.
        -- destruct (decide (j < length pre)).
           ++ by rewrite decide_True by lia.
           ++ by rewrite decide_False by lia.
Qed.

(** After the loop, [ratings[attr][ann]] is the presence vector. *)
Lemma rate_all_vec (d : dict string sentence) (av nv : Vocabulary.t)
    (ratings : tensor) (counts : dict nat (dict nat nat)) (a n : nat) :
  rate_all d av nv = Ok (ratings, counts) →
  a < length av → n < length nv →
  tensor_vec a n ratings = Ok (presence_vector d a n).
Proof.
  intros H Ha Hn. unfold rate_all in H.
  destruct (rate_all_from d [] d av nv _ _ _ _ eq_refl H) as [[Hlen Hshape] Hget].
  - apply tensor_shape_zeros.
  - intros a' n' j Ha' Hn' Hj. rewrite tget_zeros by done. simpl. done.
  - unfold tensor_vec.
    destruct (ratings !! a) as [m|] eqn:Hm.
    2:{ apply lookup_ge_None in Hm. lia. }
    destruct (Hshape _ _ Hm) as [Hlenm Hshapem].
    destruct (m !! n) as [vec|] eqn:Hvec.
    2:{ apply lookup_ge_None in Hvec. lia. }
    f_equal. apply list_eq. intros j. unfold presence_vector. rewrite list_lookup_fmap.
    destruct (decide (j < length d)) as [Hj|Hj].
    + specialize (Hget a n j Ha Hn Hj). apply tget_Some in Hget as (m' & vec' & Hm' & Hvec' & Hx).
      assert (m' = m) as -> by congruence. assert (vec' = vec) as -> by congruence.
      rewrite Hx. unfold presence. destruct (d !! j) as [[sid sen]|] eqn:Hd; [done|].
      apply lookup_ge_None in Hd. lia.
    + rewrite (lookup_ge_None_2 d) by lia.
      apply lookup_ge_None_2. rewrite (Hshapem _ _ Hvec). lia.
Qed.

Lemma vec_any_all_zero (vec : list nat) : all_zero vec → vec_any vec = false.
Proof.
  unfold all_zero, vec_any. induction 1 as [|x vec -> _ IH]; [done|].
  cbn [existsb]. by rewrite IH.
Qed.

(** The inner loop of lines 164-176 for one [ann1]. *)
Lemma inner_pairs_spec (ratings : tensor) (attr ann1 : nat) (name1 : string)
    (l : list (nat * string)) (ks gks ks' gks' : list K) :
  rfold (λ '(ann2, ann2_name) '(attr_kappas, gold_kappas),
           if decide (ann2 ≤ ann1) then Ok (attr_kappas, gold_kappas)
           else
             let* kappa := pair_kappa ratings attr ann1 ann2 in
             if decide (name1 = gold ∨ ann2_name = gold)
             then Ok (attr_kappas, gold_kappas ++ [kappa])
             else Ok (attr_kappas ++ [kappa], gold_kappas))
        l (ks, gks) = Ok (ks', gks') →
  ∃ ks1 gks1, ks' = ks ++ ks1 ∧ gks' = gks ++ gks1
    ∧ Forall2 (λ p k, pair_kappa ratings attr p.1.1 p.2.1 = Ok k)
        (filter (λ p, ¬ gold_pair p) (row_pairs (ann1, name1) l)) ks1
    ∧ Forall2 (λ p k, pair_kappa ratings attr p.1.1 p.2.1 = Ok k)
        (filter gold_pair (row_pairs (ann1, name1) l)) gks1.
Proof.
  revert ks gks. induction l as [|[ann2 name2] l IH]; intros ks gks H; simpl in H.
  - injection H as <- <-. exists [], []. rewrite !app_nil_r.
    split_and!; [done..|constructor|constructor].
  - apply rbind_Ok in H as ([ks1 gks1] & Hbody & Hrest).
    unfold row_pairs. rewrite bind_cons. fold (row_pairs (ann1, name1) l).
    rewrite !filter_app. cbn [fst snd].
    destruct (decide (ann2 ≤ ann1)) as [Hle|Hgt].
    + injection Hbody as <- <-. rewrite decide_False by lia.
      rewrite !filter_nil. simpl. by apply IH.
    + rewrite decide_True by lia.
      apply rbind_Ok in Hbody as (kappa & Hkappa & Hbody).
      destruct (IH _ _ Hrest) as (ks2 & gks2 & -> & -> & Hks & Hgks).
      destruct (decide (name1 = gold ∨ name2 = gold)) as [Hgold|Hnotgold].
      * injection Hbody as <- <-. exists ks2, (kappa :: gks2).
        rewrite <-app_assoc. split_and!; [done|done| |].
        -- rewrite filter_cons_False, filter_nil by (intros Hn; by apply Hn). done.
        -- rewrite filter_cons_True, filter_nil by done. simpl. by constructor.
      * injection Hbody as <- <-. exists (kappa :: ks2), gks2.
        rewrite <-app_assoc. split_and!; [done|done| |].
        -- rewrite filter_cons_True, filter_nil by done. simpl. by constructor.
        -- rewrite filter_cons_False, filter_nil by done. done.
Qed.

(** The two loops of lines 163-176: the two lists hold the kappas of the
    pairs, in the order of the pairs. *)
Lemma attr_pair_kappas_spec (ratings : tensor) (nv : Vocabulary.t) (attr : nat)
    (ks gks : list K) :
  attr_pair_kappas ratings nv attr = Ok (ks, gks) →
  Forall2 (λ p k, pair_kappa ratings attr p.1.1 p.2.1 = Ok k) (inter_pairs nv) ks
  ∧ Forall2 (λ p k, pair_kappa ratings attr p.1.1 p.2.1 = Ok k) (gold_pairs nv) gks.
Proof.
  unfold attr_pair_kappas, inter_pairs, gold_pairs, annotator_pairs.
  set (l2 := Vocabulary.items nv).
  assert (∀ l1 ks0 gks0,
    rfold (λ '(ann1, ann1_name) acc,
      rfold (λ '(ann2, ann2_name) '(attr_kappas, gold_kappas),
               if decide (ann2 ≤ ann1) then Ok (attr_kappas, gold_kappas)
               else
                 let* kappa := pair_kappa ratings attr ann1 ann2 in
                 if decide (ann1_name = gold ∨ ann2_name = gold)
                 then Ok (attr_kappas, gold_kappas ++ [kappa])
                 else Ok (attr_kappas ++ [kappa], gold_kappas))
            l2 acc) l1 (ks0, gks0) = Ok (ks, gks) →
    ∃ ks1 gks1, ks = ks0 ++ ks1 ∧ gks = gks0 ++ gks1
      ∧ Forall2 (λ p k, pair_kappa ratings attr p.1.1 p.2.1 = Ok k)
          (filter (λ p, ¬ gold_pair p) (x ← l1; row_pairs x l2)) ks1
      ∧ Forall2 (λ p k, pair_kappa ratings attr p.1.1 p.2.1 = Ok k)
          (filter gold_pair (x ← l1; row_pairs x l2)) gks1) as Hgen.
  { induction l1 as [|[ann1 name1] l1 IH]; intros ks0 gks0 H; simpl in H.
    - injection H as <- <-. exists [], []. rewrite !app_nil_r.
      split_and!; [done..|constructor|constructor].
    - apply rbind_Ok in H as ([ks1 gks1] & Hinner & Hrest).
      apply inner_pairs_spec in Hinner as (ks2 & gks2 & -> & -> & Hks2 & Hgks2).
      destruct (IH _ _ Hrest) as (ks3 & gks3 & -> & -> & Hks3 & Hgks3).
      exists (ks2 ++ ks3), (gks2 ++ gks3). rewrite !app_assoc.
      rewrite bind_cons, !filter_app.
      split_and!; [done|done|by apply Forall2_app|by apply Forall2_app]. }
  intros H. destruct (Hgen _ _ _ H) as (ks1 & gks1 & -> & -> & Hks & Hgks). done.
Qed.

Lemma elem_of_insert_desc {A} (key : A → nat) (x y : A) (l : list A) :
  y ∈ insert_desc key x l ↔ y = x ∨ y ∈ l.
Proof.
  clear_parameters. induction l as [|z l IH]; simpl.
  - rewrite list_elem_of_singleton, elem_of_nil. tauto.
  - destruct (key x <? key z).
    + rewrite !elem_of_cons, IH. tauto.
    + by rewrite elem_of_cons.
Qed.

Lemma elem_of_sort_desc {A} (key : A → nat) (y : A) (l : list A) :
  y ∈ sort_desc key l ↔ y ∈ l.
Proof.
  unfold sort_desc. induction l as [|x l IH]; simpl; [done|].
  by rewrite elem_of_insert_desc, IH, elem_of_cons.
Qed.

Lemma elem_of_items (v : Vocabulary.t) (i : nat) (w : string) :
  (i, w) ∈ Vocabulary.items v ↔ v !! i = Some w.
Proof.
  unfold Vocabulary.items. rewrite elem_of_lookup_imap. split.
  - by intros (j & w' & [= -> ->] & ?).
  - intros H. by exists i, w.
Qed.

Lemma annotator_pairs_known (nv : Vocabulary.t) (p : (nat * string) * (nat * string)) :
  p ∈ annotator_pairs nv →
  nv !! p.1.1 = Some p.1.2 ∧ nv !! p.2.1 = Some p.2.2 ∧ p.1.1 < p.2.1.
Proof.
  unfold annotator_pairs, row_pairs. intros H.
  apply list_elem_of_bind in H as ([a1 n1] & H & H1).
  apply list_elem_of_bind in H as ([a2 n2] & H & H2).
  apply elem_of_items in H1, H2. simpl in H.
  destruct (decide (a1 < a2)); [|by apply elem_of_nil in H].
  apply list_elem_of_singleton in H as ->. done.
Qed.

Lemma attr_stat_fields (ratings : tensor) (counts : dict nat (dict nat nat))
    (nv : Vocabulary.t) (attr : nat) (name : string) (row : attr_row) :
  attr_stat ratings counts nv attr name = Ok row →
  attr_name row = name
  ∧ attr_pair_kappas ratings nv attr = Ok (attr_kappas row, gold_kappas row).
Proof.
  unfold attr_stat. intros H.
  apply rbind_Ok in H as ([ks gks] & Hpairs & H).
  apply rbind_Ok in H as (a & _ & H).
  apply rbind_Ok in H as (ag & _ & H).
  apply rbind_Ok in H as (slice & _ & H).
  apply rbind_Ok in H as (c & _ & [= <-]). done.
Qed.

(** The kappa of a pair whose two vectors are all-zero. *)
Lemma pair_kappa_all_zero (d : dict string sentence) (av nv : Vocabulary.t)
    (ratings : tensor) (counts : dict nat (dict nat nat)) (attr ann1 ann2 : nat) :
  rate_all d av nv = Ok (ratings, counts) →
  attr < length av → ann1 < length nv → ann2 < length nv →
  all_zero (presence_vector d attr ann1) → all_zero (presence_vector d attr ann2) →
  pair_kappa ratings attr ann1 ann2 = Ok kone.
Proof.
  intros Hrate Hattr H1 H2 Hz1 Hz2. unfold pair_kappa.
  rewrite (rate_all_vec _ _ _ _ _ _ _ Hrate Hattr H1).
  rewrite (rate_all_vec _ _ _ _ _ _ _ Hrate Hattr H2). cbn [rbind].
  by rewrite !vec_any_all_zero.
Qed.

Lemma inner_pairs_total (ratings : tensor) (attr n ann1 : nat) (name1 : string)
    (l : list (nat * string)) (ks gks : list K) :
  ann1 < n → (∀ x, x ∈ l → x.1 < n) →
  (∀ a1 a2, a1 < n → a2 < n → ∃ k, pair_kappa ratings attr a1 a2 = Ok k) →
  ∃ ks' gks',
    rfold (λ '(ann2, ann2_name) '(attr_kappas, gold_kappas),
             if decide (ann2 ≤ ann1) then Ok (attr_kappas, gold_kappas)
             else
               let* kappa := pair_kappa ratings attr ann1 ann2 in
               if decide (name1 = gold ∨ ann2_name = gold)
               then Ok (attr_kappas, gold_kappas ++ [kappa])
               else Ok (attr_kappas ++ [kappa], gold_kappas))
          l (ks, gks) = Ok (ks', gks').
Proof.
  intros H1 Hl Hpair. revert ks gks.
  induction l as [|[ann2 name2] l IH]; intros ks gks; simpl; [by eexists _, _|].
  assert (ann2 < n) as H2 by (apply (Hl (ann2, name2)); left).
  assert (∀ x, x ∈ l → x.1 < n) as Hl' by (intros x Hx; apply Hl; by right).
  destruct (decide (ann2 ≤ ann1)); simpl; [by apply IH|].
  destruct (Hpair ann1 ann2 H1 H2) as [k ->]. simpl.
  destruct (decide (name1 = gold ∨ name2 = gold)); simpl; by apply IH.
Qed.

Lemma outer_pairs_total (ratings : tensor) (attr n : nat)
    (l1 l2 : list (nat * string)) (ks gks : list K) :
  (∀ x, x ∈ l1 → x.1 < n) → (∀ x, x ∈ l2 → x.1 < n) →
  (∀ a1 a2, a1 < n → a2 < n → ∃ k, pair_kappa ratings attr a1 a2 = Ok k) →
  ∃ ks' gks',
    rfold (λ '(ann1, ann1_name) acc,
             rfold (λ '(ann2, ann2_name) '(attr_kappas, gold_kappas),
                      if decide (ann2 ≤ ann1) then Ok (attr_kappas, gold_kappas)
                      else
                        let* kappa := pair_kappa ratings attr ann1 ann2 in
                        if decide (ann1_name = gold ∨ ann2_name = gold)
                        then Ok (attr_kappas, gold_kappas ++ [kappa])
                        else Ok (attr_kappas ++ [kappa], gold_kappas))
                   l2 acc)
          l1 (ks, gks) = Ok (ks', gks').
Proof.
  intros Hl1 Hl2 Hpair. revert ks gks.
  induction l1 as [|[ann1 name1] l1 IH]; intros ks gks; simpl; [by eexists _, _|].
  assert (ann1 < n) as H1 by (apply (Hl1 (ann1, name1)); left).
  destruct (inner_pairs_total ratings attr n ann1 name1 l2 ks gks H1 Hl2 Hpair)
    as (ks1 & gks1 & ->).
  simpl. apply IH. intros x Hx. apply Hl1. by right.
Qed.

(** The two loops of lines 163-176 complete when every pair has a kappa. *)
Lemma attr_pair_kappas_total (ratings : tensor) (nv : Vocabulary.t) (attr : nat) :
  (∀ ann1 ann2, ann1 < length nv → ann2 < length nv →
     ∃ k, pair_kappa ratings attr ann1 ann2 = Ok k) →
  ∃ ks gks, attr_pair_kappas ratings nv attr = Ok (ks, gks).
Proof.
  intros Hpair. unfold attr_pair_kappas.
  assert (∀ x, x ∈ Vocabulary.items nv → x.1 < length nv) as Hitems.
  { intros [i w] Hx. apply elem_of_items in Hx. by eapply lookup_lt_Some. }
  by apply (outer_pairs_total ratings attr (length nv)).
Qed.

(** Without a pair of annotators other than gold the average of line 179
    divides by zero, for the first attribute already (the case of C4). *)
Lemma measure_agreement_without_inter_pairs (d : dict string sentence) (av nv : Vocabulary.t)
    (ratings : tensor) (counts : dict nat (dict nat nat)) :
  rate_all d av nv = Ok (ratings, counts) → av ≠ [] → inter_pairs nv = [] →
  measure_agreement d av nv = Raise ZeroDivisionError.
Proof.
  intros Hrate Hav Hinter. unfold measure_agreement. rewrite Hrate. cbn [rbind].
  destruct av as [|w av]; [done|]. unfold Vocabulary.items. cbn [imap rmap].
  assert (attr_stat ratings counts nv 0 w = Raise ZeroDivisionError) as ->; [|done].
  unfold attr_stat.
  destruct (attr_pair_kappas_total ratings nv 0) as (ks & gks & Hpairs).
  { intros ann1 ann2 H1 H2. unfold pair_kappa.
    rewrite (rate_all_vec _ _ _ _ _ 0 ann1 Hrate) by (simpl; lia || done).
    rewrite (rate_all_vec _ _ _ _ _ 0 ann2 Hrate) by (simpl; lia || done).
    cbn [rbind]. destruct (_ && _); by eexists. }
  rewrite Hpairs. cbn [rbind].
  apply attr_pair_kappas_spec in Hpairs as [Hks _]. rewrite Hinter in Hks.
  apply Forall2_nil_inv_l in Hks as ->. done.
Qed.

(** ** What [attr_stats] holds after loading *)

Lemma dset_absent {Key Val} `{EqDecision Key} (k : Key) (v : Val) (d : dict Key Val) :
  dget k d = None → dset k v d = d ++ [(k, v)].
Proof.
  induction d as [|[k' v'] d IH]; simpl; [done|].
  destruct (decide (k' = k)); [done|]. intros H. by rewrite IH.
Qed.

Lemma counter_get_ensure_all (attrs : list nat) (a : nat) (c : dict nat nat) :
  counter_get a (ensure_all attrs c) = counter_get a c.
Proof.
  unfold ensure_all. revert c. induction attrs as [|x attrs IH]; intros c; simpl; [done|].
  rewrite IH. unfold dmem. case_bool_decide as Hx; [done|].
  unfold counter_get. rewrite dget_dset. destruct (decide (x = a)) as [->|]; [|done].
  apply eq_None_not_Some in Hx. by rewrite Hx.
Qed.

Lemma is_Some_dget_incr_all (attrs : list nat) (a : nat) (c : dict nat nat) :
  a ∈ attrs ∨ is_Some (dget a c) → is_Some (dget a (incr_all attrs c)).
Proof.
  unfold incr_all. revert c. induction attrs as [|x attrs IH]; intros c; simpl.
  - intros [H|H]; [by apply elem_of_nil in H|done].
  - intros H. apply IH. unfold counter_incr. rewrite dget_dset.
    destruct (decide (x = a)) as [->|Hne]; [by right|].
    destruct H as [H|H]; [|by right]. left.
    apply elem_of_cons in H as [->|H]; done.
Qed.

Lemma is_Some_dget_ensure_all (attrs : list nat) (a : nat) (c : dict nat nat) :
  a ∈ attrs ∨ is_Some (dget a c) → is_Some (dget a (ensure_all attrs c)).
Proof.
  unfold ensure_all. revert c. induction attrs as [|x attrs IH]; intros c; simpl.
  - intros [H|H]; [by apply elem_of_nil in H|done].
  - intros H. apply IH. unfold dmem. case_bool_decide as Hx.
    + destruct H as [H|H]; [|by right].
      apply elem_of_cons in H as [->|H]; [by right|by left].
    + rewrite dget_dset. destruct (decide (x = a)) as [->|Hne]; [by right|].
      destruct H as [H|H]; [|by right]. left.
      apply elem_of_cons in H as [->|H]; done.
Qed.

Lemma stat_of_prefix (nv nv' : Vocabulary.t) (a : nat) (l : dict nat (list nat)) :
  nv `prefix_of` nv' → (∀ ann attrs, (ann, attrs) ∈ l → ann < length nv) →
  stat_of nv' a <$> l = stat_of nv a <$> l.
Proof.
  intros [k ->] Hl. apply list_fmap_ext. intros i [ann attrs] Hi.
  apply list_elem_of_lookup_2, Hl in Hi. unfold stat_of. simpl.
  by rewrite lookup_app_l.
Qed.

Lemma merge_sen_attr_stats_ok fn ann sen st st' r :
  ann < length (annotator_vocab st) → attr_stats_ok st →
  merge_sen fn ann sen st = (st', r) → attr_stats_ok st'.
Proof.
  intros Hann Hok H.
  destruct (merge_sen_cases _ _ _ _ _ _ H Hann)
    as [[-> _]|(_ & rec0 & ids & av & w & Hrec0 & Hnew & _ & Hw & ->)]; [done|].
  unfold attr_stats_ok. simpl. intros sid sen' Hin.
  apply elem_of_dset in Hin as [[= -> ->]|Hin]; [|exact (Hok sid sen' Hin)].
  assert ((∀ ann' attrs, (ann', attrs) ∈ annot rec0 → ann' < length (annotator_vocab st))
          ∧ ∀ a, counter_get a (attr_stats rec0)
                 = sum_list (stat_of (annotator_vocab st) a <$> annot rec0)
               ∧ (∀ ann' attrs, (ann', attrs) ∈ annot rec0 → a ∈ attrs →
                    is_Some (dget a (attr_stats rec0)))) as [Hkeys Hstats].
  { destruct Hrec0 as [[Hrec0 _]|[_ ->]].
    - apply dget_Some_elem_of in Hrec0. exact (Hok _ _ Hrec0).
    - simpl. split; [intros ?? Hin; by apply elem_of_nil in Hin|].
      intros a. split; [done|]. intros ?? Hin. by apply elem_of_nil in Hin. }
  simpl. rewrite (dset_absent _ _ _ Hnew). split.
  - intros ann' attrs Hin. apply elem_of_app in Hin as [Hin|Hin]; [by eapply Hkeys|].
    apply list_elem_of_singleton in Hin. by injection Hin as -> ->.
  - intros a. destruct (Hstats a) as [Hsum Hpresent].
    rewrite fmap_app, sum_list_with_app. simpl. unfold stat_of at 2. simpl. rewrite Hw.
    unfold update_attr_stats. split.
    + destruct (decide (w = gold)) as [->|Hne].
      * rewrite decide_False by (by intros Hn; apply Hn).
        rewrite counter_get_ensure_all, Hsum. lia.
      * rewrite decide_True by done. rewrite counter_get_incr_all, Hsum. lia.
    + intros ann' attrs Hin Ha.
      assert (a ∈ sorted_nat ids ∨ is_Some (dget a (attr_stats rec0))) as Hor.
      { apply elem_of_app in Hin as [Hin|Hin]; [right; by eapply Hpresent|].
        apply list_elem_of_singleton in Hin. injection Hin as -> ->. by left. }
      destruct (decide (w ≠ gold)).
      * by apply is_Some_dget_incr_all.
      * by apply is_Some_dget_ensure_all.
Qed.

(** After loading, [attr_stats] holds for every attribute the number of
    its occurrences in the lists of the annotators other than gold (for
    lists without duplicates: the number of those annotators), and has an
    entry, 0 if only gold selected it, for every attribute of an entry. *)
Lemma load_data_attr_stats_ok filenames st r :
  load_data filenames = (st, r) → attr_stats_ok st.
Proof.
  apply (load_files_ind attr_stats_ok).
  - intros st0 v Hok Hpre sid sen Hin. simpl in *.
    destruct (Hok sid sen Hin) as [Hkeys Hstats]. split.
    + intros ann attrs Hattrs. specialize (Hkeys _ _ Hattrs).
      apply prefix_length in Hpre. lia.
    + intros a. by rewrite (stat_of_prefix _ _ _ _ Hpre Hkeys).
  - intros fn ann sen st0 st1 r0. apply merge_sen_attr_stats_ok.
  - intros sid sen Hin. by apply elem_of_nil in Hin.
Qed.

(** ** The TSV export *)

Lemma all_equal_from_spec {A} `{EqDecision A} (first : A) (rest : list A) :
  all_equal_from first rest = true ↔ ∀ x, x ∈ rest → first = x.
Proof.
  induction rest as [|y rest IH]; simpl.
  - split; [intros _ x Hx; by apply elem_of_nil in Hx | done].
  - rewrite andb_true_iff, bool_decide_eq_true, IH. split.
    + intros [-> Hrest] x Hx. apply elem_of_cons in Hx as [->|Hx]; auto.
    + intros Hall. split; [apply Hall; left | intros x Hx; apply Hall; by right].
Qed.

Lemma all_equal_spec {A} `{EqDecision A} (l : list A) :
  all_equal l = true ↔ ∀ x y, x ∈ l → y ∈ l → x = y.
Proof.
  destruct l as [|first rest]; simpl.
  - split; [intros _ x y Hx; by apply elem_of_nil in Hx | done].
  - rewrite all_equal_from_spec. split.
    + intros Hall x y Hx Hy.
      apply elem_of_cons in Hx as [->|Hx], Hy as [->|Hy]; auto.
      * symmetry. auto.
      * by rewrite <-(Hall x Hx), <-(Hall y Hy).
    + intros Hall x Hx. apply Hall; [left | by right].
Qed.

Lemma all_equal_annot (sen : sentence) :
  all_equal (dvalues (annot sen)) = true ↔ same_lists sen.
Proof.
  rewrite all_equal_spec. unfold dvalues, same_lists. split.
  - intros Hall a1 l1 a2 l2 H1 H2.
    apply Hall; apply list_elem_of_fmap; [by exists (a1, l1) | by exists (a2, l2)].
  - intros Hall x y Hx Hy.
    apply list_elem_of_fmap in Hx as ([a1 l1] & -> & H1).
    apply list_elem_of_fmap in Hy as ([a2 l2] & -> & H2). simpl. eauto.
Qed.

(** Sorted lists without duplicates are equal when they have the same
    elements. *)
Lemma sorted_lists_same_sets (sen : sentence) :
  (∀ a l, (a, l) ∈ annot sen → Sorted le l ∧ NoDup l) →
  same_lists sen ↔ same_sets sen.
Proof.
  intros Hok. unfold same_lists, same_sets. split.
  - intros Hall a1 l1 a2 l2 H1 H2 x. by rewrite (Hall a1 l1 a2 l2).
  - intros Hall a1 l1 a2 l2 H1 H2.
    destruct (Hok _ _ H1) as [Hs1 Hnd1]. destruct (Hok _ _ H2) as [Hs2 Hnd2].
    apply (Sorted_unique le); [done..|].
    apply NoDup_Permutation; [done..|]. by eapply Hall.
Qed.

Lemma get_tsv_line_fields (sen : sentence) (av : Vocabulary.t) (line : tsv_line) :
  get_tsv_line sen av = Ok line →
  tsv_id line = sen_id sen ∧ tsv_text line = sen_text sen
  ∧ tsv_full_agreement line = full_agreement sen.
Proof.
  unfold get_tsv_line. intros H.
  apply rbind_Ok in H as (cells & _ & H).
  apply rbind_Ok in H as (counts & _ & H).
  injection H as <-. done.
Qed.

(** The [j]-th line written belongs to the [j]-th record, and carries the
    value of [all_equal] over the values of its [annot]. *)
Lemma print_sens_lines (d : dict string sentence) (av : Vocabulary.t) d' lines r :
  print_sens d av = (d', lines, r) →
  ∀ j line, lines !! j = Some line →
    ∃ sid sen, d !! j = Some (sid, sen) ∧ tsv_id line = sen_id sen
      ∧ tsv_full_agreement line = Some (all_equal (dvalues (annot sen))).
Proof.
  revert d' lines r. induction d as [|[sid sen] d IH]; intros d' lines r; simpl.
  - intros [= <- <- <-] j line Hj. by rewrite lookup_nil in Hj.
  - destruct (get_tsv_line _ av) as [e|line0] eqn:Hline.
    + intros [= <- <- <-] j line Hj. by rewrite lookup_nil in Hj.
    + destruct (print_sens d av) as [[d'' lines'] r'] eqn:Hrest.
      intros [= <- <- <-] j line Hj.
      destruct j as [|j]; simpl in Hj.
      * injection Hj as <-. exists sid, sen. split; [done|].
        apply get_tsv_line_fields in Hline as (-> & _ & ->). done.
      * simpl. eapply IH; eauto.
Qed.

Lemma rmap_Ok_ex {A B} (body : A → result B) (l : list A) :
  (∀ x, x ∈ l → ∃ y, body x = Ok y) → ∃ ys, rmap body l = Ok ys ∧ length ys = length l.
Proof.
  induction l as [|x l IH]; intros Hall; simpl; [by exists []|].
  destruct (Hall x) as [y ->]; [left|]. simpl.
  destruct IH as (ys & -> & Hlen); [intros z Hz; apply Hall; by right|].
  simpl. exists (y :: ys). split; [done|]. simpl. by rewrite Hlen.
Qed.

Lemma get_word_Ok (i : nat) (v : Vocabulary.t) :
  i < length v → ∃ w, Vocabulary.get_word i v = Ok w.
Proof.
  intros Hlt. unfold Vocabulary.get_word.
  apply lookup_lt_is_Some_2 in Hlt as [w ->]. by exists w.
Qed.

(** A line can be written for a record whose ids are known. *)
Lemma get_tsv_line_Ok (sen : sentence) (av : Vocabulary.t) :
  (∀ ann attrs a, (ann, attrs) ∈ annot sen → a ∈ attrs → a < length av) →
  ∃ line, get_tsv_line sen av = Ok line.
Proof using set_iter_id_ok.
  intros Hids. unfold get_tsv_line.
  edestruct (rmap_Ok_ex
               (λ '(ann, attrs),
                  match attrs with
                  | [] => Ok "no_attr"%string
                  | _ => let* words := rmap (λ attr, Vocabulary.get_word attr av) attrs in
                         Ok (String.concat "," words)
                  end) (annot sen)) as (cells & -> & _).
  { intros [ann attrs] Hin. destruct attrs as [|a attrs]; [by eexists|].
    destruct (rmap_Ok_ex (λ attr, Vocabulary.get_word attr av) (a :: attrs))
      as (words & -> & _); [|by eexists].
    intros a' Ha'. apply get_word_Ok. exact (Hids _ _ _ Hin Ha'). }
  cbn [rbind].
  edestruct (rmap_Ok_ex
               (λ attr, let* w := Vocabulary.get_word attr av in
                        Ok (w +:+ ":" +:+ pretty (counter_get attr (attr_stats sen)))%string)
               (set_iter_id (mjoin (sorted_nat <$> dvalues (annot sen)))))
    as (counts & -> & _); [|by eexists].
  intros a Ha. destruct (set_iter_id_ok (mjoin (sorted_nat <$> dvalues (annot sen)))) as [_ Hiff].
  apply Hiff in Ha. apply list_elem_of_join in Ha as (l & Ha & Hl).
  apply list_elem_of_fmap in Hl as (attrs & -> & Hattrs).
  rewrite elem_of_sorted_nat in Ha.
  unfold dvalues in Hattrs. apply list_elem_of_fmap in Hattrs as ([ann attrs'] & -> & Hin).
  simpl in Ha. destruct (get_word_Ok a av) as [w ->]; [exact (Hids _ _ _ Hin Ha)|].
  by eexists.
Qed.

(** Every record of known ids gets its line. *)
Lemma print_sens_Ok (d : dict string sentence) (av : Vocabulary.t) :
  (∀ sid sen ann attrs a, (sid, sen) ∈ d → (ann, attrs) ∈ annot sen → a ∈ attrs →
     a < length av) →
  ∃ d' lines, print_sens d av = (d', lines, Ok ()) ∧ length lines = length d.
Proof using set_iter_id_ok.
  induction d as [|[sid sen] d IH]; intros Hids; simpl; [by exists [], []|].
  destruct (get_tsv_line_Ok (set_full_agreement (all_equal (dvalues (annot sen))) sen) av)
    as [line ->].
  { intros ann attrs a Hin Ha. simpl in Hin. exact (Hids sid sen _ _ _ ltac:(left) Hin Ha). }
  destruct IH as (d' & lines & -> & Hlen).
  { intros sid' sen' ann attrs a Hin. apply (Hids sid'). by right. }
  eexists _, _. split; [done|]. simpl. by rewrite Hlen.
Qed.

(** The loader keeps [annot_lists_ok]. *)
Lemma merge_sen_lists_ok fn ann sen st st' r :
  ann < length (annotator_vocab st) → annot_lists_ok st →
  merge_sen fn ann sen st = (st', r) → annot_lists_ok st'.
Proof.
  intros Hann Hok H.
  destruct (merge_sen_cases _ _ _ _ _ _ H Hann)
    as [[-> _]|(_ & rec0 & ids & av & w & Hrec0 & Hnew & Hint & _ & ->)]; [done|].
  destruct (intern_attrs_Ok (set_iter (row_attributes sen)) (attr_vocab st))
    as (ids' & av' & Hint' & Hpre & Hfound).
  rewrite Hint in Hint'. injection Hint' as <- <-.
  assert (∀ a, a ∈ ids → a < length av) as Hids.
  { intros a Ha. apply list_elem_of_lookup in Ha as [i Hi].
    destruct (Forall2_lookup_r _ _ _ _ _ Hfound Hi) as (attr & _ & Hfind).
    apply find_word_Some in Hfind. by eapply lookup_lt_Some. }
  assert (length (attr_vocab st) ≤ length av) as Hle by (by apply prefix_length).
  unfold annot_lists_ok. simpl. intros sid sen' ann' attrs Hin Hattrs.
  apply elem_of_dset in Hin as [[= -> ->]|Hin].
  - simpl in Hattrs. apply elem_of_dset in Hattrs as [[= -> ->]|Hattrs].
    + split; [apply Sorted_sorted_nat|]. intros a Ha. apply Hids.
      by rewrite elem_of_sorted_nat in Ha.
    + destruct Hrec0 as [[Hrec0 _]|[_ ->]]; [|by apply elem_of_nil in Hattrs].
      apply dget_Some_elem_of in Hrec0.
      destruct (Hok _ _ _ _ Hrec0 Hattrs) as [Hsorted Hlt].
      split; [done|]. intros a Ha. specialize (Hlt a Ha). lia.
  - destruct (Hok _ _ _ _ Hin Hattrs) as [Hsorted Hlt].
    split; [done|]. intros a Ha. specialize (Hlt a Ha). lia.
Qed.

Lemma load_data_lists_ok filenames st r :
  load_data filenames = (st, r) → annot_lists_ok st.
Proof.
  apply (load_files_ind annot_lists_ok).
  - intros st0 v Hok _. exact Hok.
  - intros fn ann sen st0 st1 r0. apply merge_sen_lists_ok.
  - intros sid sen ann attrs Hin. by apply elem_of_nil in Hin.
Qed.

Lemma main_tsv (filenames : list xlsx_file) (st : lstate) :
  load_data filenames = (st, Ok ()) →
  run_tsv (main filenames)
  = Some (print_data (data st) (attr_vocab st) (annotator_vocab st)).1.2.
Proof.
  intros Hload. unfold main. rewrite Hload.
  destruct (print_data _ _ _) as [[d1 tsv] r]. simpl.
  destruct r as [e|[]]; [done|].
  repeat case_match; done.
Qed.

(** C9 (as amended).  The TSV file is written right after loading, before
    vote synthesis: every loaded sentence gets its line, and for a
    sentence whose stored lists have no duplicate the [full_agreement] of
    the line is true iff all annotators loaded for that sentence have the
    same attribute set.  (What the code compares are the stored lists.) *)
Theorem tsv_full_agreement_of_loaded_annotators (filenames : list xlsx_file) (st : lstate) :
  load_data filenames = (st, Ok ()) →
  ∃ header lines,
    run_tsv (main filenames) = Some (header, lines)
    ∧ length lines = length (data st)
    ∧ ∀ j sid sen, data st !! j = Some (sid, sen) →
        ∃ line b,
          lines !! j = Some line ∧ tsv_id line = sen_id sen
          ∧ tsv_full_agreement line = Some b
          ∧ (b = true ↔ same_lists sen)
          ∧ ((∀ a l, (a, l) ∈ annot sen → NoDup l) → (b = true ↔ same_sets sen)).
Proof using set_iter_id_ok.
  intros Hload. rewrite (main_tsv _ _ Hload). unfold print_data.
  pose proof (load_data_lists_ok _ _ _ Hload) as Hok.
  destruct (print_sens_Ok (data st) (attr_vocab st)) as (d' & lines & Hprint & Hlen).
  { intros sid sen ann attrs a Hin Hattrs Ha.
    destruct (Hok _ _ _ _ Hin Hattrs) as [_ Hlt]. by apply Hlt. }
  rewrite Hprint. simpl. eexists _, lines. split_and!; [done..|].
  intros j sid sen Hj.
  destruct (lookup_lt_is_Some_2 lines j) as [line Hline].
  { rewrite Hlen. by eapply lookup_lt_Some. }
  destruct (print_sens_lines _ _ _ _ _ Hprint j line Hline) as (sid' & sen' & Hd & Hid & Hfa).
  rewrite Hj in Hd. injection Hd as <- <-.
  exists line, (all_equal (dvalues (annot sen))).
  split_and!; [done..|apply all_equal_annot|].
  intros Hnd. rewrite all_equal_annot. apply sorted_lists_same_sets.
  intros a l Hin. split; [|by eapply Hnd].
  apply list_elem_of_lookup_2 in Hj. by destruct (Hok _ _ _ _ Hj Hin).
Qed.

(** * Further properties of the code *)

(** ** all_equal *)

(** X1.  all_equal is True exactly when any two elements are equal (so also
    for an empty and for a one-element iterator). *)
Theorem all_equal_iff {A} `{EqDecision A} (l : list A) :
  all_equal l = true ↔ ∀ x y, x ∈ l → y ∈ l → x = y.
Proof. apply all_equal_spec. Qed.

(** ** remove_empty *)

Lemma any_annotation_true (sen : sentence) :
  any_annotation sen = true ↔ ∃ ann attrs, (ann, attrs) ∈ annot sen ∧ attrs ≠ [].
Proof.
  unfold any_annotation, dvalues. rewrite existsb_exists. split.
  - intros (attrs & Hin & Hne). apply list_elem_of_In, list_elem_of_fmap in Hin
      as ([ann attrs'] & -> & Hin).
    exists ann, attrs'. split; [done|]. simpl in Hne.
    apply negb_true_iff, bool_decide_eq_false in Hne. done.
  - intros (ann & attrs & Hin & Hne). exists attrs. split.
    + apply list_elem_of_In, list_elem_of_fmap. by exists (ann, attrs).
    + apply negb_true_iff, bool_decide_eq_false. done.
Qed.

(** X2.  remove_empty keeps, in their order, exactly the sentences for which
    some annotator has a non-empty list, and filtering again changes
    nothing. *)
Theorem remove_empty_keeps_annotated (d : dict string sentence) :
  (∀ e, e ∈ remove_empty d
        ↔ e ∈ d ∧ ∃ ann attrs, (ann, attrs) ∈ annot e.2 ∧ attrs ≠ [])
  ∧ remove_empty d `sublist_of` d
  ∧ remove_empty (remove_empty d) = remove_empty d.
Proof.
  unfold remove_empty. split_and!.
  - intros [sid sen]. simpl. rewrite <-any_annotation_true, !list_elem_of_In.
    by rewrite filter_In.
  - induction d as [|[sid sen] d IH]; simpl; [done|].
    destruct (any_annotation sen); [by apply sublist_skip|by apply sublist_cons].
  - induction d as [|[sid sen] d IH]; simpl; [done|].
    destruct (any_annotation sen) eqn:E; simpl; [|done]. by rewrite E, IH.
Qed.

(** ** gen_sens_from_file *)

Lemma attributes_from_elem (k : nat) (rest : list cell) (a : string) :
  a ∈ attributes_from k rest
  ↔ ∃ j, rest !! j = Some (Some a) ∧ Nat.odd (k + j) = true
      ∧ a ≠ EmptyString ∧ a ∉ ATTR_IGNORE.
Proof.
  revert k. induction rest as [|field rest IH]; intros k.
  - simpl. split; [intros H; by apply elem_of_nil in H|].
    intros (j & Hj & _). by rewrite lookup_nil in Hj.
  - assert (a ∈ attributes_from (S k) rest
            ↔ ∃ j, (field :: rest) !! S j = Some (Some a) ∧ Nat.odd (k + S j) = true
                ∧ a ≠ EmptyString ∧ a ∉ ATTR_IGNORE) as Htail.
    { rewrite IH. split; intros (j & Hj & Hodd & Hrest); exists j; simpl;
        (split; [done|]); (split; [|done]); by rewrite Nat.add_succ_r in *. }
    simpl. destruct field as [s|].
    + destruct (bool_decide (s ≠ EmptyString) && Nat.odd k && bool_decide (s ∉ ATTR_IGNORE))
        eqn:Hcond.
      * apply andb_true_iff in Hcond as [Hcond H3]. apply andb_true_iff in Hcond as [H1 H2].
        apply bool_decide_eq_true in H1, H3.
        rewrite elem_of_cons, Htail. split.
        -- intros [->|(j & Hj)]; [|by exists (S j)].
           exists 0. simpl. by rewrite Nat.add_0_r.
        -- intros ([|j] & Hj & Hrest); [left|right; by exists j].
           simpl in Hj. congruence.
      * rewrite Htail. split; [intros (j & Hj); by exists (S j)|].
        intros ([|j] & Hj & Hodd & Hne & Hign); [|by exists j].
        exfalso. simpl in Hj. injection Hj as ->. rewrite Nat.add_0_r in Hodd.
        rewrite Hodd in Hcond. rewrite !bool_decide_eq_true_2 in Hcond by done. done.
    + rewrite Htail. split; [intros (j & Hj); by exists (S j)|].
      intros ([|j] & Hj & Hrest); [done|by exists j].
Qed.

Lemma attributes_from_length (k : nat) (rest : list cell) :
  2 * length (attributes_from k rest) ≤ length rest + (if Nat.odd k then 1 else 0).
Proof.
  revert k. induction rest as [|field rest IH]; intros k; simpl; [lia|].
  specialize (IH (S k)). rewrite Nat.odd_succ, <-Nat.negb_odd in IH.
  destruct (Nat.odd k) eqn:Hodd; simpl in IH.
  - destruct field as [s|]; [|lia]. destruct (_ && _); simpl; lia.
  - destruct field as [s|]; [|lia]. rewrite andb_false_r. simpl. lia.
Qed.

Lemma gen_sen_Some (fn : string) (i : nat) (row : list cell) (sen : sen_row) :
  gen_sen fn i row = Ok (Some sen) →
  i ≠ 0 ∧ row !! 0 = Some (Some (row_id sen)) ∧ row !! 1 = Some (row_text sen)
  ∧ Sorted String.le (row_attributes sen)
  ∧ length (row_attributes sen) ≤ 5
  ∧ ∀ a, a ∈ row_attributes sen
         ↔ a ≠ EmptyString ∧ (a ∉ ATTR_IGNORE)
           ∧ ∃ j, j < 5 ∧ row !! (3 + 2 * j) = Some (Some a).
Proof.
  unfold gen_sen. intros H.
  destruct row as [|row0 row_tl]; [done|].
  destruct (decide (i = 0)) as [->|Hi]; [by destruct (decide _)|].
  destruct row0 as [sid|]; [|by destruct (decide _)].
  destruct row_tl as [|txt rest]; [done|]. injection H as <-.
  cbn [row_id row_text row_attributes].
  assert (∀ n, (Some sid :: txt :: rest) !! (3 + 2 * n) = rest !! (2 * n + 1)) as Hidx.
  { intros n. by replace (3 + 2 * n) with (S (S (2 * n + 1))) by lia. }
  split_and!; [done..| | |].
  - apply (Sorted_merge_sort String.le).
  - unfold sorted_str. rewrite merge_sort_Permutation.
    pose proof (attributes_from_length 0 (take 10 rest)) as Hlen.
    rewrite length_take in Hlen. change (Nat.odd 0) with false in Hlen. cbv iota in Hlen.
    lia.
  - intros a. unfold sorted_str. rewrite merge_sort_Permutation, attributes_from_elem.
    split.
    + intros (j & Hj & Hodd & Hne & Hign). split_and!; [done..|].
      apply lookup_take_Some in Hj as [Hj Hlt]. rewrite Nat.add_0_l in Hodd.
      apply Nat.odd_spec in Hodd as [j' ->].
      exists j'. split; [lia|]. by rewrite Hidx.
    + intros (Hne & Hign & j & Hlt & Hj). exists (2 * j + 1). split_and!; [| |done..].
      * apply lookup_take_Some. split; [|lia]. by rewrite <-Hidx.
      * rewrite Nat.add_0_l. apply Nat.odd_spec. by exists j.
Qed.

(** X3.  What the generator yields for a row: the row is not the header, the
    id and text are its first two cells, and the attributes are, sorted,
    the non-empty labels outside ATTR_IGNORE found in the columns 3, 5, 7,
    9 and 11, so at most five. *)
Theorem gen_sen_yields (fn : string) (i : nat) (row : list cell) (sen : sen_row) :
  gen_sen fn i row = Ok (Some sen) →
  i ≠ 0 ∧ row !! 0 = Some (Some (row_id sen)) ∧ row !! 1 = Some (row_text sen)
  ∧ Sorted String.le (row_attributes sen)
  ∧ length (row_attributes sen) ≤ 5
  ∧ ∀ a, a ∈ row_attributes sen
         ↔ a ≠ EmptyString ∧ (a ∉ ATTR_IGNORE)
           ∧ ∃ j, j < 5 ∧ row !! (3 + 2 * j) = Some (Some a).
Proof. apply gen_sen_Some. Qed.

(** ** load_data: what every loaded state satisfies *)

(** A property kept by every merge of a yielded sentence and by every
    registration of an annotator holds after the files. *)
Lemma load_rows_ind_rows (P : lstate → Prop) fn ann :
  (∀ i row sen st st' r, gen_sen fn i row = Ok (Some sen) →
     ann < length (annotator_vocab st) → P st →
     merge_sen fn ann sen st = (st', r) → P st') →
  ∀ rows i st st' r, ann < length (annotator_vocab st) → P st →
    load_rows fn ann i rows st = (st', r) → P st'.
Proof.
  intros Hstep rows. induction rows as [|row rows IH]; intros i st st' r Hann HP; simpl.
  - by intros [= <- _].
  - destruct (gen_sen fn i row) as [e|[sen|]] eqn:Hgen; [by intros [= <- _]| |by apply IH].
    destruct (merge_sen fn ann sen st) as [st1 [e|u]] eqn:Hm.
    + intros [= <- _]. by eapply Hstep.
    + apply IH.
      * by rewrite (merge_sen_annotator_vocab _ _ _ _ _ _ Hm).
      * by eapply Hstep.
Qed.

Lemma load_files_ind_rows (P : lstate → Prop) :
  (∀ st name i v, Vocabulary.get_id (lower name) true (annotator_vocab st) = Ok (i, v) →
     P st → P (set_annotator_vocab v st)) →
  (∀ fn ann i row sen st st' r, gen_sen fn i row = Ok (Some sen) →
     ann < length (annotator_vocab st) → P st →
     merge_sen fn ann sen st = (st', r) → P st') →
  ∀ fs st st' r, P st → load_files fs st = (st', r) → P st'.
Proof.
  intros Hvocab Hstep fs. induction fs as [|f fs IH]; intros st st' r HP; simpl.
  - by intros [= <- _].
  - assert (∀ st1 r1, load_file f st = (st1, r1) → P st1) as Hfile.
    { intros st1 r1. unfold load_file.
      destruct (annotator_of_filename (file_name f)) as [e|name]; [by intros [= <- _]|].
      destruct (Vocabulary.get_id (lower name) true (annotator_vocab st))
        as [e|[ann v]] eqn:Hid; [by intros [= <- _]|].
      apply load_rows_ind_rows; [by apply Hstep| |by eapply Hvocab].
      destruct (get_id_new (lower name) (annotator_vocab st)) as (i & v' & Hid' & _ & _ & Hlt).
      rewrite Hid in Hid'. by injection Hid' as -> ->. }
    destruct (load_file f st) as [st1 [e|u]] eqn:Hf.
    + intros [= <- _]. by eapply Hfile.
    + apply IH. by eapply Hfile.
Qed.

Lemma get_id_NoDup (w : string) (v v' : Vocabulary.t) (i : nat) :
  Vocabulary.get_id w true v = Ok (i, v') → NoDup v →
  NoDup v' ∧ ∀ w', w' ∈ v' ↔ w' ∈ v ∨ w' = w.
Proof.
  unfold Vocabulary.get_id. destruct (Vocabulary.find_word w v) as [j|] eqn:E.
  - intros [= <- <-] Hnd. split; [done|]. intros w'. split; [by left|].
    intros [?| ->]; [done|]. apply find_word_Some in E. by eapply list_elem_of_lookup_2.
  - intros [= <- <-] Hnd. apply find_word_None in E. split.
    + apply NoDup_app. split_and!; [done| |apply NoDup_singleton].
      intros x Hx Hx'. apply list_elem_of_singleton in Hx' as ->. done.
    + intros w'. rewrite elem_of_app, list_elem_of_singleton. done.
Qed.

Lemma intern_attrs_NoDup (attrs : list string) (v v' : Vocabulary.t) (ids : list nat) :
  intern_attrs attrs v = Ok (ids, v') → NoDup v →
  NoDup v' ∧ ∀ w, w ∈ v' → w ∈ v ∨ ∃ a, a ∈ attrs ∧ w = preprocess_attr a.
Proof.
  revert v ids. induction attrs as [|a attrs IH]; intros v ids H Hnd; simpl in H.
  - injection H as <- <-. split; [done|]. intros w Hw. by left.
  - apply rbind_Ok in H as ([i v1] & Hid & H).
    apply rbind_Ok in H as ([ids' v2] & Hrest & [= <- <-]).
    destruct (get_id_NoDup _ _ _ _ Hid Hnd) as [Hnd1 Hin1].
    destruct (IH _ _ Hrest Hnd1) as [Hnd2 Hin2]. split; [done|].
    intros w Hw. destruct (Hin2 w Hw) as [Hw1|(a' & Ha' & ->)].
    + apply Hin1 in Hw1 as [?| ->]; [by left|]. right. exists a. split; [left|done].
    + right. exists a'. split; [by right|done].
Qed.

Lemma lower_ascii_idemp (c : ascii) : lower_ascii (lower_ascii c) = lower_ascii c.
Proof. by destruct c as [[] [] [] [] [] [] [] []]. Qed.

Lemma lower_idemp (s : string) : lower (lower s) = lower s.
Proof. induction s as [|c s IH]; simpl; [done|]. by rewrite lower_ascii_idemp, IH. Qed.

Lemma NoDup_dkeys_ensure_all (attrs : list nat) (c : dict nat nat) :
  NoDup (dkeys c) → NoDup (dkeys (ensure_all attrs c)).
Proof.
  unfold ensure_all. revert c. induction attrs as [|x attrs IH]; intros c Hnd; simpl; [done|].
  apply IH. destruct (dmem x c); [done|]. by apply NoDup_dkeys_dset.
Qed.

Lemma preprocess_attr_cases (a : string) :
  preprocess_attr a = a ∧ a ∉ REPLACEMENT_PAIRS.*1
  ∨ a ∈ REPLACEMENT_PAIRS.*1 ∧ preprocess_attr a = "DachneigungMax"%string.
Proof.
  unfold preprocess_attr, REPLACEMENT_PAIRS. simpl.
  destruct (decide (a = "BBDachneigungMax"%string)) as [->|Hne].
  - right. split; [left|done].
  - left. split; [done|]. intros Hin. by apply list_elem_of_singleton in Hin.
Qed.

(** X4.  The replacement of labels is idempotent: its result is never a
    replaced label, and a label that is not replaced is kept. *)
Theorem preprocess_attr_idempotent (a : string) :
  preprocess_attr (preprocess_attr a) = preprocess_attr a
  ∧ (preprocess_attr a ∉ REPLACEMENT_PAIRS.*1)
  ∧ (a ∉ REPLACEMENT_PAIRS.*1 → preprocess_attr a = a).
Proof.
  assert (preprocess_attr "DachneigungMax" = "DachneigungMax"%string) as Hfix by done.
  assert ("DachneigungMax"%string ∉ REPLACEMENT_PAIRS.*1) as Hnot.
  { intros Hin. by apply list_elem_of_singleton in Hin. }
  destruct (preprocess_attr_cases a) as [[Ha Hn]|[Hin Ha]]; rewrite Ha.
  - by rewrite Ha.
  - split_and!; [done..|]. by intros [].
Qed.

Lemma merge_sen_loaded_ok fn ann i row sen st st' r :
  gen_sen fn i row = Ok (Some sen) →
  ann < length (annotator_vocab st) → loaded_ok st →
  merge_sen fn ann sen st = (st', r) → loaded_ok st'.
Proof using set_iter_ok.
  intros Hgen Hann Hok H.
  destruct (merge_sen_cases _ _ _ _ _ _ H Hann)
    as [[-> _]|(_ & rec0 & ids & av & w & Hrec0 & Hnew & Hint & Hw & ->)]; [done|].
  destruct Hok as (Hdata & Hav & Hnv & Hwords & Hlower & Hrecs).
  destruct (intern_attrs_NoDup _ _ _ _ Hint Hav) as [Hav' Hin'].
  apply gen_sen_Some in Hgen as (_ & _ & _ & _ & _ & Hattrs).
  unfold loaded_ok. simpl. split_and!; [by apply NoDup_dkeys_dset|done|done| |done|].
  - intros w' Hw'. destruct (Hin' w' Hw') as [?|(a & Ha & ->)]; [by apply Hwords|].
    apply set_iter_ok, Hattrs in Ha as (Hne & Hign & _).
    destruct (preprocess_attr_cases a) as [[-> ?]|[_ ->]]; [done|].
    split_and!; [done| |].
    + intros Hin. repeat (apply elem_of_cons in Hin as [Hin|Hin]; [done|]).
      by apply elem_of_nil in Hin.
    + intros Hin. apply list_elem_of_singleton in Hin. done.
  - intros sid sen' Hin. apply elem_of_dset in Hin as [[= -> ->]|Hin]; [|by apply Hrecs].
    assert (sen_id rec0 = row_id sen ∧ NoDup (dkeys (annot rec0))
            ∧ NoDup (dkeys (attr_stats rec0)) ∧ full_agreement rec0 = None
            ∧ ∀ ann' attrs, (ann', attrs) ∈ annot rec0
                → ann' < length (annotator_vocab st)) as (Hid & Hk1 & Hk2 & Hfa & Hanns).
    { destruct Hrec0 as [[Hrec0 _]|[_ ->]].
      - apply dget_Some_elem_of in Hrec0. by apply Hrecs.
      - simpl. split_and!; [done|apply NoDup_nil_2|apply NoDup_nil_2|done|].
        intros ?? Hin. by apply elem_of_nil in Hin. }
    simpl. split_and!; [done|by apply NoDup_dkeys_dset| |done|].
    + unfold update_attr_stats. destruct (decide (w ≠ gold)).
      * by apply NoDup_dkeys_incr_all.
      * by apply NoDup_dkeys_ensure_all.
    + intros ann' attrs Hin. apply elem_of_dset in Hin as [[= -> ->]|Hin]; [done|].
      by eapply Hanns.
Qed.

(** X5.  Whatever files are given and however the load ends, the state reached
    is well-formed: distinct keys everywhere, records under their own id,
    only known annotators, lower-case annotator names, and an attribute
    vocabulary without empty, ignored or replaced labels (BBDachneigungMax
    is never a word of its own). *)
Theorem load_data_well_formed (filenames : list xlsx_file) (st : lstate) (r : result unit) :
  load_data filenames = (st, r) → loaded_ok st.
Proof using set_iter_ok.
  apply (load_files_ind_rows loaded_ok).
  - intros st0 name i v Hid (Hdata & Hav & Hnv & Hwords & Hlower & Hrecs).
    destruct (get_id_NoDup _ _ _ _ Hid Hnv) as [Hnv' Hin'].
    destruct (get_id_new (lower name) (annotator_vocab st0)) as (i' & v' & Hid' & Hpre & _).
    rewrite Hid in Hid'. injection Hid' as <- <-.
    unfold loaded_ok. simpl. split_and!; [done..| |].
    + intros w Hw. apply Hin' in Hw as [?| ->]; [by apply Hlower|apply lower_idemp].
    + intros sid sen Hin. destruct (Hrecs sid sen Hin) as (? & ? & ? & ? & Hanns).
      split_and!; [done..|]. intros ann attrs Hattrs. specialize (Hanns _ _ Hattrs).
      apply prefix_length in Hpre. lia.
  - intros fn ann i row sen st0 st1 r0. apply merge_sen_loaded_ok.
  - unfold loaded_ok, init_lstate. simpl.
    split_and!; try apply NoDup_nil_2.
    + intros ? Hin. by apply elem_of_nil in Hin.
    + intros ? Hin. by apply elem_of_nil in Hin.
    + intros ?? Hin. by apply elem_of_nil in Hin.
Qed.

(** X6.  The stored lists are sorted, and their ids are ids of the attribute
    vocabulary, whatever files are given and however the load ends. *)
Theorem load_data_lists_sorted_known (filenames : list xlsx_file) (st : lstate)
    (r : result unit) :
  load_data filenames = (st, r) →
  ∀ sid sen ann attrs, (sid, sen) ∈ data st → (ann, attrs) ∈ annot sen →
    Sorted le attrs ∧ ∀ a, a ∈ attrs → ∃ w, attr_vocab st !! a = Some w.
Proof.
  intros Hload sid sen ann attrs Hin Hattrs.
  destruct (load_data_lists_ok _ _ _ Hload sid sen ann attrs Hin Hattrs) as [Hsorted Hlt].
  split; [done|]. intros a Ha. apply lookup_lt_is_Some_2. by apply Hlt.
Qed.

Lemma sum_stat_of_NoDup (nv : Vocabulary.t) (a : nat) (l : dict nat (list nat)) :
  (∀ ann attrs, (ann, attrs) ∈ l → NoDup attrs ∧ ann < length nv) →
  sum_list (stat_of nv a <$> l) = length (filter (selected_by nv a) l).
Proof.
  induction l as [|[ann attrs] l IH]; intros Hl; [done|].
  rewrite sum_list_fmap_cons, IH by (intros ???; apply Hl; by right).
  destruct (Hl ann attrs) as [Hnd Hlt]; [left|].
  apply lookup_lt_is_Some_2 in Hlt as [w Hw].
  rewrite filter_cons. unfold stat_of. cbn [fst snd]. rewrite Hw.
  rewrite (occurrences_NoDup _ _ Hnd).
  destruct (decide (w = gold)) as [->|Hne].
  - rewrite decide_False; [done|]. intros [Hn _]. cbn [fst] in Hn. by rewrite Hw in Hn.
  - destruct (decide (a ∈ attrs)).
    + rewrite decide_True; [done|]. split; cbn [fst snd]; [|done].
      rewrite Hw. by intros [= ->].
    + rewrite decide_False; [done|]. by intros [_ ?].
Qed.

(** X7.  After loading, the attr_stats of a sentence hold, for every attribute,
    the occurrences of the attribute in the lists of the annotators other
    than gold; when no list has a duplicate this is the number of those
    annotators who selected it; and every attribute of some list, also one
    that only gold selected, has an entry. *)
Theorem load_data_attr_stats (filenames : list xlsx_file) (st : lstate) (r : result unit)
    (sid : string) (sen : sentence) (a : nat) :
  load_data filenames = (st, r) → (sid, sen) ∈ data st →
  counter_get a (attr_stats sen) = sum_list (stat_of (annotator_vocab st) a <$> annot sen)
  ∧ ((∀ ann attrs, (ann, attrs) ∈ annot sen → NoDup attrs) →
     counter_get a (attr_stats sen)
     = length (filter (selected_by (annotator_vocab st) a) (annot sen)))
  ∧ ((∃ ann attrs, (ann, attrs) ∈ annot sen ∧ a ∈ attrs) →
     is_Some (dget a (attr_stats sen))).
Proof.
  intros Hload Hin.
  destruct (load_data_attr_stats_ok _ _ _ Hload sid sen Hin) as [Hkeys Hstats].
  destruct (Hstats a) as [Hsum Hpresent]. split_and!; [done| |].
  - intros Hnd. rewrite Hsum. apply sum_stat_of_NoDup.
    intros ann attrs Hattrs. split; [by eapply Hnd|by eapply Hkeys].
  - intros (ann & attrs & Hattrs & Ha). by eapply Hpresent.
Qed.

(** ** The annotator of a file name *)

Lemma split_on_ne (sep : ascii) (s : string) : split_on sep s ≠ [].
Proof.
  induction s as [|c s IH]; simpl; [done|].
  destruct (decide (c = sep)); [done|]. by destruct (split_on sep s).
Qed.

Lemma append_cons (c : ascii) (s1 s2 : string) :
  (String c s1 +:+ s2)%string = String c (s1 +:+ s2).
Proof. reflexivity. Qed.

Lemma append_empty_l (s : string) : (EmptyString +:+ s)%string = s.
Proof. reflexivity. Qed.

Lemma append_empty_r (s : string) : (s +:+ EmptyString)%string = s.
Proof. induction s as [|c s IH]; [done|]. by rewrite append_cons, IH. Qed.

Lemma append_assoc (s1 s2 s3 : string) :
  ((s1 +:+ s2) +:+ s3)%string = (s1 +:+ s2 +:+ s3)%string.
Proof. induction s1 as [|c s1 IH]; [done|]. by rewrite !append_cons, IH. Qed.

Lemma chars_app (s1 s2 : string) :
  list_ascii_of_string (s1 +:+ s2) = list_ascii_of_string s1 ++ list_ascii_of_string s2.
Proof. induction s1 as [|c s1 IH]; [done|]. rewrite append_cons. simpl. by rewrite IH. Qed.

(** A prefix without the separator stays in the first part. *)
Lemma split_on_prefix (sep : ascii) (s1 s2 : string) :
  sep ∉ list_ascii_of_string s1 →
  split_on sep (s1 +:+ s2)
  = match split_on sep s2 with
    | [] => []
    | w :: ws => (s1 +:+ w)%string :: ws
    end.
Proof.
  induction s1 as [|c s1 IH]; intros Hsep.
  - rewrite append_empty_l. by destruct (split_on sep s2).
  - simpl in Hsep. apply not_elem_of_cons in Hsep as [Hc Hsep].
    rewrite append_cons. simpl. rewrite decide_False by done. rewrite IH by done.
    pose proof (split_on_ne sep s2). by destruct (split_on sep s2).
Qed.

(** [(s1 + sep + s2).split(sep) = s1.split(sep) + s2.split(sep)] *)
Lemma split_on_app (sep : ascii) (s1 s2 : string) :
  split_on sep (s1 +:+ String sep s2) = split_on sep s1 ++ split_on sep s2.
Proof.
  induction s1 as [|c s1 IH].
  - rewrite append_empty_l. simpl. by rewrite decide_True.
  - rewrite append_cons. simpl. destruct (decide (c = sep)); [by rewrite IH|].
    rewrite IH. pose proof (split_on_ne sep s1). by destruct (split_on sep s1).
Qed.

Lemma split_on_plain (sep : ascii) (s : string) :
  sep ∉ list_ascii_of_string s → split_on sep s = [s].
Proof.
  intros Hsep. pose proof (split_on_prefix sep s EmptyString Hsep) as H.
  simpl in H. by rewrite !append_empty_r in H.
Qed.

Lemma basename_app (dir rest : string) :
  "/"%char ∉ list_ascii_of_string rest →
  basename (dir +:+ String "/" rest) = rest.
Proof.
  intros Hrest. unfold basename. rewrite split_on_app, (split_on_plain _ rest) by done.
  apply last_last.
Qed.

Lemma plain_app (s1 s2 : string) (c sep : ascii) :
  c ∉ list_ascii_of_string s1 → c ∉ list_ascii_of_string s2 → c ≠ sep →
  c ∉ list_ascii_of_string (s1 +:+ String sep s2).
Proof.
  intros H1 H2 Hne. rewrite chars_app. simpl. rewrite elem_of_app, elem_of_cons.
  intros [?|[?|?]]; done.
Qed.

(** What the loader makes of a file name [name.xlsx], with or without a
    directory, when [name] has no slash and no dot. *)
Lemma annotator_of_name (name : string) :
  "/"%char ∉ list_ascii_of_string name → "."%char ∉ list_ascii_of_string name →
  let r := match split_on "_" name with
           | [_; annotator; _] => Ok annotator
           | [_; annotator] => Ok annotator
           | _ => Raise UnpackError
           end in
  (∀ dir, annotator_of_filename (dir +:+ "/" +:+ name +:+ ".xlsx") = r)
  ∧ annotator_of_filename (name +:+ ".xlsx") = r.
Proof.
  intros Hslash Hdot r.
  assert (split_on "." (name +:+ ".xlsx") = [name; "xlsx"%string]) as Hext.
  { rewrite split_on_prefix by done. simpl. by rewrite append_empty_r. }
  assert ("/"%char ∉ list_ascii_of_string (name +:+ ".xlsx")) as Hns.
  { apply plain_app; [done| |done]. simpl. intros Hin.
    repeat (apply elem_of_cons in Hin as [?|Hin]; [done|]). by apply elem_of_nil in Hin. }
  split.
  - intros dir. unfold annotator_of_filename.
    change (dir +:+ "/" +:+ name +:+ ".xlsx")%string
      with (dir +:+ String "/" (name +:+ ".xlsx"))%string.
    rewrite basename_app by done. rewrite Hext. by rewrite decide_True.
  - unfold annotator_of_filename, basename.
    rewrite (split_on_plain "/") by done. simpl. rewrite Hext. by rewrite decide_True.
Qed.

(** X8.  Of a path whose file name is [doc_annotator.xlsx] or
    [doc_annotator_date.xlsx], with or without a directory (which may hold
    any character), the loader takes the annotator. *)
Theorem annotator_of_filename_round_trip (dir doc ann date : string) :
  plain doc → plain ann → plain date →
  annotator_of_filename (dir +:+ "/" +:+ doc +:+ "_" +:+ ann +:+ ".xlsx") = Ok ann
  ∧ annotator_of_filename (dir +:+ "/" +:+ doc +:+ "_" +:+ ann +:+ "_" +:+ date +:+ ".xlsx")
    = Ok ann
  ∧ annotator_of_filename (doc +:+ "_" +:+ ann +:+ ".xlsx") = Ok ann
  ∧ annotator_of_filename (doc +:+ "_" +:+ ann +:+ "_" +:+ date +:+ ".xlsx") = Ok ann.
Proof.
  intros Hdoc Hann Hdate.
  assert ("/"%char ∈ ["/"; "."; "_"]%char) as Hslash by (left).
  assert ("."%char ∈ ["/"; "."; "_"]%char) as Hdot by (right; left).
  assert ("_"%char ∈ ["/"; "."; "_"]%char) as Hund by (right; right; left).
  assert (split_on "_" (doc +:+ "_" +:+ ann) = [doc; ann]) as Htwo.
  { rewrite split_on_prefix by by apply Hdoc. rewrite append_cons, append_empty_l. simpl.
    rewrite (split_on_plain _ ann) by by apply Hann. by rewrite append_empty_r. }
  assert (split_on "_" (doc +:+ "_" +:+ ann +:+ "_" +:+ date) = [doc; ann; date]) as Hthree.
  { rewrite split_on_prefix by by apply Hdoc. rewrite append_cons, append_empty_l. simpl.
    rewrite split_on_prefix by by apply Hann. rewrite append_cons, append_empty_l. simpl.
    rewrite (split_on_plain _ date) by by apply Hdate. by rewrite !append_empty_r. }
  assert (∀ c, c ∈ ["/"; "."; "_"]%char → c ≠ "_"%char →
            c ∉ list_ascii_of_string (doc +:+ "_" +:+ ann)) as Hn2.
  { intros c Hc Hne. apply plain_app; [by apply Hdoc|by apply Hann|done]. }
  assert (∀ c, c ∈ ["/"; "."; "_"]%char → c ≠ "_"%char →
            c ∉ list_ascii_of_string (doc +:+ "_" +:+ ann +:+ "_" +:+ date)) as Hn3.
  { intros c Hc Hne. apply plain_app; [by apply Hdoc| |done].
    apply plain_app; [by apply Hann|by apply Hdate|done]. }
  destruct (annotator_of_name (doc +:+ "_" +:+ ann)) as [H1 H2]; [by apply Hn2..|].
  destruct (annotator_of_name (doc +:+ "_" +:+ ann +:+ "_" +:+ date)) as [H3 H4];
    [by apply Hn3..|].
  rewrite Htwo in H1, H2. rewrite Hthree in H3, H4.
  split_and!; [|  | |].
  - rewrite <-(H1 dir). by rewrite !append_assoc.
  - rewrite <-(H3 dir). by rewrite !append_assoc.
  - rewrite <-H2. by rewrite !append_assoc.
  - rewrite <-H4. by rewrite !append_assoc.
Qed.

(** ** load_data: failures at the start of a file, and what is stored *)

(** X9.  A workbook whose first row does not start with Sentence_ID is
    rejected before any of its rows is read; its annotator is registered
    by then. *)
Theorem load_file_rejects_header (f : xlsx_file) (st : lstate) (name : string)
    (c : cell) (row : list cell) (rows : list (list cell)) :
  annotator_of_filename (file_name f) = Ok name →
  file_rows f = (c :: row) :: rows → c ≠ Some "Sentence_ID"%string →
  ∃ st', load_file f st = (st', Raise (UnexpectedHeader (file_name f)))
    ∧ data st' = data st ∧ attr_vocab st' = attr_vocab st
    ∧ annotator_vocab st `prefix_of` annotator_vocab st'
    ∧ lower name ∈ annotator_vocab st'.
Proof.
  intros Hname Hrows Hc. unfold load_file. rewrite Hname.
  destruct (get_id_new (lower name) (annotator_vocab st)) as (i & v & -> & Hpre & Hfind & _).
  rewrite Hrows. simpl. rewrite decide_False by done.
  eexists. split_and!; [done..|]. simpl.
  apply find_word_Some in Hfind. by eapply list_elem_of_lookup_2.
Qed.

Lemma merge_sen_attr_prefix fn ann sen st st' r :
  ann < length (annotator_vocab st) →
  merge_sen fn ann sen st = (st', r) → attr_vocab st `prefix_of` attr_vocab st'.
Proof.
  intros Hann H.
  destruct (merge_sen_cases _ _ _ _ _ _ H Hann)
    as [[-> _]|(_ & rec0 & ids & av & w & _ & _ & Hint & _ & ->)]; [done|]. simpl.
  destruct (intern_attrs_Ok (set_iter (row_attributes sen)) (attr_vocab st))
    as (ids' & av' & Hint' & Hpre & _).
  rewrite Hint in Hint'. by injection Hint' as -> ->.
Qed.

Lemma load_rows_attr_prefix fn ann rows i st st' r :
  ann < length (annotator_vocab st) →
  load_rows fn ann i rows st = (st', r) → attr_vocab st `prefix_of` attr_vocab st'.
Proof.
  intros Hann. apply (load_rows_ind (λ s, attr_vocab st `prefix_of` attr_vocab s)); [|done..].
  intros sen st1 st2 r1 Hann1 Hpre Hm. etrans; [done|]. by eapply merge_sen_attr_prefix.
Qed.

Lemma load_files_attr_prefix fs st st' r :
  load_files fs st = (st', r) → attr_vocab st `prefix_of` attr_vocab st'.
Proof.
  apply (load_files_ind (λ s, attr_vocab st `prefix_of` attr_vocab s)); [| |done].
  - by intros st1 v Hpre _.
  - intros fn ann sen st1 st2 r1 Hann1 Hpre Hm. etrans; [done|].
    by eapply merge_sen_attr_prefix.
Qed.

(** What is stored stays stored. *)
Lemma stored_keeps (st st' : lstate) (name : string) (sen : sen_row) :
  extends st st' → attr_vocab st `prefix_of` attr_vocab st' →
  stored st name sen → stored st' name sen.
Proof.
  intros [Hnv Hrecs] Hav (rec & ann & attrs & Hrec & Htext & Hann & Hattrs & Hin & Hout).
  destruct (Hrecs _ _ Hrec) as (rec' & Hrec' & _ & Htext' & Hannot).
  exists rec', ann, attrs. split_and!.
  - done.
  - congruence.
  - by eapply find_word_prefix.
  - by apply Hannot.
  - intros w Hw. destruct (Hin w Hw) as (a & Ha & ?). exists a. split; [|done].
    by eapply find_word_prefix.
  - intros a Ha. destruct (Hout a Ha) as (w & Hw & ?). exists w. split; [done|].
    by eapply find_word_prefix.
Qed.

(** A merge that completes stores the sentence. *)
Lemma merge_sen_stored fn ann name sen st st' :
  Vocabulary.find_word name (annotator_vocab st) = Some ann →
  merge_sen fn ann sen st = (st', Ok ()) → stored st' name sen.
Proof using set_iter_ok.
  intros Hname H.
  assert (ann < length (annotator_vocab st)) as Hann.
  { apply find_word_Some in Hname. by eapply lookup_lt_Some. }
  destruct (merge_sen_cases _ _ _ _ _ _ H Hann)
    as [(_ & rec & _ & [[_ ?]|(_ & _ & ?)])
       |(_ & rec0 & ids & av & w & Hrec0 & Hnew & Hint & Hw & ->)]; [done..|].
  destruct (intern_attrs_Ok (set_iter (row_attributes sen)) (attr_vocab st))
    as (ids' & av' & Hint' & _ & Hids).
  rewrite Hint in Hint'. injection Hint' as <- <-.
  eexists _, ann, (sorted_nat ids). simpl. split_and!.
  - apply dget_dset_eq.
  - simpl. by destruct Hrec0 as [[_ ?]|[_ ->]].
  - done.
  - simpl. apply dget_dset_eq.
  - intros w' Hw'. apply set_iter_ok in Hw'. apply list_elem_of_lookup in Hw' as [j Hj].
    destruct (Forall2_lookup_l _ _ _ _ _ Hids Hj) as (a & Ha & Hfind).
    exists a. split; [done|]. apply elem_of_sorted_nat. by eapply list_elem_of_lookup_2.
  - intros a Ha. rewrite elem_of_sorted_nat in Ha. apply list_elem_of_lookup in Ha as [j Hj].
    destruct (Forall2_lookup_r _ _ _ _ _ Hids Hj) as (w' & Hw' & Hfind).
    exists w'. split; [|done]. apply set_iter_ok. by eapply list_elem_of_lookup_2.
Qed.

Lemma load_rows_stored fn ann name rows :
  ∀ i0 st st',
    Vocabulary.find_word name (annotator_vocab st) = Some ann →
    load_rows fn ann i0 rows st = (st', Ok ()) →
    ∀ k row sen, rows !! k = Some row → gen_sen fn (i0 + k) row = Ok (Some sen) →
      stored st' name sen.
Proof using set_iter_ok.
  induction rows as [|row0 rows IH]; intros i0 st st' Hname Hload k row sen Hk Hgen;
    [done|].
  assert (ann < length (annotator_vocab st)) as Hann.
  { apply find_word_Some in Hname. by eapply lookup_lt_Some. }
  cbn [load_rows] in Hload. destruct k as [|k]; simpl in Hk.
  - injection Hk as ->. rewrite Nat.add_0_r in Hgen. rewrite Hgen in Hload.
    destruct (merge_sen fn ann sen st) as [st1 [e|[]]] eqn:Hm; [done|].
    assert (ann < length (annotator_vocab st1)) as Hann1
      by by rewrite (merge_sen_annotator_vocab _ _ _ _ _ _ Hm).
    eapply stored_keeps;
      [by eapply load_rows_extends|by eapply load_rows_attr_prefix|by eapply merge_sen_stored].
  - replace (i0 + S k) with (S i0 + k) in Hgen by lia.
    destruct (gen_sen fn i0 row0) as [e|[sen0|]]; [done| |by eapply IH].
    destruct (merge_sen fn ann sen0 st) as [st1 [e|[]]] eqn:Hm; [done|].
    eapply (IH (S i0) st1); [|done..].
    by rewrite (merge_sen_annotator_vocab _ _ _ _ _ _ Hm).
Qed.

(** X10.  When the load completes, every sentence that the generator yields for
    a row of one of the files is stored: [data] has a record under its id
    with its text, and this record has, under the id of the annotator of
    the file (in lower case), the ids of exactly the labels of the row,
    after replacement. *)
Theorem load_data_stores_every_sentence (filenames : list xlsx_file) (st : lstate)
    (f : xlsx_file) (name : string) (i : nat) (row : list cell) (sen : sen_row) :
  load_data filenames = (st, Ok ()) →
  f ∈ filenames → annotator_of_filename (file_name f) = Ok name →
  file_rows f !! i = Some row → gen_sen (file_name f) i row = Ok (Some sen) →
  stored st (lower name) sen.
Proof using set_iter_ok.
  unfold load_data. generalize init_lstate.
  induction filenames as [|f0 fs IH]; intros st0 Hload Hf Hname Hrow Hgen.
  - by apply elem_of_nil in Hf.
  - cbn [load_files] in Hload. destruct (load_file f0 st0) as [st1 [e|[]]] eqn:Hf0; [done|].
    apply elem_of_cons in Hf as [->|Hf]; [|by eapply IH].
    eapply stored_keeps;
      [by eapply load_files_extends|by eapply load_files_attr_prefix|].
    destruct (load_file_start f0 st0)
      as [[e He]|(name' & ann & v & Hname' & _ & Hfind & _ & Hrows)]; [congruence|].
    rewrite Hname in Hname'. injection Hname' as <-. rewrite Hf0 in Hrows. symmetry in Hrows.
    exact (load_rows_stored (file_name f0) ann (lower name) (file_rows f0) 0
             (set_annotator_vocab v st0) st1 Hfind Hrows i row sen Hrow Hgen).
Qed.

(** ** add_votes: when it completes, and what the three lists hold *)

Lemma rmap_Raise {A B} (body : A → result B) (l : list A) (e : exn) :
  rmap body l = Raise e → ∃ x, x ∈ l ∧ body x = Raise e.
Proof.
  induction l as [|x l IH]; simpl; [done|].
  destruct (body x) as [e'|y] eqn:Hx; simpl.
  - intros [= ->]. exists x. split; [left|done].
  - destruct (rmap body l) as [e'|ys]; simpl; [|done].
    intros [= ->]. destruct IH as (x' & ? & ?); [done|]. exists x'. split; [by right|done].
Qed.

(** The three names are always registered. *)
Lemma register_votes_Ok (nv : Vocabulary.t) :
  ∃ vote_anns nv', register_votes nv = Ok (vote_anns, nv') ∧ nv `prefix_of` nv'.
Proof.
  unfold register_votes. cbn [rfold].
  destruct (get_id_new (min_name 1) nv) as (i1 & v1 & -> & Hp1 & _). cbn [rbind].
  destruct (get_id_new (min_name 2) v1) as (i2 & v2 & -> & Hp2 & _). cbn [rbind].
  destruct (get_id_new (min_name 3) v2) as (i3 & v3 & -> & Hp3 & _). cbn [rbind].
  eexists _, _. split; [done|]. by repeat (etrans; [done|]).
Qed.

(** The loop of lines 121-125 completes iff every annotator other than
    gold has an entry, and fails with the first one that has none. *)
Lemma count_votes_from_result (l : list nat) (nv : Vocabulary.t) (sen : sentence)
    (c0 : dict nat nat) :
  (∀ ann, ann ∈ l → ann < length nv) →
  match rfold (λ ann attr_counter,
           let* w := Vocabulary.get_word ann nv in
           if decide (w = gold) then Ok attr_counter
           else
             let* attrs := dindex KeyError_id ann (annot sen) in
             Ok (incr_all attrs attr_counter)) l c0 with
  | inr _ => ∀ ann w, ann ∈ l → nv !! ann = Some w → w ≠ gold →
               is_Some (dget ann (annot sen))
  | inl e => ∃ ann w, ann ∈ l ∧ nv !! ann = Some w ∧ w ≠ gold
               ∧ dget ann (annot sen) = None ∧ e = KeyError_id ann
  end.
Proof.
  revert c0. induction l as [|ann l IH]; intros c0 Hl.
  - simpl. intros ann w Hin. by apply elem_of_nil in Hin.
  - cbn [rfold]. destruct (lookup_lt_is_Some_2 nv ann) as [w Hw]; [apply Hl; left|].
    unfold Vocabulary.get_word at 1. rewrite Hw. cbn [rbind].
    assert (∀ ann', ann' ∈ l → ann' < length nv) as Hl' by (intros ??; apply Hl; by right).
    destruct (decide (w = gold)) as [->|Hne].
    + specialize (IH c0 Hl'). cbn [rbind]. destruct (rfold _ l c0) as [e|c].
      * destruct IH as (ann' & w' & ? & ?). exists ann', w'. split; [by right|done].
      * intros ann' w' Hin Hw' Hne'. apply elem_of_cons in Hin as [->|Hin]; [congruence|].
        by eapply IH.
    + unfold dindex at 1. destruct (dget ann (annot sen)) as [attrs|] eqn:Hattrs; cbn [rbind].
      * specialize (IH (incr_all attrs c0) Hl'). destruct (rfold _ l _) as [e|c].
        -- destruct IH as (ann' & w' & ? & ?). exists ann', w'. split; [by right|done].
        -- intros ann' w' Hin Hw' Hne'. apply elem_of_cons in Hin as [->|Hin]; [by eexists|].
           by eapply IH.
      * exists ann, w. split_and!; [left|done..].
Qed.

Lemma add_votes_Ok_iff (d : dict string sentence) (av nv : Vocabulary.t) :
  ((∃ d' nv', add_votes d av nv = Ok (d', nv')) ↔ annotated_by_all nv d)
  ∧ ∀ e, add_votes d av nv = Raise e →
      ∃ sid sen ann w, (sid, sen) ∈ d ∧ nv !! ann = Some w ∧ w ≠ gold
        ∧ dget ann (annot sen) = None ∧ e = KeyError_id ann.
Proof.
  destruct (register_votes_Ok nv) as (vote_anns & nv' & Hreg & Hpre).
  assert (∀ ann, ann ∈ Vocabulary.ids nv → ann < length nv') as Hids.
  { intros ann Hann. apply elem_of_seq in Hann. apply prefix_length in Hpre. lia. }
  assert (∀ ann w, nv !! ann = Some w → ann ∈ Vocabulary.ids nv ∧ nv' !! ann = Some w)
    as Hknown.
  { intros ann w Hw. split.
    - apply elem_of_seq. apply lookup_lt_Some in Hw. lia.
    - by eapply prefix_lookup_Some. }
  assert (∀ ann w, ann ∈ Vocabulary.ids nv → nv' !! ann = Some w → nv !! ann = Some w)
    as Hback.
  { intros ann w Hann Hw. apply elem_of_seq in Hann.
    destruct (lookup_lt_is_Some_2 nv ann) as [w' Hw']; [lia|].
    rewrite (prefix_lookup_Some _ _ _ _ Hw' Hpre) in Hw. congruence. }
  unfold add_votes. rewrite Hreg. cbn [rbind]. split; [split|].
  - intros (d' & nv'' & HOk). apply rbind_Ok in HOk as (d1 & Hmap & _).
    apply rmap_Ok in Hmap. intros sid sen ann w Hin Hw Hne.
    apply list_elem_of_lookup in Hin as [j Hj].
    destruct (Forall2_lookup_l _ _ _ _ _ Hmap Hj) as ([sid' sen'] & _ & Hbody).
    apply rbind_Ok in Hbody as (c & Hc & _). unfold count_votes in Hc.
    pose proof (count_votes_from_result (Vocabulary.ids nv) nv' sen [] Hids) as Hres.
    rewrite Hc in Hres. destruct (Hknown _ _ Hw). by eapply Hres.
  - intros Hall.
    destruct (add_votes_entries_Ok nv nv' vote_anns d Hpre Hall) as [d' ->]. by eexists _, _.
  - intros e He.
    destruct (rmap _ d) as [e'|d'] eqn:Hmap; [|done]. injection He as ->.
    apply rmap_Raise in Hmap as ([sid sen] & Hin & Hbody).
    pose proof (count_votes_from_result (Vocabulary.ids nv) nv' sen [] Hids) as Hres.
    unfold count_votes in Hbody. destruct (rfold _ (Vocabulary.ids nv) []) as [e'|c].
    + injection Hbody as ->. destruct Hres as (ann & w & Hann & Hw & ? & ? & ?).
      exists sid, sen, ann, w. split_and!; [done| |done..]. by apply Hback.
    + done.
Qed.

(** X11.  add_votes completes iff every annotator other than gold has an
    entry on every sentence; if not, it fails with the KeyError of such an
    annotator (line 124). *)
Theorem add_votes_completes_iff (d : dict string sentence) (av nv : Vocabulary.t) :
  ((∃ d' nv', add_votes d av nv = Ok (d', nv')) ↔ annotated_by_all nv d)
  ∧ ∀ e, add_votes d av nv = Raise e →
      ∃ sid sen ann w, (sid, sen) ∈ d ∧ nv !! ann = Some w ∧ w ≠ gold
        ∧ dget ann (annot sen) = None ∧ e = KeyError_id ann.
Proof. apply add_votes_Ok_iff. Qed.

Lemma sum_list_pos (l : list nat) : 0 < sum_list l ↔ ∃ x, x ∈ l ∧ 0 < x.
Proof.
  induction l as [|x l IH]; simpl.
  - split; [lia|]. intros (x & Hx & _). by apply elem_of_nil in Hx.
  - split.
    + intros H. destruct (decide (0 < x)).
      * exists x. split; [left|done].
      * destruct IH as [IH _]. destruct IH as (y & ? & ?); [lia|].
        exists y. split; [by right|done].
    + intros (y & Hy & Hpos). apply elem_of_cons in Hy as [->|Hy]; [lia|].
      destruct IH as [_ IH]. assert (0 < sum_list l) by (apply IH; by exists y). lia.
Qed.

(** An attribute has a vote iff an annotator other than gold selected it. *)
Lemma votes_pos (nv : Vocabulary.t) (sen : sentence) (a : nat) :
  0 < votes nv sen a
  ↔ ∃ ann w attrs, nv !! ann = Some w ∧ w ≠ gold
      ∧ dget ann (annot sen) = Some attrs ∧ a ∈ attrs.
Proof.
  unfold votes. rewrite sum_list_pos. split.
  - intros (x & Hx & Hpos). apply list_elem_of_fmap in Hx as (ann & -> & Hann).
    unfold vote_of in Hpos. destruct (nv !! ann) as [w|] eqn:Hw; [|lia].
    destruct (decide (w = gold)); [lia|].
    destruct (dget ann (annot sen)) as [attrs|] eqn:Hattrs; simpl in Hpos.
    + exists ann, w, attrs. split_and!; [done..|]. by apply occurrences_pos.
    + unfold occurrences in Hpos. simpl in Hpos. lia.
  - intros (ann & w & attrs & Hw & Hne & Hattrs & Ha).
    exists (vote_of nv sen a ann). split.
    + apply list_elem_of_fmap. exists ann. split; [done|].
      apply elem_of_seq. apply lookup_lt_Some in Hw. lia.
    + rewrite (vote_of_other _ _ _ _ _ _ Hw Hne Hattrs). by apply occurrences_pos.
Qed.

(** X12.  When no annotator is called min1, min2 or min3: on every record that
    add_votes returns, the list of min3 is within that of min2, which is
    within that of min1; and the list of min1 holds exactly the attributes
    that some annotator other than gold selected (so never one that only
    gold selected). *)
Theorem add_votes_quorums_nested (d d' : dict string sentence) (av nv nv' : Vocabulary.t) :
  (∀ w, w ∈ min_names → w ∉ nv) →
  add_votes d av nv = Ok (d', nv') →
  ∀ sid sen', (sid, sen') ∈ d' →
    ∃ m1 m2 m3,
      dget (length nv) (annot sen') = Some m1
      ∧ dget (length nv + 1) (annot sen') = Some m2
      ∧ dget (length nv + 2) (annot sen') = Some m3
      ∧ m3 ⊆ m2 ∧ m2 ⊆ m1
      ∧ ∀ a, a ∈ m1 ↔ ∃ ann w attrs, nv !! ann = Some w ∧ w ≠ gold
                        ∧ dget ann (annot sen') = Some attrs ∧ a ∈ attrs.
Proof.
  intros Hfresh Hadd sid sen' Hin. rewrite add_votes_fresh in Hadd by done.
  apply rbind_Ok in Hadd as (d1 & Hmap & [= <- <-]). apply rmap_Ok in Hmap.
  apply list_elem_of_lookup in Hin as [j Hj].
  destruct (Forall2_lookup_r _ _ _ _ _ Hmap Hj) as ([sid0 sen] & _ & Hbody).
  apply rbind_Ok in Hbody as (c & Hc & [= <- <-]).
  destruct (write_votes_added nv (nv ++ min_names) sen c) as (_ & _ & _ & _ & Hframe & Hk);
    [by apply prefix_app_r|done|].
  destruct (Hk 1) as (m1 & Hm1 & _ & _ & Hin1); [left|].
  destruct (Hk 2) as (m2 & Hm2 & _ & _ & Hin2); [right; left|].
  destruct (Hk 3) as (m3 & Hm3 & _ & _ & Hin3); [right; right; left|].
  replace (length nv + 1 - 1) with (length nv) in Hm1 by lia.
  replace (length nv + 2 - 1) with (length nv + 1) in Hm2 by lia.
  replace (length nv + 3 - 1) with (length nv + 2) in Hm3 by lia.
  exists m1, m2, m3. split_and!; [done..| | |].
  - intros a Ha. apply Hin2. apply Hin3 in Ha. lia.
  - intros a Ha. apply Hin1. apply Hin2 in Ha. lia.
  - intros a. rewrite Hin1. change (1 ≤ votes nv sen a) with (0 < votes nv sen a).
    rewrite votes_pos. split.
    + intros (ann & w & attrs & Hw & Hne & Hattrs & Ha). exists ann, w, attrs.
      split_and!; [done..| |done]. rewrite Hframe; [done|].
      apply lookup_lt_Some in Hw. intros Hann.
      repeat (apply elem_of_cons in Hann as [->|Hann]; [lia|]). by apply elem_of_nil in Hann.
    + intros (ann & w & attrs & Hw & Hne & Hattrs & Ha). exists ann, w, attrs.
      split_and!; [done..| |done]. rewrite <-Hframe; [done|].
      apply lookup_lt_Some in Hw. intros Hann.
      repeat (apply elem_of_cons in Hann as [->|Hann]; [lia|]). by apply elem_of_nil in Hann.
Qed.

(** ** measure_agreement: when it completes, and the rows of its table *)

Lemma rfold_Ok_each {A St} (body : A → St → result St) (l : list A) (st st' : St) :
  rfold body l st = Ok st' → ∀ x, x ∈ l → ∃ s s', body x s = Ok s'.
Proof.
  revert st. induction l as [|y l IH]; intros st H x Hx; [by apply elem_of_nil in Hx|].
  simpl in H. apply rbind_Ok in H as (st1 & Hy & Hrest).
  apply elem_of_cons in Hx as [->|Hx]; [by eexists _, _|by eapply IH].
Qed.

Lemma rfoldi_Ok_each {A St} (body : nat → A → St → result St) (l : list A) (i : nat)
    (st st' : St) :
  rfoldi body i l st = Ok st' → ∀ x, x ∈ l → ∃ j s s', body j x s = Ok s'.
Proof.
  revert i st. induction l as [|y l IH]; intros i st H x Hx; [by apply elem_of_nil in Hx|].
  simpl in H. apply rbind_Ok in H as (st1 & Hy & Hrest).
  apply elem_of_cons in Hx as [->|Hx]; [by eexists _, _, _|by eapply IH].
Qed.

Lemma rate_all_fully_annotated (d : dict string sentence) (av nv : Vocabulary.t)
    (ratings : tensor) (counts : dict nat (dict nat nat)) :
  rate_all d av nv = Ok (ratings, counts) → fully_annotated nv d.
Proof.
  unfold rate_all. intros H sid sen ann Hin Hann.
  destruct (rfoldi_Ok_each _ _ _ _ _ H _ Hin) as (j & [t c] & [t' c'] & Hbody).
  apply rbind_Ok in Hbody as (t1 & Hrate & _). unfold rate_sen in Hrate.
  destruct (rfold_Ok_each _ _ _ _ Hrate ann) as (s & s' & Hann').
  { apply elem_of_seq. lia. }
  by destruct (dget ann (annot sen)).
Qed.

Lemma inter_pairs_two_annotators (nv : Vocabulary.t) :
  inter_pairs nv ≠ [] ↔ two_annotators nv.
Proof.
  split.
  - intros Hne. destruct (inter_pairs nv) as [|p l] eqn:Hp; [done|].
    assert (p ∈ inter_pairs nv) as Hin by (rewrite Hp; left).
    apply list_elem_of_filter in Hin as [Hng Hin].
    apply annotator_pairs_known in Hin as (H1 & H2 & Hlt).
    exists p.1.1, p.2.1, p.1.2, p.2.2. unfold gold_pair in Hng.
    split_and!; [done..| |]; intros ?; apply Hng; [by left|by right].
  - intros (a1 & a2 & w1 & w2 & Hlt & H1 & H2 & Hn1 & Hn2) Hnil.
    assert (((a1, w1), (a2, w2)) ∈ inter_pairs nv) as Hin; [|by rewrite Hnil in Hin;
      apply elem_of_nil in Hin].
    apply list_elem_of_filter. split.
    + unfold gold_pair. simpl. by intros [?|?].
    + unfold annotator_pairs. apply list_elem_of_bind. exists (a1, w1).
      split; [|by apply elem_of_items].
      unfold row_pairs. apply list_elem_of_bind. exists (a2, w2).
      split; [|by apply elem_of_items]. simpl. rewrite decide_True by done. left.
Qed.

Lemma insert_desc_Permutation {A} (key : A → nat) (x : A) (l : list A) :
  insert_desc key x l ≡ₚ x :: l.
Proof.
  induction l as [|y l IH]; simpl; [done|].
  destruct (key x <? key y); [|done]. rewrite IH. apply Permutation_swap.
Qed.

Lemma sort_desc_Permutation {A} (key : A → nat) (l : list A) : sort_desc key l ≡ₚ l.
Proof.
  unfold sort_desc. induction l as [|x l IH]; simpl; [done|].
  by rewrite insert_desc_Permutation, IH.
Qed.

Lemma insert_desc_Sorted {A} (key : A → nat) (x : A) (l : list A) :
  Sorted (λ y z, key z ≤ key y) l → Sorted (λ y z, key z ≤ key y) (insert_desc key x l).
Proof.
  induction 1 as [|y l Hl IH Hhd]; simpl.
  - by repeat constructor.
  - destruct (key x <? key y) eqn:Hlt.
    + apply Nat.ltb_lt in Hlt. constructor; [done|].
      destruct Hhd as [|z l Hz]; simpl.
      * constructor. lia.
      * destruct (key x <? key z); constructor; [done|lia].
    + apply Nat.ltb_ge in Hlt. constructor; [by constructor|]. by constructor.
Qed.

Lemma sort_desc_Sorted {A} (key : A → nat) (l : list A) :
  Sorted (λ y z, key z ≤ key y) (sort_desc key l).
Proof.
  unfold sort_desc. induction l as [|x l IH]; simpl; [constructor|].
  by apply insert_desc_Sorted.
Qed.

Lemma rate_all_shape (d : dict string sentence) (av nv : Vocabulary.t)
    (ratings : tensor) (counts : dict nat (dict nat nat)) :
  rate_all d av nv = Ok (ratings, counts) →
  tensor_shape (length av) (length nv) (length d) ratings.
Proof.
  intros H. unfold rate_all in H.
  destruct (rate_all_from d [] d av nv _ _ _ _ eq_refl H) as [Hshape _].
  - apply tensor_shape_zeros.
  - intros a' n' j Ha' Hn' Hj. rewrite tget_zeros by done. simpl. done.
  - done.
Qed.

(** After the loop, [ratings[attr]] holds the presence vectors of the
    annotators. *)
Lemma rate_all_slice (d : dict string sentence) (av nv : Vocabulary.t)
    (ratings : tensor) (counts : dict nat (dict nat nat)) (a : nat) :
  rate_all d av nv = Ok (ratings, counts) → a < length av →
  ratings !! a = Some ((λ n, presence_vector d a n) <$> Vocabulary.ids nv).
Proof.
  intros H Ha. destruct (rate_all_shape _ _ _ _ _ H) as [Hlen Hshape].
  destruct (ratings !! a) as [m|] eqn:Hm; [|apply lookup_ge_None in Hm; lia].
  destruct (Hshape _ _ Hm) as [Hlenm _]. f_equal. apply list_eq. intros n.
  rewrite list_lookup_fmap. unfold Vocabulary.ids.
  destruct (decide (n < length nv)) as [Hn|Hn].
  - rewrite lookup_seq_lt by done. simpl.
    pose proof (rate_all_vec _ _ _ _ _ a n H Ha Hn) as Hvec. unfold tensor_vec in Hvec.
    rewrite Hm in Hvec. destruct (m !! n); [by injection Hvec as ->|done].
  - rewrite lookup_seq_ge by lia. simpl. apply lookup_ge_None. lia.
Qed.

Lemma attr_stat_freq (ratings : tensor) (counts : dict nat (dict nat nat))
    (nv : Vocabulary.t) (attr : nat) (name : string) (row : attr_row)
    (slice : list (list nat)) :
  attr_stat ratings counts nv attr name = Ok row → ratings !! attr = Some slice →
  attr_freq row = sum_list (sum_list <$> slice).
Proof.
  unfold attr_stat. intros H Hslice.
  apply rbind_Ok in H as ([ks gks] & Hpairs & H).
  apply rbind_Ok in H as (a & _ & H).
  apply rbind_Ok in H as (ag & _ & H).
  apply rbind_Ok in H as (slice' & Hs & H). rewrite Hslice in Hs. injection Hs as <-.
  apply rbind_Ok in H as (c & _ & [= <-]). done.
Qed.

Lemma Forall2_impl_elem_of {A B} (P Q : A → B → Prop) (l : list A) (k : list B) :
  Forall2 P l k → (∀ x y, x ∈ l → P x y → Q x y) → Forall2 Q l k.
Proof.
  induction 1 as [|x y l k Hxy _ IH]; intros Himpl; constructor.
  - apply Himpl; [left|done].
  - apply IH. intros x' y' Hx'. apply Himpl. by right.
Qed.

(** X13.  The table has one row per attribute, most frequent first; the
    frequency of an attribute counts the lists that hold it, over all
    annotators (gold too) and all sentences. *)
Theorem measure_agreement_rows (d : dict string sentence) (av nv : Vocabulary.t)
    (stats : list attr_row) :
  measure_agreement d av nv = Ok stats →
  Sorted (λ r1 r2, attr_freq r2 ≤ attr_freq r1) stats
  ∧ ∃ rows, stats ≡ₚ rows
      ∧ Forall2 (λ e row, attr_name row = e.2 ∧ attr_freq row = selections d nv e.1)
          (Vocabulary.items av) rows.
Proof.
  unfold measure_agreement. intros H.
  apply rbind_Ok in H as ([ratings counts] & Hrate & H).
  apply rbind_Ok in H as (rows & Hmap & [= <-]). split; [apply sort_desc_Sorted|].
  exists rows. split; [apply sort_desc_Permutation|].
  apply rmap_Ok in Hmap. eapply Forall2_impl_elem_of; [exact Hmap|]. clear Hmap.
  intros [attr name] row Hin Hrow. apply elem_of_items in Hin. simpl.
  destruct (attr_stat_fields _ _ _ _ _ _ Hrow) as [Hname _]. split; [done|].
  assert (attr < length av) as Hattr by by eapply lookup_lt_Some.
  rewrite (attr_stat_freq _ _ _ _ _ _ _ Hrow (rate_all_slice _ _ _ _ _ _ Hrate Hattr)).
  unfold selections. by rewrite <-list_fmap_compose.
Qed.

Lemma tensor_set_Ok (attr ann i : nat) (t : tensor) (n_attr n_ann n_sen : nat) :
  tensor_shape n_attr n_ann n_sen t → attr < n_attr → ann < n_ann → i < n_sen →
  ∃ t', tensor_set attr ann i t = Ok t'.
Proof.
  intros [Hlen Hshape] Ha Hn Hi. unfold tensor_set.
  destruct (lookup_lt_is_Some_2 t attr) as [m Hm]; [lia|]. rewrite Hm.
  destruct (Hshape _ _ Hm) as [Hlenm Hvecs].
  destruct (lookup_lt_is_Some_2 m ann) as [vec Hvec]; [lia|]. rewrite Hvec.
  rewrite decide_True; [by eexists|]. by rewrite (Hvecs _ _ Hvec).
Qed.

Lemma rate_attrs_Ok (ann i : nat) (l : list nat) (t : tensor) (n_attr n_ann n_sen : nat) :
  tensor_shape n_attr n_ann n_sen t → (∀ a, a ∈ l → a < n_attr) → ann < n_ann → i < n_sen →
  ∃ t', rfold (λ attr ratings, tensor_set attr ann i ratings) l t = Ok t'
    ∧ tensor_shape n_attr n_ann n_sen t'.
Proof.
  revert t. induction l as [|a l IH]; intros t Hshape Hl Hn Hi; simpl; [by eexists|].
  destruct (tensor_set_Ok a ann i t _ _ _ Hshape) as [t1 Ht1]; [apply Hl; left|done..|].
  rewrite Ht1. cbn [rbind]. apply IH; [|intros; apply Hl; by right|done..].
  by destruct (tensor_set_spec _ _ _ _ _ _ _ _ Ht1 Hshape).
Qed.

Lemma rate_anns_Ok (i : nat) (sid : string) (sen : sentence) (l : list nat) (t : tensor)
    (n_attr n_ann n_sen : nat) :
  tensor_shape n_attr n_ann n_sen t →
  (∀ ann, ann ∈ l → ann < n_ann ∧ is_Some (dget ann (annot sen))) →
  (∀ ann attrs a, dget ann (annot sen) = Some attrs → a ∈ attrs → a < n_attr) →
  i < n_sen →
  ∃ t', rfold (λ ann ratings,
                 match dget ann (annot sen) with
                 | None => Raise (NoAnnotation ann sid)
                 | Some attrs =>
                     rfold (λ attr ratings, tensor_set attr ann i ratings) attrs ratings
                 end) l t = Ok t'
    ∧ tensor_shape n_attr n_ann n_sen t'.
Proof.
  revert t. induction l as [|ann l IH]; intros t Hshape Hl Hattrs Hi; simpl; [by eexists|].
  destruct (Hl ann) as [Hann [attrs Hann']]; [left|]. rewrite Hann'.
  destruct (rate_attrs_Ok ann i attrs t _ _ _ Hshape) as (t1 & Ht1 & Hshape1);
    [by intros a Ha; eapply Hattrs|done..|].
  rewrite Ht1. cbn [rbind]. apply IH; [done| |done..]. intros ann' Hin. apply Hl. by right.
Qed.

Lemma count_sen_Ok (sen : sentence) (counts : dict nat (dict nat nat)) (n : nat) :
  (∀ a, a < n → is_Some (dget a counts)) →
  (∀ a, a ∈ dkeys (attr_stats sen) → a < n) →
  ∃ counts', count_sen sen counts = Ok counts'
    ∧ ∀ a, a < n → is_Some (dget a counts').
Proof.
  unfold count_sen. generalize (attr_stats sen). intros l. revert counts.
  induction l as [|[attr count] l IH]; intros counts Hc Hl; simpl; [by eexists|].
  destruct (Hc attr) as [c Hattr]; [apply Hl; left|].
  unfold dindex at 1. rewrite Hattr. cbn [rbind]. apply IH.
  - intros a Ha. rewrite dget_dset. destruct (decide (attr = a)); [by eexists|by apply Hc].
  - intros a Ha. apply Hl. by right.
Qed.

Lemma rate_all_from_Ok (d : dict string sentence) (av nv : Vocabulary.t)
    (suf : dict string sentence) :
  ids_known av d → fully_annotated nv d →
  ∀ i t c, i + length suf = length d → (∀ e, e ∈ suf → e ∈ d) →
    tensor_shape (length av) (length nv) (length d) t →
    (∀ a, a < length av → is_Some (dget a c)) →
    ∃ t' c',
      rfoldi (λ i '(sid, sen) '(ratings, attr_counts),
                let* ratings' := rate_sen nv i sid sen ratings in
                let* attr_counts' := count_sen sen attr_counts in
                Ok (ratings', attr_counts'))
             i suf (t, c) = Ok (t', c')
      ∧ ∀ a, a < length av → is_Some (dget a c').
Proof.
  intros Hids Hfull. induction suf as [|[sid sen] suf IH]; intros i t c Hi Hsuf Hshape Hc.
  - simpl. by eexists _, _.
  - assert ((sid, sen) ∈ d) as Hin by (apply Hsuf; left).
    destruct (Hids sid sen Hin) as [Hlists Hkeys].
    destruct (rate_anns_Ok i sid sen (Vocabulary.ids nv) t _ _ _ Hshape) as (t1 & Ht1 & Hshape1).
    { intros ann Hann. apply elem_of_seq in Hann. split; [lia|]. eapply Hfull; [done|lia]. }
    { intros ann attrs a Hattrs Ha. eapply Hlists; [by apply dget_Some_elem_of|done]. }
    { simpl in Hi. lia. }
    destruct (count_sen_Ok sen c (length av) Hc Hkeys) as (c1 & Hc1 & Hc1').
    assert (rate_sen nv i sid sen t = Ok t1) as Hr by exact Ht1.
    cbn [rfoldi]. rewrite Hr. cbn [rbind]. rewrite Hc1. cbn [rbind].
    apply IH; [simpl in Hi; lia| |done..]. intros e He. apply Hsuf. by right.
Qed.

Lemma rate_all_Ok (d : dict string sentence) (av nv : Vocabulary.t) :
  ids_known av d → fully_annotated nv d →
  ∃ ratings counts, rate_all d av nv = Ok (ratings, counts)
    ∧ ∀ a, a < length av → is_Some (dget a counts).
Proof.
  intros Hids Hfull. unfold rate_all. apply (rate_all_from_Ok d av nv d Hids Hfull).
  - done.
  - done.
  - apply tensor_shape_zeros.
  - intros a Ha. rewrite dget_fmap_const. rewrite decide_True; [by eexists|].
    apply elem_of_seq. lia.
Qed.

Lemma attr_stat_Ok (d : dict string sentence) (av nv : Vocabulary.t) (ratings : tensor)
    (counts : dict nat (dict nat nat)) (attr : nat) (name : string) :
  rate_all d av nv = Ok (ratings, counts) →
  (∀ a, a < length av → is_Some (dget a counts)) →
  attr < length av → inter_pairs nv ≠ [] →
  ∃ row, attr_stat ratings counts nv attr name = Ok row.
Proof.
  intros Hrate Hcounts Hattr Hinter. unfold attr_stat.
  destruct (attr_pair_kappas_total ratings nv attr) as (ks & gks & Hpairs).
  { intros ann1 ann2 H1 H2. unfold pair_kappa.
    rewrite (rate_all_vec _ _ _ _ _ attr ann1 Hrate) by done.
    rewrite (rate_all_vec _ _ _ _ _ attr ann2 Hrate) by done.
    cbn [rbind]. destruct (_ && _); by eexists. }
  rewrite Hpairs. cbn [rbind].
  destruct (attr_pair_kappas_spec _ _ _ _ _ Hpairs) as [Hks _].
  apply Forall2_length in Hks.
  unfold kavg at 1. rewrite decide_False.
  2:{ rewrite <-Hks. by destruct (inter_pairs nv). }
  cbn [rbind].
  assert (∃ ag, match gks with [] => Ok kzero | _ :: _ => kavg gks end = Ok ag) as [ag Hag].
  { destruct gks as [|k gks']; [by eexists|]. unfold kavg.
    rewrite decide_False by done. by eexists. }
  rewrite Hag. cbn [rbind]. rewrite (rate_all_slice _ _ _ _ _ _ Hrate Hattr). cbn [rbind].
  destruct (Hcounts attr Hattr) as [c Hc]. unfold dindex. rewrite Hc. cbn [rbind].
  by eexists.
Qed.

Lemma measure_agreement_Ok_iff (d : dict string sentence) (av nv : Vocabulary.t) :
  ids_known av d →
  (∃ stats, measure_agreement d av nv = Ok stats)
  ↔ fully_annotated nv d ∧ (av = [] ∨ two_annotators nv).
Proof.
  intros Hids. split.
  - intros [stats H]. pose proof H as H'. unfold measure_agreement in H.
    apply rbind_Ok in H as ([ratings counts] & Hrate & H).
    split; [by eapply rate_all_fully_annotated|].
    destruct (decide (av = [])) as [|Hav]; [by left|]. right.
    apply inter_pairs_two_annotators. intros Hnil.
    by rewrite (measure_agreement_without_inter_pairs _ _ _ _ _ Hrate Hav Hnil) in H'.
  - intros [Hfull Hav].
    destruct (rate_all_Ok d av nv Hids Hfull) as (ratings & counts & Hrate & Hcounts).
    unfold measure_agreement. rewrite Hrate. cbn [rbind].
    destruct (rmap_Ok_ex (λ '(attr, name), attr_stat ratings counts nv attr name)
                (Vocabulary.items av)) as (rows & Hrows & _).
    { intros [attr name] Hin. apply elem_of_items in Hin. apply lookup_lt_Some in Hin.
      eapply attr_stat_Ok; [done..|]. destruct Hav as [->|Htwo]; [simpl in Hin; lia|].
      by apply inter_pairs_two_annotators. }
    rewrite Hrows. by eexists.
Qed.

(** X14.  On data whose ids are ids of the attribute vocabulary,
    measure_agreement completes iff every annotator has an entry on every
    sentence and, unless there is no attribute at all, there are two
    annotators other than gold. *)
Theorem measure_agreement_completes_iff (d : dict string sentence) (av nv : Vocabulary.t) :
  ids_known av d →
  (∃ stats, measure_agreement d av nv = Ok stats)
  ↔ fully_annotated nv d ∧ (av = [] ∨ two_annotators nv).
Proof. apply measure_agreement_Ok_iff. Qed.

(** Every two annotators are a pair of the two loops of lines 163-166:
    a pair for [gold_kappas] if one of them is gold, else for
    [attr_kappas]. *)
Lemma annotator_pair_listed (nv : Vocabulary.t) (a1 a2 : nat) (w1 w2 : string) :
  nv !! a1 = Some w1 → nv !! a2 = Some w2 → a1 < a2 →
  ((a1, w1), (a2, w2))
    ∈ (if decide (w1 = gold ∨ w2 = gold) then gold_pairs nv else inter_pairs nv).
Proof using Type.
  clear_parameters. intros H1 H2 Hlt.
  assert (((a1, w1), (a2, w2)) ∈ annotator_pairs nv) as Hin.
  { unfold annotator_pairs. apply list_elem_of_bind. exists (a1, w1).
    split; [|by apply elem_of_items].
    unfold row_pairs. apply list_elem_of_bind. exists (a2, w2).
    split; [|by apply elem_of_items]. simpl. rewrite decide_True by done. left. }
  destruct (decide (w1 = gold ∨ w2 = gold)) as [Hg|Hg];
    apply list_elem_of_filter; (split; [exact Hg|exact Hin]).
Qed.

(** C3.  The table of the agreement engine has a row for every attribute,
    and the row lists a kappa for every pair of annotators, in the order
    of the two loops: in [gold_kappas] for the pairs with gold, in
    [attr_kappas] for the others.  The kappa listed for a pair whose two
    presence vectors are all-zero is 1.0, whatever cohen_kappa_score would
    return.  The table is produced whenever the ids are known, every
    annotator has an entry on every sentence and, unless there is no
    attribute, there are two annotators other than gold. *)
Theorem all_zero_pair_has_kappa_one (d : dict string sentence) (av nv : Vocabulary.t) :
  (∀ stats, measure_agreement d av nv = Ok stats →
     ∃ rows, stats ≡ₚ rows
       ∧ Forall2 (λ e row,
            attr_name row = e.2
            ∧ Forall2 (λ p k, all_zero (presence_vector d e.1 p.1.1) →
                              all_zero (presence_vector d e.1 p.2.1) → k = kone)
                (inter_pairs nv) (attr_kappas row)
            ∧ Forall2 (λ p k, all_zero (presence_vector d e.1 p.1.1) →
                              all_zero (presence_vector d e.1 p.2.1) → k = kone)
                (gold_pairs nv) (gold_kappas row))
           (Vocabulary.items av) rows)
  ∧ (∀ a1 a2 w1 w2, nv !! a1 = Some w1 → nv !! a2 = Some w2 → a1 < a2 →
       ((a1, w1), (a2, w2))
         ∈ (if decide (w1 = gold ∨ w2 = gold) then gold_pairs nv else inter_pairs nv))
  ∧ (ids_known av d → fully_annotated nv d → av = [] ∨ two_annotators nv →
     ∃ stats, measure_agreement d av nv = Ok stats).
Proof.
  split_and!.
  - unfold measure_agreement. intros stats H.
    apply rbind_Ok in H as ([ratings counts] & Hrate & H).
    apply rbind_Ok in H as (rows & Hmap & [= <-]).
    exists rows. split; [apply sort_desc_Permutation|].
    apply rmap_Ok in Hmap. eapply Forall2_impl_elem_of; [exact Hmap|]. clear Hmap.
    intros [attr name] row Hitem Hstat. apply elem_of_items in Hitem. cbn [fst snd].
    apply attr_stat_fields in Hstat as [Hname Hpairs].
    apply attr_pair_kappas_spec in Hpairs as [Hinter Hgold].
    assert (attr < length av) as Hattr by (by eapply lookup_lt_Some).
    assert (∀ p k, p ∈ annotator_pairs nv →
              pair_kappa ratings attr p.1.1 p.2.1 = Ok k →
              all_zero (presence_vector d attr p.1.1) →
              all_zero (presence_vector d attr p.2.1) → k = kone) as Hone.
    { intros p k Hp Hk Hz1 Hz2.
      destruct (annotator_pairs_known _ _ Hp) as (Hp1 & Hp2 & _).
      apply lookup_lt_Some in Hp1, Hp2.
      rewrite (pair_kappa_all_zero d av nv ratings counts) in Hk by done. congruence. }
    split_and!; [done| |].
    + apply Forall2_same_length_lookup. split; [by eapply Forall2_length|].
      intros j p k Hp Hk. apply Hone.
      * apply list_elem_of_lookup_2 in Hp. unfold inter_pairs in Hp.
        by apply list_elem_of_filter in Hp as [_ ?].
      * exact (Forall2_lookup_lr _ _ _ _ _ _ Hinter Hp Hk).
    + apply Forall2_same_length_lookup. split; [by eapply Forall2_length|].
      intros j p k Hp Hk. apply Hone.
      * apply list_elem_of_lookup_2 in Hp. unfold gold_pairs in Hp.
        by apply list_elem_of_filter in Hp as [_ ?].
      * exact (Forall2_lookup_lr _ _ _ _ _ _ Hgold Hp Hk).
  - apply annotator_pair_listed.
  - intros Hids Hfull Hav. by apply (measure_agreement_Ok_iff d av nv Hids).
Qed.

Lemma length_bind {A B} (f : A → list B) (l : list A) :
  length (l ≫= f) = sum_list ((λ x, length (f x)) <$> l).
Proof.
  induction l as [|x l IH]; [done|].
  change ((x :: l) ≫= f) with (f x ++ (l ≫= f)).
  by rewrite length_app, IH, sum_list_fmap_cons.
Qed.

Lemma sum_list_fmap_app {A} (h : A → nat) (l1 l2 : list A) :
  sum_list (h <$> l1 ++ l2) = sum_list (h <$> l1) + sum_list (h <$> l2).
Proof.
  induction l1 as [|x l1 IH]; [done|].
  rewrite <-app_comm_cons, !sum_list_fmap_cons, IH. lia.
Qed.

Lemma sum_list_fmap_zero {A} (h : A → nat) (l : list A) :
  (∀ x, x ∈ l → h x = 0) → sum_list (h <$> l) = 0.
Proof.
  induction l as [|x l IH]; intros Hz; [done|].
  rewrite sum_list_fmap_cons, IH, Hz; [done|left|]. intros y Hy. apply Hz. by right.
Qed.

(** The pairs [i < j] below [n], counted twice, are [n * (n - 1)]. *)
Lemma count_pairs_below (n : nat) :
  2 * sum_list ((λ i, sum_list ((λ j, if decide (i < j) then 1 else 0) <$> seq 0 n))
                  <$> seq 0 n)
  = n * (n - 1).
Proof.
  induction n as [|n IH]; [done|].
  rewrite seq_S. simpl (0 + n).
  rewrite sum_list_fmap_app.
  rewrite (sum_list_fmap_ext_in _
             (λ i, sum_list ((λ j, if decide (i < j) then 1 else 0) <$> seq 0 n) + 1)
             (seq 0 n)).
  2:{ intros i Hi. apply elem_of_seq in Hi. rewrite sum_list_fmap_app. simpl.
      rewrite decide_True by lia. lia. }
  assert (∀ (h : nat → nat) l, sum_list ((λ i, h i + 1) <$> l) = sum_list (h <$> l) + length l)
    as Hplus.
  { intros h l. induction l as [|x l IHl]; [done|].
    rewrite !sum_list_fmap_cons, IHl. simpl. lia. }
  rewrite Hplus, length_seq. simpl (sum_list (_ <$> [n])).
  rewrite sum_list_fmap_app. simpl (sum_list (_ <$> [n])).
  rewrite decide_False by lia.
  rewrite (sum_list_fmap_zero (λ j, if decide (n < j) then 1 else 0) (seq 0 n)).
  2:{ intros j Hj. apply elem_of_seq in Hj. rewrite decide_False; [done|lia]. }
  destruct n as [|n']; [done|]. simpl in IH |- *. lia.
Qed.

Lemma items_fst (v : Vocabulary.t) : (Vocabulary.items v).*1 = seq 0 (length v).
Proof.
  unfold Vocabulary.items. apply list_eq. intros i.
  rewrite list_lookup_fmap, list_lookup_imap.
  destruct (v !! i) as [w|] eqn:Hw; simpl.
  - rewrite lookup_seq_lt; [done|]. by eapply lookup_lt_Some.
  - rewrite lookup_seq_ge; [done|]. by apply lookup_ge_None.
Qed.

(** There is one pair for every two annotators. *)
Lemma length_annotator_pairs (nv : Vocabulary.t) :
  2 * length (annotator_pairs nv) = length nv * (length nv - 1).
Proof.
  rewrite <-count_pairs_below. f_equal. unfold annotator_pairs.
  rewrite length_bind, <-(items_fst nv), <-list_fmap_compose.
  apply sum_list_fmap_ext_in. intros x _. simpl. unfold row_pairs.
  rewrite length_bind, <-list_fmap_compose.
  apply sum_list_fmap_ext_in. intros y _. simpl. by destruct (decide (x.1 < y.1)).
Qed.

Lemma length_filter_split {A} (P : A → Prop) `{∀ x, Decision (P x)} (l : list A) :
  length (filter P l) + length (filter (λ x, ¬ P x) l) = length l.
Proof using Type.
  clear_parameters.
  induction l as [|x l IH]; [done|]. rewrite !filter_cons.
  destruct (decide (P x)).
  - rewrite decide_False by tauto. simpl. lia.
  - rewrite decide_True by done. simpl. lia.
Qed.

Lemma attr_stat_avg_gold (ratings : tensor) (counts : dict nat (dict nat nat))
    (nv : Vocabulary.t) (attr : nat) (name : string) (row : attr_row) :
  attr_stat ratings counts nv attr name = Ok row →
  gold_kappas row = [] → avg_gold row = kzero.
Proof.
  unfold attr_stat. intros H.
  apply rbind_Ok in H as ([ks gks] & Hpairs & H).
  apply rbind_Ok in H as (a & _ & H).
  apply rbind_Ok in H as (ag & Hag & H).
  apply rbind_Ok in H as (slice & _ & H).
  apply rbind_Ok in H as (c & _ & [= <-]). simpl. intros ->. by injection Hag.
Qed.

(** X15.  Every row of the table has one kappa for every two annotators, split
    between [gold_kappas] and [attr_kappas]; without an annotator called
    gold the first list is empty and the gold average is 0. *)
Theorem measure_agreement_kappa_count (d : dict string sentence) (av nv : Vocabulary.t)
    (stats : list attr_row) (row : attr_row) :
  measure_agreement d av nv = Ok stats → row ∈ stats →
  2 * (length (attr_kappas row) + length (gold_kappas row)) = length nv * (length nv - 1)
  ∧ (gold ∉ nv → gold_kappas row = [] ∧ avg_gold row = kzero).
Proof.
  unfold measure_agreement. intros H Hrow.
  apply rbind_Ok in H as ([ratings counts] & Hrate & H).
  apply rbind_Ok in H as (rows & Hmap & [= <-]).
  apply elem_of_sort_desc in Hrow. apply rmap_Ok in Hmap.
  apply list_elem_of_lookup in Hrow as [i Hi].
  destruct (Forall2_lookup_r _ _ _ _ _ Hmap Hi) as ([attr name] & _ & Hstat).
  destruct (attr_stat_fields _ _ _ _ _ _ Hstat) as [_ Hpairs].
  destruct (attr_pair_kappas_spec _ _ _ _ _ Hpairs) as [Hks Hgks].
  apply Forall2_length in Hks, Hgks. split.
  - rewrite <-Hks, <-Hgks, <-length_annotator_pairs. unfold inter_pairs, gold_pairs.
    pose proof (length_filter_split gold_pair (annotator_pairs nv)). lia.
  - intros Hgold. assert (gold_kappas row = []) as Hnil.
    { apply length_zero_iff_nil. rewrite <-Hgks. apply length_zero_iff_nil.
      unfold gold_pairs. destruct (filter gold_pair (annotator_pairs nv)) as [|p l] eqn:Hp;
        [done|].
      assert (p ∈ filter gold_pair (annotator_pairs nv)) as Hin by (rewrite Hp; left).
      apply list_elem_of_filter in Hin as [Hg Hin].
      apply annotator_pairs_known in Hin as (H1 & H2 & _). exfalso. apply Hgold.
      destruct Hg as [Hg|Hg]; rewrite <-Hg; by eapply list_elem_of_lookup_2. }
    split; [done|]. by eapply attr_stat_avg_gold.
Qed.

(** ** load_data and measure_agreement *)

Lemma elem_of_dkeys_dset {Key Val} `{EqDecision Key} (k k' : Key) (v : Val)
    (c : dict Key Val) :
  k' ∈ dkeys (dset k v c) → k' = k ∨ k' ∈ dkeys c.
Proof using Type.
  clear_parameters.
  destruct (decide (k ∈ dkeys c)).
  - rewrite dkeys_dset_present by done. by right.
  - rewrite dkeys_dset_absent by done. rewrite elem_of_app, list_elem_of_singleton. tauto.
Qed.

Lemma elem_of_dkeys_incr_all (attrs : list nat) (a : nat) (c : dict nat nat) :
  a ∈ dkeys (incr_all attrs c) → a ∈ attrs ∨ a ∈ dkeys c.
Proof using Type.
  clear_parameters.
  unfold incr_all. revert c. induction attrs as [|x attrs IH]; intros c; simpl; [by right|].
  intros Ha. apply IH in Ha as [?|Ha]; [left; by right|].
  unfold counter_incr in Ha. apply elem_of_dkeys_dset in Ha as [->|?]; [left; left|by right].
Qed.

Lemma elem_of_dkeys_ensure_all (attrs : list nat) (a : nat) (c : dict nat nat) :
  a ∈ dkeys (ensure_all attrs c) → a ∈ attrs ∨ a ∈ dkeys c.
Proof using Type.
  clear_parameters.
  unfold ensure_all. revert c. induction attrs as [|x attrs IH]; intros c; simpl; [by right|].
  intros Ha. apply IH in Ha as [?|Ha]; [left; by right|].
  destruct (dmem x c); [by right|].
  apply elem_of_dkeys_dset in Ha as [->|?]; [left; left|by right].
Qed.

Lemma load_data_attr_stats_keys filenames st r :
  load_data filenames = (st, r) →
  ∀ sid sen a, (sid, sen) ∈ data st → a ∈ dkeys (attr_stats sen) →
    a < length (attr_vocab st).
Proof using Type.
  clear_parameters.
  apply (load_files_ind (λ st, ∀ sid sen a, (sid, sen) ∈ data st →
                                 a ∈ dkeys (attr_stats sen) → a < length (attr_vocab st))).
  - intros st0 v HP _. exact HP.
  - intros fn ann sen st0 st1 r0 Hann HP Hm.
    destruct (merge_sen_cases _ _ _ _ _ _ Hm Hann)
      as [[-> _]|(_ & rec0 & ids & av & w & Hrec0 & Hnew & Hint & Hw & ->)]; [done|].
    destruct (intern_attrs_Ok (set_iter (row_attributes sen)) (attr_vocab st0))
      as (ids' & av' & Hint' & Hpre & Hids).
    rewrite Hint in Hint'. injection Hint' as <- <-. apply prefix_length in Hpre.
    intros sid sen' a Hin Ha. simpl in *.
    apply elem_of_dset in Hin as [[= -> ->]|Hin].
    + simpl in Ha.
      assert (a ∈ sorted_nat ids ∨ a ∈ dkeys (attr_stats rec0)) as [Hl|Hk].
      { unfold update_attr_stats in Ha. destruct (decide (w ≠ gold)).
        - by apply elem_of_dkeys_incr_all.
        - by apply elem_of_dkeys_ensure_all. }
      * rewrite elem_of_sorted_nat in Hl. apply list_elem_of_lookup in Hl as [j Hj].
        destruct (Forall2_lookup_r _ _ _ _ _ Hids Hj) as (w' & _ & Hfind).
        apply find_word_Some in Hfind. by eapply lookup_lt_Some.
      * destruct Hrec0 as [[Hrec0 _]|[_ ->]]; [|by apply elem_of_nil in Hk].
        apply dget_Some_elem_of in Hrec0. specialize (HP _ _ _ Hrec0 Hk). lia.
    + specialize (HP _ _ _ Hin Ha). lia.
  - intros sid sen a Hin. by apply elem_of_nil in Hin.
Qed.

Lemma load_data_ids_known filenames st r :
  load_data filenames = (st, r) → ids_known (attr_vocab st) (data st).
Proof using Type.
  clear_parameters.
  intros Hload sid sen Hin. split.
  - intros ann attrs a Hattrs Ha.
    by destruct (load_data_lists_ok _ _ _ Hload sid sen ann attrs Hin Hattrs) as [_ Hlt];
      apply Hlt.
  - intros a Ha. by eapply load_data_attr_stats_keys.
Qed.

(** ** eval_against_gold: when it completes, and what it prints *)

Lemma rfold_inv {A St} (I : St → Prop) (body : A → St → result St) (l : list A)
    (st st' : St) :
  rfold body l st = Ok st' →
  (∀ x s s', x ∈ l → I s → body x s = Ok s' → I s') → I st → I st'.
Proof.
  revert st. induction l as [|x l IH]; intros st H Hstep Hst; simpl in H.
  - by injection H as <-.
  - apply rbind_Ok in H as (st1 & Hx & Hrest). eapply IH; [done| |].
    + intros y s s' Hy. apply Hstep. by right.
    + eapply Hstep; [left|done..].
Qed.

Lemma dkeys_default_row (nv : Vocabulary.t) (g : nat) :
  dkeys (default_row nv g) = filter (λ ann, ann ≠ g) (Vocabulary.ids nv).
Proof.
  unfold default_row, dkeys. rewrite <-list_fmap_compose. apply list_fmap_id.
Qed.

Lemma stats_incr_table_ok (n_attr : nat) (nv : Vocabulary.t) (g attr ann : nat)
    (fig : figure) (st st' : gold_stats) :
  attr < n_attr → gold_table_ok n_attr nv g st →
  stats_incr nv g attr ann fig st = Ok st' → gold_table_ok n_attr nv g st'.
Proof using Type.
  clear_parameters.
  intros Hattr Hok. unfold stats_incr.
  set (st1 := match dget attr st with
              | Some _ => st
              | None => dset attr (default_row nv g) st
              end).
  assert (gold_table_ok n_attr nv g st1) as Hok1.
  { unfold st1. destruct (dget attr st); [done|].
    intros a row Hin. apply elem_of_dset in Hin as [[= -> ->]|Hin]; [|by apply Hok].
    split; [done|apply dkeys_default_row]. }
  clearbody st1. intros H.
  apply rbind_Ok in H as (row & Hrow & H). apply rbind_Ok in H as (c & Hc & [= <-]).
  unfold dindex in Hrow, Hc.
  destruct (dget attr st1) as [row'|] eqn:Hrow'; [|done]. injection Hrow as ->.
  destruct (dget ann row) as [c'|] eqn:Hc'; [|done]. injection Hc as ->.
  apply dget_Some_elem_of in Hrow'. destruct (Hok1 _ _ Hrow') as [_ Hkeys].
  intros a row0 Hin. apply elem_of_dset in Hin as [[= -> ->]|Hin]; [|by apply Hok1].
  split; [done|]. rewrite dkeys_dset_present; [done|].
  apply dget_is_Some_key. by eexists.
Qed.

(** The table that the loop of lines 60-79 builds. *)
Lemma count_gold_table_ok (d : dict string sentence) (av nv : Vocabulary.t) (g : nat)
    (st : gold_stats) :
  lists_known av d → count_gold d nv g = Ok st → gold_table_ok (length av) nv g st.
Proof using Type.
  clear_parameters.
  intros Hknown H. unfold count_gold in H.
  eapply (rfold_inv (gold_table_ok (length av) nv g)); [exact H| |].
  2:{ intros a row Hin. by apply elem_of_nil in Hin. }
  clear H st. intros [sid sen] st st' Hin Hok H.
  apply rbind_Ok in H as (st1 & Htp & Hfp).
  assert (gold_table_ok (length av) nv g st1) as Hok1.
  { unfold count_tp_fn in Htp. apply rbind_Ok in Htp as (gl & Hgl & Htp).
    unfold dindex in Hgl. destruct (dget g (annot sen)) as [gl'|] eqn:Hg; [|done].
    injection Hgl as ->. apply dget_Some_elem_of in Hg.
    eapply (rfold_inv (gold_table_ok (length av) nv g)); [exact Htp| |done].
    intros attr s s' Hattr Hs Hinner.
    eapply (rfold_inv (gold_table_ok (length av) nv g)); [exact Hinner| |done].
    intros ann s0 s0' _ Hs0 Hbody. simpl in Hbody.
    destruct (decide (ann = g)); [by injection Hbody as <-|].
    apply rbind_Ok in Hbody as (attrs & _ & Hbody).
    assert (attr < length av) as Hlt by by eapply Hknown.
    destruct (decide (attr ∈ attrs)); by eapply stats_incr_table_ok. }
  unfold count_fp in Hfp.
  eapply (rfold_inv (gold_table_ok (length av) nv g)); [exact Hfp| |done].
  intros ann s s' _ Hs Hbody. simpl in Hbody.
  destruct (decide (ann = g)); [by injection Hbody as <-|].
  destruct (dget ann (annot sen)) as [attrs|] eqn:Hattrs; [|done].
  apply dget_Some_elem_of in Hattrs.
  eapply (rfold_inv (gold_table_ok (length av) nv g)); [exact Hbody| |done].
  intros attr s0 s0' Hattr Hs0 Hinner. simpl in Hinner.
  apply rbind_Ok in Hinner as (gl & _ & Hinner).
  destruct (decide (attr ∉ gl)); [|by injection Hinner as <-].
  eapply stats_incr_table_ok; [|done..]. by eapply Hknown.
Qed.

(** The loop of lines 60-79 completes only on data where every annotator
    has an entry on every sentence. *)
Lemma count_gold_fully_annotated (d : dict string sentence) (nv : Vocabulary.t) (g : nat)
    (st : gold_stats) :
  g < length nv → count_gold d nv g = Ok st → fully_annotated nv d.
Proof.
  intros Hg H sid sen ann Hin Hann. unfold count_gold in H.
  destruct (rfold_Ok_each _ _ _ _ H _ Hin) as (s & s' & Hbody). simpl in Hbody.
  apply rbind_Ok in Hbody as (s1 & Htp & Hfp).
  destruct (decide (ann = g)) as [->|Hne].
  - unfold count_tp_fn, dindex in Htp. by destruct (dget g (annot sen)).
  - unfold count_fp in Hfp. destruct (rfold_Ok_each _ _ _ _ Hfp ann) as (s2 & s2' & Hann').
    { apply elem_of_seq. lia. }
    simpl in Hann'. rewrite decide_False in Hann' by done.
    by destruct (dget ann (annot sen)).
Qed.

Lemma rmap_Ok_keys {A B} `{EqDecision A} (body : A → result (A * B)) (l : list A) :
  (∀ x, x ∈ l → ∃ v, body x = Ok (x, v)) →
  ∃ ys, rmap body l = Ok ys ∧ dkeys ys = l.
Proof.
  induction l as [|x l IH]; intros Hl; [by eexists|].
  destruct (Hl x) as [v Hx]; [left|].
  destruct IH as (ys & Hys & Hkeys); [intros y Hy; apply Hl; by right|].
  simpl. rewrite Hx. cbn [rbind]. rewrite Hys. cbn [rbind].
  eexists. split; [done|]. simpl. by rewrite Hkeys.
Qed.

Lemma total_row_Ok (n_attr : nat) (nv : Vocabulary.t) (g : nat) (st : gold_stats) :
  gold_table_ok n_attr nv g st →
  ∃ total, total_row nv g st = Ok total
    ∧ dkeys total = filter (λ ann, ann ≠ g) (Vocabulary.ids nv).
Proof using Type.
  clear_parameters.
  intros Hok. unfold total_row. apply rmap_Ok_keys. intros ann Hann.
  destruct (rmap_Ok_ex
              (λ fig,
                 let* counts :=
                   rmap (λ attr,
                           let* row := dindex KeyError_id attr st in
                           let* c := dindex KeyError_id ann row in
                           Ok (counter_get fig c))
                        (dkeys st) in
                 Ok (fig, sum_list counts))
              [TP; FN; FP]) as (figs & -> & _); [|by eexists].
  intros fig _.
  destruct (rmap_Ok_ex (λ attr,
                          let* row := dindex KeyError_id attr st in
                          let* c := dindex KeyError_id ann row in
                          Ok (counter_get fig c)) (dkeys st)) as (counts & -> & _);
    [|by eexists].
  intros attr Hattr. apply dget_is_Some_key in Hattr as [row Hrow].
  unfold dindex at 1. rewrite Hrow. cbn [rbind].
  apply dget_Some_elem_of in Hrow. destruct (Hok _ _ Hrow) as [_ Hkeys].
  assert (is_Some (dget ann row)) as [c Hc] by (apply dget_is_Some_key; by rewrite Hkeys).
  unfold dindex. rewrite Hc. cbn [rbind]. by eexists.
Qed.

Lemma named_stats_Ok (nv : Vocabulary.t) (l : dict nat (dict figure nat))
    (acc : dict string (dict figure nat)) :
  (∀ ann, ann ∈ dkeys l → ann < length nv) →
  ∃ named, rfold (λ '(ann, st) named,
                    let* w := Vocabulary.get_word ann nv in
                    Ok (dset w st named)) l acc = Ok named.
Proof.
  revert acc. induction l as [|[ann c] l IH]; intros acc Hl; simpl; [by eexists|].
  destruct (get_word_Ok ann nv) as [w ->]; [apply Hl; left|]. cbn [rbind].
  apply IH. intros ann' Hin. apply Hl. by right.
Qed.

Lemma find_word_is_Some (w : string) (v : Vocabulary.t) :
  w ∈ v ↔ ∃ i, Vocabulary.find_word w v = Some i.
Proof.
  destruct (Vocabulary.find_word w v) as [i|] eqn:Hw.
  - split; [by eexists|]. intros _. apply find_word_Some in Hw.
    by eapply list_elem_of_lookup_2.
  - apply find_word_None in Hw. split; [done|]. by intros [? ?].
Qed.

Lemma eval_against_gold_Ok_iff (d : dict string sentence) (av nv : Vocabulary.t) :
  lists_known av d →
  ((∃ out, eval_against_gold d av nv = Ok out) ↔ gold ∈ nv ∧ fully_annotated nv d)
  ∧ (gold ∉ nv → eval_against_gold d av nv = Raise (KeyError_word gold)).
Proof using Type.
  clear_parameters.
  intros Hknown. split; [split|].
  - intros [[ranked blocks] H]. unfold eval_against_gold in H.
    apply rbind_Ok in H as ([g v] & Hg & H).
    unfold Vocabulary.get_id in Hg.
    destruct (Vocabulary.find_word gold nv) as [g'|] eqn:Hfind; [|done].
    injection Hg as -> ->.
    apply rbind_Ok in H as (st & Hst & _).
    pose proof (find_word_Some _ _ _ Hfind) as Hlook. split.
    + by eapply list_elem_of_lookup_2.
    + eapply count_gold_fully_annotated; [|done]. by eapply lookup_lt_Some.
  - intros [Hgold Hfull]. apply find_word_is_Some in Hgold as [g Hfind].
    pose proof (find_word_Some _ _ _ Hfind) as Hlook. apply lookup_lt_Some in Hlook.
    unfold eval_against_gold. rewrite (get_id_known _ false _ _ Hfind). cbn [rbind].
    destruct (count_gold_spec nv g d Hfull Hlook) as (st & Hst & _).
    rewrite Hst. cbn [rbind].
    pose proof (count_gold_table_ok _ _ _ _ _ Hknown Hst) as Hok.
    destruct (total_row_Ok _ _ _ _ Hok) as (total & -> & Hkeys). cbn [rbind].
    destruct (get_id_new "total" av) as (t & av' & -> & Hpre & _ & Ht). cbn [rbind].
    apply prefix_length in Hpre.
    destruct (rmap_Ok_ex (named_block av' nv)
                (take 10 (sort_desc volume (dset t total st)))) as (blocks & -> & _);
      [|by eexists].
    intros [a row] Hin. apply elem_of_take in Hin as (i & Hin & _).
    apply list_elem_of_lookup_2, elem_of_sort_desc in Hin.
    assert (a < length av' ∧ dkeys row = filter (λ ann, ann ≠ g) (Vocabulary.ids nv))
      as [Ha Hrow].
    { apply elem_of_dset in Hin as [[= -> ->]|Hin]; [done|].
      destruct (Hok _ _ Hin). split; [lia|done]. }
    unfold named_block. cbn [fst snd].
    destruct (named_stats_Ok nv row []) as [named ->].
    { intros ann Hann. rewrite Hrow in Hann. apply list_elem_of_filter in Hann as [_ Hann].
      apply elem_of_seq in Hann. lia. }
    cbn [rbind]. destruct (get_word_Ok a av' Ha) as [w ->]. cbn [rbind]. by eexists.
  - intros Hgold. apply find_word_None in Hgold.
    unfold eval_against_gold, Vocabulary.get_id. by rewrite Hgold.
Qed.

(** X16.  On data whose ids are ids of the attribute vocabulary,
    eval_against_gold completes iff an annotator is called gold and every
    annotator has an entry on every sentence; without an annotator called
    gold it fails with the KeyError of line 53. *)
Theorem eval_against_gold_completes_iff (d : dict string sentence) (av nv : Vocabulary.t) :
  lists_known av d →
  ((∃ out, eval_against_gold d av nv = Ok out) ↔ gold ∈ nv ∧ fully_annotated nv d)
  ∧ (gold ∉ nv → eval_against_gold d av nv = Raise (KeyError_word gold)).
Proof using Type.
  clear_parameters. apply eval_against_gold_Ok_iff. Qed.

Lemma named_block_fields (av nv : Vocabulary.t) (e : nat * dict nat (dict figure nat))
    (b : gold_block) :
  named_block av nv e = Ok b →
  av !! e.1 = Some (block_attr b)
  ∧ Forall (λ x, starts_with_min x.1 = false) (real_annot b)
  ∧ Forall (λ x, starts_with_min x.1 = true) (vote_annot b)
  ∧ ∀ w c, (w, c) ∈ real_annot b ++ vote_annot b →
      ∃ ann, (ann, c) ∈ e.2 ∧ nv !! ann = Some w.
Proof.
  unfold named_block. intros H.
  apply rbind_Ok in H as (named & Hnamed & H). apply rbind_Ok in H as (w & Hw & [= <-]).
  cbn [block_attr real_annot vote_annot].
  unfold Vocabulary.get_word in Hw. destruct (av !! e.1) as [w'|]; [|done].
  injection Hw as ->. split_and!; [done| | |].
  - apply Forall_forall. intros [name c] Hin. apply list_elem_of_In, filter_In in Hin as [_ Hin].
    simpl. by destruct (starts_with_min name).
  - apply Forall_forall. intros [name c] Hin. apply list_elem_of_In, filter_In in Hin as [_ Hin].
    done.
  - assert (∀ name c, (name, c) ∈ named → ∃ ann, (ann, c) ∈ e.2 ∧ nv !! ann = Some name)
      as Hsub.
    { eapply (rfold_inv (λ named, ∀ name c, (name, c) ∈ named →
                           ∃ ann, (ann, c) ∈ e.2 ∧ nv !! ann = Some name));
        [exact Hnamed| |].
      - intros [ann c0] s s' Hin Hs Hbody. simpl in Hbody.
        unfold Vocabulary.get_word in Hbody.
        destruct (nv !! ann) as [name0|] eqn:Hann; [|done]. injection Hbody as <-.
        intros name c Hin'. apply elem_of_dset in Hin' as [[= -> ->]|Hin']; [|by apply Hs].
        by exists ann.
      - intros name c Hin. by apply elem_of_nil in Hin. }
    intros name c Hin. apply Hsub.
    apply elem_of_app in Hin as [Hin|Hin]; by apply list_elem_of_In, filter_In in Hin as [Hin _];
      apply list_elem_of_In.
Qed.

Lemma stats_incr_rows_ok (nv : Vocabulary.t) (g attr ann : nat) (fig : figure)
    (st st' : gold_stats) :
  gold_rows_ok nv g st →
  stats_incr nv g attr ann fig st = Ok st' → gold_rows_ok nv g st'.
Proof using Type.
  clear_parameters. intros Hok. unfold stats_incr.
  set (st1 := match dget attr st with
              | Some _ => st
              | None => dset attr (default_row nv g) st
              end).
  assert (gold_rows_ok nv g st1) as Hok1.
  { unfold st1. destruct (dget attr st); [done|].
    intros a row Hin. apply elem_of_dset in Hin as [[= -> ->]|Hin]; [|by eapply Hok].
    apply dkeys_default_row. }
  clearbody st1. intros H.
  apply rbind_Ok in H as (row & Hrow & H). apply rbind_Ok in H as (c & Hc & [= <-]).
  unfold dindex in Hrow, Hc.
  destruct (dget attr st1) as [row'|] eqn:Hrow'; [|done]. injection Hrow as ->.
  destruct (dget ann row) as [c'|] eqn:Hc'; [|done]. injection Hc as ->.
  apply dget_Some_elem_of in Hrow'. pose proof (Hok1 _ _ Hrow') as Hkeys.
  intros a row0 Hin. apply elem_of_dset in Hin as [[= -> ->]|Hin]; [|by eapply Hok1].
  rewrite dkeys_dset_present; [done|]. apply dget_is_Some_key. by eexists.
Qed.

(** The rows that the loop of lines 60-79 builds, on any data. *)
Lemma count_gold_rows_ok (d : dict string sentence) (nv : Vocabulary.t) (g : nat)
    (st : gold_stats) :
  count_gold d nv g = Ok st → gold_rows_ok nv g st.
Proof using Type.
  clear_parameters. intros H. unfold count_gold in H.
  eapply (rfold_inv (gold_rows_ok nv g)); [exact H| |].
  2:{ intros a row Hin. by apply elem_of_nil in Hin. }
  clear H st. intros [sid sen] st st' Hin Hok H.
  apply rbind_Ok in H as (st1 & Htp & Hfp).
  assert (gold_rows_ok nv g st1) as Hok1.
  { unfold count_tp_fn in Htp. apply rbind_Ok in Htp as (gl & _ & Htp).
    eapply (rfold_inv (gold_rows_ok nv g)); [exact Htp| |done].
    intros attr s s' Hattr Hs Hinner.
    eapply (rfold_inv (gold_rows_ok nv g)); [exact Hinner| |done].
    intros ann s0 s0' _ Hs0 Hbody. simpl in Hbody.
    destruct (decide (ann = g)); [by injection Hbody as <-|].
    apply rbind_Ok in Hbody as (attrs & _ & Hbody).
    destruct (decide (attr ∈ attrs)); by eapply stats_incr_rows_ok. }
  unfold count_fp in Hfp.
  eapply (rfold_inv (gold_rows_ok nv g)); [exact Hfp| |done].
  intros ann s s' _ Hs Hbody. simpl in Hbody.
  destruct (decide (ann = g)); [by injection Hbody as <-|].
  destruct (dget ann (annot sen)) as [attrs|] eqn:Hattrs; [|done].
  eapply (rfold_inv (gold_rows_ok nv g)); [exact Hbody| |done].
  intros attr s0 s0' Hattr Hs0 Hinner. simpl in Hinner.
  apply rbind_Ok in Hinner as (gl & _ & Hinner).
  destruct (decide (attr ∉ gl)); [|by injection Hinner as <-].
  by eapply stats_incr_rows_ok.
Qed.

Lemma rmap_keys {A B} (body : A → result (A * B)) (l : list A) (ys : list (A * B)) :
  (∀ x y, body x = Ok y → y.1 = x) → rmap body l = Ok ys → ys.*1 = l.
Proof.
  intros Hbody H. apply rmap_Ok in H.
  induction H as [|x y l ys Hy _ IH]; [done|]. csimpl. by rewrite (Hbody _ _ Hy), IH.
Qed.

Lemma total_row_keys (nv : Vocabulary.t) (g : nat) (st : gold_stats)
    (total : dict nat (dict figure nat)) :
  total_row nv g st = Ok total →
  dkeys total = filter (λ ann, ann ≠ g) (Vocabulary.ids nv).
Proof using Type.
  clear_parameters. unfold total_row, dkeys. apply rmap_keys.
  intros ann y Hy. cbv beta in Hy. by apply rbind_Ok in Hy as (figs & _ & [= <-]).
Qed.

(** The loop of lines 93-94 over a row of distinct annotators with
    distinct names: the named counters, in the order of the row. *)
Lemma named_stats_spec (nv : Vocabulary.t) (l : dict nat (dict figure nat)) :
  NoDup nv →
  ∀ acc named,
    NoDup (dkeys l) →
    (∀ ann w, ann ∈ dkeys l → nv !! ann = Some w → w ∉ dkeys acc) →
    rfold (λ '(ann, st) named,
             let* w := Vocabulary.get_word ann nv in
             Ok (dset w st named)) l acc = Ok named →
    ∃ names, Forall2 (λ x y, nv !! x.1 = Some y.1 ∧ y.2 = x.2) l names
      ∧ named = acc ++ names.
Proof using Type.
  clear_parameters. intros Hnv.
  induction l as [|[ann c] l IH]; intros acc named Hnd Hfresh H; simpl in H.
  - injection H as <-. exists []. split; [constructor|by rewrite app_nil_r].
  - apply rbind_Ok in H as (acc1 & Hstep & Hrest).
    apply rbind_Ok in Hstep as (w & Hw & [= <-]).
    unfold Vocabulary.get_word in Hw. destruct (nv !! ann) as [w'|] eqn:Hann; [|done].
    injection Hw as ->. simpl in Hnd. apply NoDup_cons in Hnd as [Hnotin Hnd].
    assert (w ∉ dkeys acc) as Hw by (eapply Hfresh; [left|done]).
    rewrite dset_absent in Hrest by (by apply dget_None_not_key).
    destruct (IH (acc ++ [(w, c)]) named Hnd) as (names & HF & ->); [|exact Hrest|].
    { intros ann' w' Hin' Hw'. unfold dkeys. rewrite fmap_app, elem_of_app.
      intros [Hold|Hone].
      - revert Hold. eapply Hfresh; [right; exact Hin'|done].
      - simpl in Hone. apply list_elem_of_singleton in Hone as ->.
        assert (ann' = ann) as -> by exact (NoDup_lookup nv ann' ann w Hnv Hw' Hann).
        done. }
    exists ((w, c) :: names). split; [by constructor|]. by rewrite <-app_assoc.
Qed.

(** A printed block, for a row of distinct annotators with distinct
    names: every annotator of the row is, under its name and with its
    counters, in one of the two tables, in the order of the row. *)
Lemma named_block_split (av nv : Vocabulary.t) (e : nat * dict nat (dict figure nat))
    (b : gold_block) :
  NoDup nv → NoDup (dkeys e.2) → named_block av nv e = Ok b →
  ∃ named, Forall2 (λ x y, nv !! x.1 = Some y.1 ∧ y.2 = x.2) e.2 named
    ∧ real_annot b = List.filter (λ '(ann, _), negb (starts_with_min ann)) named
    ∧ vote_annot b = List.filter (λ '(ann, _), starts_with_min ann) named.
Proof using Type.
  clear_parameters. unfold named_block. intros Hnv Hnd H.
  apply rbind_Ok in H as (named & Hnamed & H). apply rbind_Ok in H as (w & Hw & [= <-]).
  cbn [real_annot vote_annot].
  destruct (named_stats_spec nv e.2 Hnv [] named Hnd) as (names & HF & ->); [|done|].
  { intros ann w' _ _ Hin. by apply elem_of_nil in Hin. }
  by exists names.
Qed.

(** X17.  The table that eval_against_gold ranks is sorted by volume, largest
    first; a block is printed for each of its first ten entries, in order,
    under the name of the attribute (total for the added row).  A row has
    the counters of every annotator but gold; in its block every one of
    them is listed under its name with its counters, in the order of the
    annotators: those whose name starts with min in the second table and
    all others in the first. *)
Theorem eval_against_gold_output (d : dict string sentence) (av nv : Vocabulary.t)
    (ranked : list (nat * dict nat (dict figure nat))) (blocks : list gold_block) :
  eval_against_gold d av nv = Ok (ranked, blocks) →
  Sorted (λ e1 e2, volume e2 ≤ volume e1) ranked
  ∧ length blocks = length ranked `min` 10
  ∧ ∀ i b, blocks !! i = Some b →
      ∃ e, ranked !! i = Some e
        ∧ (av ++ ["total"%string]) !! e.1 = Some (block_attr b)
        ∧ Forall (λ x, starts_with_min x.1 = false) (real_annot b)
        ∧ Forall (λ x, starts_with_min x.1 = true) (vote_annot b)
        ∧ (∀ w c, (w, c) ∈ real_annot b ++ vote_annot b →
             ∃ ann, (ann, c) ∈ e.2 ∧ nv !! ann = Some w)
        ∧ (NoDup nv →
           ∃ g named,
             Vocabulary.find_word gold nv = Some g
             ∧ dkeys e.2 = filter (λ ann, ann ≠ g) (Vocabulary.ids nv)
             ∧ Forall2 (λ x y, nv !! x.1 = Some y.1 ∧ y.2 = x.2) e.2 named
             ∧ real_annot b = List.filter (λ '(ann, _), negb (starts_with_min ann)) named
             ∧ vote_annot b = List.filter (λ '(ann, _), starts_with_min ann) named).
Proof using Type.
  clear_parameters. unfold eval_against_gold. intros H.
  apply rbind_Ok in H as ([g v] & Hg & H). apply rbind_Ok in H as (st & Hst & H).
  apply rbind_Ok in H as (total & Htotal & H). apply rbind_Ok in H as ([t av'] & Ht & H).
  apply rbind_Ok in H as (blocks' & Hblocks & [= <- <-]). apply rmap_Ok in Hblocks.
  unfold Vocabulary.get_id in Hg.
  destruct (Vocabulary.find_word gold nv) as [g'|] eqn:Hfind; [|done]. injection Hg as -> <-.
  split_and!.
  - apply sort_desc_Sorted.
  - rewrite <-(Forall2_length _ _ _ Hblocks), length_take. lia.
  - intros i b Hb. destruct (Forall2_lookup_r _ _ _ _ _ Hblocks Hb) as (e & He & Hblock).
    apply lookup_take_Some in He as [He _]. exists e. split; [done|].
    destruct (named_block_fields _ _ _ _ Hblock) as (Hname & ? & ? & ?).
    split_and!; [|done..|].
    + unfold Vocabulary.get_id in Ht. destruct (Vocabulary.find_word "total" av).
      * injection Ht as _ <-. by apply lookup_app_l_Some.
      * by injection Ht as _ <-.
    + intros Hnv.
      assert (dkeys e.2 = filter (λ ann, ann ≠ g) (Vocabulary.ids nv)) as Hkeys.
      { apply list_elem_of_lookup_2, elem_of_sort_desc in He. destruct e as [a row].
        apply elem_of_dset in He as [[= -> ->]|He].
        - by eapply total_row_keys.
        - by eapply (count_gold_rows_ok _ _ _ _ Hst). }
      destruct (named_block_split av' nv e b Hnv) as (named & ? & ? & ?); [|exact Hblock|].
      { rewrite Hkeys. apply NoDup_filter, NoDup_seq. }
      by exists g, named.
Qed.

Lemma Forall2_fmap_eq {A B} (f : A → B) (l : list A) (k : list B) :
  Forall2 (λ x y, y = f x) l k → k = f <$> l.
Proof. induction 1 as [|x y l k -> _ IH]; [done|]. simpl. by rewrite IH. Qed.

(** X18.  The row that eval_against_gold adds to its table, under the id of
    the word total (which replaces the row of an attribute of that name),
    holds, for every annotator but gold and each of TP, FN and FP, the sum
    of the counts over the attributes of the table. *)
Theorem eval_against_gold_total (d : dict string sentence) (av nv : Vocabulary.t)
    (ranked : list (nat * dict nat (dict figure nat))) (blocks : list gold_block) :
  eval_against_gold d av nv = Ok (ranked, blocks) →
  ∃ g st t,
    Vocabulary.find_word gold nv = Some g ∧ count_gold d nv g = Ok st
    ∧ Vocabulary.find_word "total" (av ++ ["total"%string]) = Some t
    ∧ ranked
      ≡ₚ dset t ((λ ann, (ann, (λ fig, (fig, sum_list ((λ attr, stats_get st attr ann fig)
                                                        <$> dkeys st)))
                              <$> [TP; FN; FP]))
                 <$> filter (λ ann, ann ≠ g) (Vocabulary.ids nv)) st.
Proof.
  unfold eval_against_gold. intros H.
  apply rbind_Ok in H as ([g v] & Hg & H). apply rbind_Ok in H as (st & Hst & H).
  apply rbind_Ok in H as (total & Htotal & H). apply rbind_Ok in H as ([t av'] & Ht & H).
  apply rbind_Ok in H as (blocks' & _ & [= <- <-]).
  unfold Vocabulary.get_id in Hg.
  destruct (Vocabulary.find_word gold nv) as [g'|] eqn:Hfind; [|done]. injection Hg as -> <-.
  exists g, st, t. split_and!; [done..| |].
  - unfold Vocabulary.get_id in Ht.
    destruct (Vocabulary.find_word "total" av) as [t'|] eqn:Hfind'.
    + injection Ht as -> _. eapply find_word_prefix; [|done]. by apply prefix_app_r.
    + injection Ht as <- _. apply find_word_None in Hfind'.
      destruct (get_id_new "total" av) as (i & v' & Hid & _ & Hfind'' & _).
      unfold Vocabulary.get_id in Hid. apply find_word_None in Hfind'. rewrite Hfind' in Hid.
      by injection Hid as <- <-.
  - rewrite sort_desc_Permutation.
    replace total with ((λ ann, (ann, (λ fig, (fig, sum_list ((λ attr, stats_get st attr ann fig)
                                                        <$> dkeys st)))
                              <$> [TP; FN; FP]))
                 <$> filter (λ ann, ann ≠ g) (Vocabulary.ids nv)); [done|].
    symmetry. apply Forall2_fmap_eq. unfold total_row in Htotal. apply rmap_Ok in Htotal.
    eapply Forall2_impl; [exact Htotal|]. intros ann y Hy. cbv beta in Hy.
    apply rbind_Ok in Hy as (figs & Hfigs & [= <-]). f_equal.
    apply Forall2_fmap_eq. apply rmap_Ok in Hfigs.
    eapply Forall2_impl; [exact Hfigs|]. intros fig y Hy. cbv beta in Hy.
    apply rbind_Ok in Hy as (counts & Hcounts & [= <-]). do 2 f_equal.
    apply Forall2_fmap_eq. apply rmap_Ok in Hcounts.
    eapply Forall2_impl; [exact Hcounts|]. intros attr y Hy. cbv beta in Hy.
    apply rbind_Ok in Hy as (row & Hrow & Hy). apply rbind_Ok in Hy as (c & Hc & [= <-]).
    unfold dindex in Hrow, Hc. unfold stats_get.
    destruct (dget attr st) as [row'|]; [|done]. injection Hrow as ->.
    destruct (dget ann row) as [c'|]; [|done]. by injection Hc as ->.
Qed.

(** ** print_data and get_tsv_line *)

Lemma print_sens_marks (d : dict string sentence) (av : Vocabulary.t) :
  ∀ d' lines r, print_sens d av = (d', lines, r) →
    let n := length lines + (match r with inl _ => 1 | inr _ => 0 end) in
    d' = (with_full_agreement <$> take n d) ++ drop n d
    ∧ n ≤ length d
    ∧ (r = Ok () → length lines = length d).
Proof.
  induction d as [|[sid sen] d IH]; intros d' lines r H; simpl in H.
  - by injection H as <- <- <-.
  - destruct (get_tsv_line _ av) as [e|line].
    + injection H as <- <- <-. simpl. rewrite ?take_0, ?drop_0. split_and!; [done|lia|done].
    + destruct (print_sens d av) as [[d'' lines0] r0]. injection H as <- <- <-.
      destruct (IH _ _ _ eq_refl) as (Hd & Hle & Hlen). simpl in *.
      split_and!; [by rewrite Hd at 1|lia|]. intros Hr. by rewrite Hlen.
Qed.

(** X19.  print_data changes nothing of the records but [full_agreement].  When
    it completes, every record has it; when a line cannot be written, the
    records up to and including the failing one have it, and the lines
    before it have been written. *)
Theorem print_data_sets_full_agreement (d d' : dict string sentence) (av nv : Vocabulary.t)
    (out : string * list tsv_line) (r : result unit) :
  print_data d av nv = (d', out, r) →
  out.1 = tsv_header nv
  ∧ (r = Ok () → length out.2 = length d ∧ d' = with_full_agreement <$> d)
  ∧ (∀ e, r = Raise e →
       length out.2 < length d
       ∧ d' = (with_full_agreement <$> take (S (length out.2)) d)
              ++ drop (S (length out.2)) d).
Proof.
  unfold print_data. destruct (print_sens d av) as [[d1 lines] r1] eqn:Hp.
  intros [= <- <- <-]. destruct (print_sens_marks _ _ _ _ _ Hp) as (Hd & Hle & Hlen).
  simpl in *. split_and!; [done| |].
  - intros ->. specialize (Hlen eq_refl). split; [done|].
    rewrite Hd, Nat.add_0_r, Hlen, firstn_all, drop_all. by rewrite app_nil_r.
  - intros e ->. rewrite Nat.add_1_r in Hd, Hle. split; [lia|done].
Qed.

(** X20.  The line of a record has one cell for each annotator of the record
    (not of the header): no_attr for an empty list, else the names of the
    attributes of the list, joined by commas; and its counts name each
    attribute of some list once, with its count in [attr_stats]. *)
Theorem get_tsv_line_cells (sen : sentence) (av : Vocabulary.t) (line : tsv_line) :
  get_tsv_line sen av = Ok line →
  Forall2 (λ e cell,
             match e.2 with
             | [] => cell = "no_attr"%string
             | _ => ∃ words, Forall2 (λ a w, av !! a = Some w) e.2 words
                      ∧ cell = String.concat "," words
             end) (annot sen) (tsv_annots line)
  ∧ ∃ ids counts,
      NoDup ids
      ∧ (∀ a, a ∈ ids ↔ ∃ ann attrs, (ann, attrs) ∈ annot sen ∧ a ∈ attrs)
      ∧ Forall2 (λ a c, ∃ w, av !! a = Some w
                   ∧ c = (w +:+ ":" +:+ pretty (counter_get a (attr_stats sen)))%string)
          ids counts
      ∧ tsv_counts line = String.concat " " counts.
Proof using set_iter_id_ok.
  unfold get_tsv_line. intros H.
  apply rbind_Ok in H as (cells & Hcells & H). apply rbind_Ok in H as (counts & Hcounts & H).
  injection H as <-. cbn [tsv_annots tsv_counts]. split.
  - apply rmap_Ok in Hcells. eapply Forall2_impl; [exact Hcells|].
    intros [ann attrs] cell Hcell. simpl in *. destruct attrs as [|a attrs].
    + by injection Hcell.
    + apply rbind_Ok in Hcell as (words & Hwords & [= <-]). exists words. split; [|done].
      apply rmap_Ok in Hwords. eapply Forall2_impl; [exact Hwords|].
      intros a' w Hw. unfold Vocabulary.get_word in Hw.
      destruct (av !! a'); [by injection Hw as ->|done].
  - exists (set_iter_id (mjoin (sorted_nat <$> dvalues (annot sen)))), counts.
    destruct (set_iter_id_ok (mjoin (sorted_nat <$> dvalues (annot sen)))) as [Hnd Hiff].
    split_and!; [done| | |done].
    + intros a. rewrite Hiff, list_elem_of_join. split.
      * intros (l & Ha & Hl). apply list_elem_of_fmap in Hl as (attrs & -> & Hattrs).
        rewrite elem_of_sorted_nat in Ha.
        unfold dvalues in Hattrs. apply list_elem_of_fmap in Hattrs as ([ann attrs'] & -> & Hin).
        by exists ann, attrs'.
      * intros (ann & attrs & Hin & Ha). exists (sorted_nat attrs).
        split; [by rewrite elem_of_sorted_nat|].
        apply list_elem_of_fmap. exists attrs. split; [done|].
        unfold dvalues. apply list_elem_of_fmap. by exists (ann, attrs).
    + apply rmap_Ok in Hcounts. eapply Forall2_impl; [exact Hcounts|].
      intros a c Hc. simpl in Hc. apply rbind_Ok in Hc as (w & Hw & [= <-]).
      unfold Vocabulary.get_word in Hw. destruct (av !! a) as [w'|]; [|done].
      injection Hw as ->. by exists w.
Qed.

(** ** main: when a run completes *)

Lemma get_id_true_cases (w : string) (v v' : Vocabulary.t) (i : nat) :
  Vocabulary.get_id w true v = Ok (i, v') →
  v `prefix_of` v' ∧ i < length v'
  ∧ (∀ j, j < length v' → j < length v ∨ j = i)
  ∧ (∀ x, x ∈ v' → x ∈ v ∨ x = w).
Proof using Type.
  clear_parameters.
  unfold Vocabulary.get_id. destruct (Vocabulary.find_word w v) as [j|] eqn:Hfind.
  - intros [= <- <-]. apply find_word_Some, lookup_lt_Some in Hfind.
    split_and!; [done|done|by left|by left].
  - intros [= <- <-]. split_and!.
    + by apply prefix_app_r.
    + rewrite length_app. simpl. lia.
    + intros j. rewrite length_app. simpl. lia.
    + intros x. rewrite elem_of_app, list_elem_of_singleton. tauto.
Qed.

(** The three names registered by add_votes, whether new or not. *)
Lemma register_votes_cases (nv nv' : Vocabulary.t) (vote_anns : list (nat * nat)) :
  register_votes nv = Ok (vote_anns, nv') →
  nv `prefix_of` nv'
  ∧ (∀ j, j < length nv' → j < length nv ∨ j ∈ vote_anns.*2)
  ∧ (∀ x, x ∈ nv' → x ∈ nv ∨ x ∈ min_names).
Proof using Type.
  clear_parameters.
  unfold register_votes. cbn [rfold]. intros H.
  apply rbind_Ok in H as ([va1 v1] & H1 & H). cbv beta iota in H1.
  apply rbind_Ok in H1 as ([i1 v1'] & Hid1 & [= <- <-]).
  apply rbind_Ok in H as ([va2 v2] & H2 & H). cbv beta iota in H2.
  apply rbind_Ok in H2 as ([i2 v2'] & Hid2 & [= <- <-]).
  apply rbind_Ok in H as ([va3 v3] & H3 & H). cbv beta iota in H3.
  apply rbind_Ok in H3 as ([i3 v3'] & Hid3 & [= <- <-]).
  cbn [rfold] in H. injection H as <- <-.
  destruct (get_id_true_cases _ _ _ _ Hid1) as (Hp1 & _ & Hj1 & Hx1).
  destruct (get_id_true_cases _ _ _ _ Hid2) as (Hp2 & _ & Hj2 & Hx2).
  destruct (get_id_true_cases _ _ _ _ Hid3) as (Hp3 & _ & Hj3 & Hx3).
  assert (min_name 1 = "min1"%string) as E1 by reflexivity.
  assert (min_name 2 = "min2"%string) as E2 by reflexivity.
  assert (min_name 3 = "min3"%string) as E3 by reflexivity.
  split_and!.
  - by repeat (etrans; [done|]).
  - intros j Hj. simpl.
    destruct (Hj3 j Hj) as [Hj'| ->]; [|right; right; right; left].
    destruct (Hj2 j Hj') as [Hj''| ->]; [|right; right; left].
    destruct (Hj1 j Hj'') as [?| ->]; [by left|right; left].
  - intros x Hx. unfold min_names.
    destruct (Hx3 x Hx) as [Hx'| ->]; [|right; rewrite E3; right; right; left].
    destruct (Hx2 x Hx') as [Hx''| ->]; [|right; rewrite E2; right; left].
    destruct (Hx1 x Hx'') as [?| ->]; [by left|right; rewrite E1; left].
Qed.

(** What the loop of lines 133-134 leaves in [annot]. *)
Lemma write_votes_annot (vote_anns : list (nat * nat)) (c : dict nat nat) (sen : sentence) :
  (∀ j, j ∈ vote_anns.*2 ∨ is_Some (dget j (annot sen)) →
     is_Some (dget j (annot (write_votes vote_anns c sen))))
  ∧ (∀ j l, (j, l) ∈ annot (write_votes vote_anns c sen) →
       (j, l) ∈ annot sen ∨ ∃ n, l = sorted_nat (elements (vote_set c n))).
Proof.
  unfold write_votes. revert sen. induction vote_anns as [|[n i] va IH]; intros sen.
  - simpl. split; [|by left]. intros j [Hj|?]; [by apply elem_of_nil in Hj|done].
  - cbn [foldl].
    destruct (IH (set_annot (dset i (sorted_nat (elements (vote_set c n)))) sen))
      as [IH1 IH2].
    split.
    + intros j Hj. apply IH1. cbn [annot set_annot].
      destruct (decide (j = i)) as [->|Hne]; [right; rewrite dget_dset_eq; by eexists|].
      destruct Hj as [Hj|Hj].
      * simpl in Hj. apply elem_of_cons in Hj as [?|?]; [done|by left].
      * right. by rewrite dget_dset_ne.
    + intros j l Hin. apply IH2 in Hin as [Hin|?]; [|by right].
      cbn [annot set_annot] in Hin.
      apply elem_of_dset in Hin as [[= -> ->]|?]; [right; by eexists|by left].
Qed.

(** The attributes that the loop of lines 121-125 counts are attributes
    of a list of the sentence. *)
Lemma count_votes_keys (l : list nat) (nv : Vocabulary.t) (sen : sentence)
    (c : dict nat nat) :
  count_votes l nv sen = Ok c →
  ∀ a, a ∈ dkeys c → ∃ ann attrs, (ann, attrs) ∈ annot sen ∧ a ∈ attrs.
Proof using Type.
  clear_parameters.
  unfold count_votes. intros H.
  eapply (rfold_inv (λ c, ∀ a, a ∈ dkeys c →
                            ∃ ann attrs, (ann, attrs) ∈ annot sen ∧ a ∈ attrs));
    [exact H| |].
  - intros ann s s' _ Hs Hbody. cbv beta in Hbody.
    apply rbind_Ok in Hbody as (w & _ & Hbody).
    destruct (decide (w = gold)); [by injection Hbody as <-|].
    apply rbind_Ok in Hbody as (attrs & Hattrs & [= <-]).
    unfold dindex in Hattrs. destruct (dget ann (annot sen)) as [attrs'|] eqn:Hann; [|done].
    injection Hattrs as ->. apply dget_Some_elem_of in Hann.
    intros a Ha. apply elem_of_dkeys_incr_all in Ha as [?|?]; [by exists ann, attrs|by apply Hs].
  - intros a Ha. by apply elem_of_nil in Ha.
Qed.

(** What add_votes returns on fully annotated data of known ids is fully
    annotated, for the annotators after registration, and of known ids. *)
Lemma add_votes_output (d d' : dict string sentence) (av nv nv' : Vocabulary.t) :
  add_votes d av nv = Ok (d', nv') →
  fully_annotated nv d → lists_known av d →
  fully_annotated nv' d' ∧ lists_known av d'
  ∧ nv `prefix_of` nv' ∧ (∀ x, x ∈ nv' → x ∈ nv ∨ x ∈ min_names).
Proof using Type.
  clear_parameters.
  unfold add_votes. intros H Hfull Hknown.
  apply rbind_Ok in H as ([va nv1] & Hreg & H). cbv beta iota in H.
  apply rbind_Ok in H as (d1 & Hmap & [= <- <-]). apply rmap_Ok in Hmap.
  destruct (register_votes_cases _ _ _ Hreg) as (Hpre & Hids & Hwords).
  assert (∀ sid sen', (sid, sen') ∈ d1 →
            ∃ sen c, (sid, sen) ∈ d ∧ count_votes (Vocabulary.ids nv) nv1 sen = Ok c
              ∧ sen' = write_votes va c sen) as Hback.
  { intros sid sen' Hin. apply list_elem_of_lookup in Hin as [j Hj].
    destruct (Forall2_lookup_r _ _ _ _ _ Hmap Hj) as ([sid0 sen] & Hj0 & Hbody).
    cbv beta iota in Hbody. apply rbind_Ok in Hbody as (c & Hc & [= <- <-]).
    exists sen, c. split_and!; [by eapply list_elem_of_lookup_2|done..]. }
  split_and!; [| |done..].
  - intros sid sen' ann Hin Hann. destruct (Hback _ _ Hin) as (sen & c & Hin0 & _ & ->).
    apply (write_votes_annot va c sen). destruct (Hids _ Hann) as [?|?]; [right|by left].
    by eapply Hfull.
  - intros sid sen' ann attrs a Hin Hattrs Ha.
    destruct (Hback _ _ Hin) as (sen & c & Hin0 & Hc & ->).
    apply (write_votes_annot va c sen) in Hattrs as [Hattrs|[n ->]]; [by eapply Hknown|].
    rewrite elem_of_sorted_nat, elem_of_elements in Ha. unfold vote_set in Ha.
    apply elem_of_vote_set_from in Ha as [Ha|(count & Ha & _)];
      [by apply not_elem_of_empty in Ha|].
    destruct (count_votes_keys _ _ _ _ Hc a) as (ann' & attrs' & ? & ?).
    { apply list_elem_of_fmap. by exists (a, count). }
    by eapply Hknown.
Qed.

Lemma elem_of_with_full_agreement (d : dict string sentence) (sid : string) (sen' : sentence) :
  (sid, sen') ∈ with_full_agreement <$> d
  ↔ ∃ sen, (sid, sen) ∈ d ∧ sen' = set_full_agreement (all_equal (dvalues (annot sen))) sen.
Proof.
  rewrite list_elem_of_fmap. unfold with_full_agreement. split.
  - intros ([sid0 sen] & [= -> ->] & Hin). by exists sen.
  - intros (sen & Hin & ->). by exists (sid, sen).
Qed.

Lemma filter_fmap {A B} (f : A → B) (P : B → bool) (l : list A) :
  List.filter P (f <$> l) = f <$> List.filter (λ x, P (f x)) l.
Proof.
  induction l as [|x l IH]; [done|]. csimpl. destruct (P (f x)); csimpl; by rewrite IH.
Qed.

Lemma remove_empty_with_full_agreement (d : dict string sentence) :
  remove_empty (with_full_agreement <$> d) = with_full_agreement <$> remove_empty d.
Proof.
  unfold remove_empty. rewrite filter_fmap. f_equal. apply filter_ext. by intros [sid sen].
Qed.

Lemma elem_of_remove_empty (d : dict string sentence) (e : string * sentence) :
  e ∈ remove_empty d → e ∈ d.
Proof.
  unfold remove_empty. intros Hin. apply list_elem_of_In, filter_In in Hin as [Hin _].
  by apply list_elem_of_In.
Qed.

(** X21.  A run completes iff the load completes, an annotator is called gold,
    every annotator has an entry on every sentence that is not empty and,
    unless no attribute was loaded at all, there are two annotators other
    than gold. *)
Theorem main_completes_iff (filenames : list xlsx_file) :
  run_exit (main filenames) = Ok ()
  ↔ ∃ st, load_data filenames = (st, Ok ())
      ∧ gold ∈ annotator_vocab st
      ∧ fully_annotated (annotator_vocab st) (remove_empty (data st))
      ∧ (attr_vocab st = [] ∨ two_annotators (annotator_vocab st)).
Proof using set_iter_id_ok.
  unfold main. destruct (load_data filenames) as [st [e|[]]] eqn:Hload.
  { simpl. split; [done|]. by intros (st' & [= _ ?] & _). }
  pose proof (load_data_ids_known _ _ _ Hload) as Hids.
  assert (lists_known (attr_vocab st) (data st)) as Hlists.
  { intros sid sen ann attrs a Hin Hattrs Ha. by eapply (proj1 (Hids sid sen Hin)). }
  destruct (print_sens_Ok (data st) (attr_vocab st) Hlists) as (d1 & lines & Hprint & _).
  destruct (print_sens_marks _ _ _ _ _ Hprint) as (Hd1 & _ & Hlen).
  specialize (Hlen eq_refl). cbn zeta in Hd1.
  rewrite Nat.add_0_r, Hlen, firstn_all, drop_all, app_nil_r in Hd1.
  unfold print_data. rewrite Hprint. cbn [IGNORE_EMPTY].
  set (av := attr_vocab st) in *. set (nv := annotator_vocab st) in *.
  assert (remove_empty d1 = with_full_agreement <$> remove_empty (data st)) as Hd2
    by (by rewrite Hd1, remove_empty_with_full_agreement).
  change (if IGNORE_EMPTY then remove_empty d1 else d1) with (remove_empty d1).
  rewrite Hd2. set (d2 := with_full_agreement <$> remove_empty (data st)).
  assert (ids_known av d2) as Hids2.
  { intros sid sen' Hin. apply elem_of_with_full_agreement in Hin as (sen & Hin & ->).
    apply elem_of_remove_empty in Hin. exact (Hids sid sen Hin). }
  assert (lists_known av d2) as Hlists2.
  { intros sid sen ann attrs a Hin Hattrs Ha. by eapply (proj1 (Hids2 sid sen Hin)). }
  assert (fully_annotated nv d2 ↔ fully_annotated nv (remove_empty (data st))) as Hfull2.
  { split.
    - intros Hfull sid sen ann Hin Hann.
      apply (Hfull sid (set_full_agreement (all_equal (dvalues (annot sen))) sen) ann);
        [|done].
      apply elem_of_with_full_agreement. by exists sen.
    - intros Hfull sid sen' ann Hin Hann.
      apply elem_of_with_full_agreement in Hin as (sen & Hin & ->).
      exact (Hfull sid sen ann Hin Hann). }
  pose proof (measure_agreement_Ok_iff d2 av nv Hids2) as Hmeasure.
  destruct (measure_agreement d2 av nv) as [e|stats] eqn:Hm.
  { simpl. split; [done|]. intros (st' & [= <-] & _ & Hfull & Hav).
    destruct Hmeasure as [_ Hmeasure]. destruct Hmeasure as [stats ?]; [|done].
    split; [by apply Hfull2|done]. }
  destruct Hmeasure as [Hmeasure _]. destruct Hmeasure as [Hfull Hav]; [by eexists|].
  pose proof (add_votes_Ok_iff d2 av nv) as [[_ Hvotes] _].
  destruct Hvotes as (d3 & nv' & Hadd).
  { intros sid sen ann w Hin Hw _. eapply Hfull; [done|]. by eapply lookup_lt_Some. }
  rewrite Hadd.
  destruct (add_votes_output _ _ _ _ _ Hadd Hfull Hlists2) as (Hfull3 & Hlists3 & Hpre & Hwords).
  pose proof (eval_against_gold_Ok_iff d3 av nv' Hlists3) as [Hgold _].
  destruct (eval_against_gold d3 av nv') as [e|out] eqn:Heval.
  - simpl. split; [done|]. intros (st' & [= <-] & Hg & _).
    destruct Hgold as [_ Hgold]. destruct Hgold as [out ?]; [|done].
    split; [|done]. destruct Hpre as [k ->]. apply elem_of_app. by left.
  - simpl. split; [|done]. intros _. exists st. split_and!; [done| |by apply Hfull2|done].
    destruct Hgold as [Hgold _]. destruct Hgold as [Hg _]; [by eexists|].
    destruct (Hwords _ Hg) as [?|Hmin]; [done|].
    unfold min_names in Hmin.
    repeat (apply elem_of_cons in Hmin as [?|Hmin]; [done|]). by apply elem_of_nil in Hmin.
Qed.

(** ** Decidable forms of the preconditions *)

Lemma lists_known_Forall (av : Vocabulary.t) (d : dict string sentence) :
  Forall (λ e : string * sentence,
            Forall (λ x : nat * list nat, Forall (λ a, a < length av) x.2) (annot e.2)) d →
  lists_known av d.
Proof using Type.
  clear_parameters. intros H sid sen ann attrs a Hin Hattrs Ha.
  rewrite Forall_forall in H. specialize (H _ Hin). cbn [snd] in H.
  rewrite Forall_forall in H. specialize (H _ Hattrs). cbn [snd] in H.
  rewrite Forall_forall in H. by apply H.
Qed.

Lemma ids_known_Forall (av : Vocabulary.t) (d : dict string sentence) :
  Forall (λ e : string * sentence,
            Forall (λ x : nat * list nat, Forall (λ a, a < length av) x.2) (annot e.2)
            ∧ Forall (λ a, a < length av) (dkeys (attr_stats e.2))) d →
  ids_known av d.
Proof using Type.
  clear_parameters. intros H sid sen Hin.
  rewrite Forall_forall in H. destruct (H _ Hin) as [Hl Hk]. cbn [snd] in Hl, Hk. split.
  - intros ann attrs a Hattrs Ha.
    rewrite Forall_forall in Hl. specialize (Hl _ Hattrs). cbn [snd] in Hl.
    rewrite Forall_forall in Hl. by apply Hl.
  - intros a Ha. rewrite Forall_forall in Hk. by apply Hk.
Qed.

Lemma lists_NoDup_Forall (d : dict string sentence) :
  Forall (λ e : string * sentence,
            Forall (λ x : nat * list nat, NoDup x.2) (annot e.2)) d →
  ∀ sid sen ann attrs, (sid, sen) ∈ d → dget ann (annot sen) = Some attrs → NoDup attrs.
Proof using Type.
  clear_parameters. intros H sid sen ann attrs Hin Hattrs.
  rewrite Forall_forall in H. specialize (H _ Hin). cbn [snd] in H.
  rewrite Forall_forall in H. apply dget_Some_elem_of in Hattrs. exact (H _ Hattrs).
Qed.

Lemma plain_Forall (s : string) :
  Forall (λ c, c ∉ list_ascii_of_string s) ["/"; "."; "_"]%char → plain s.
Proof using Type.
  clear_parameters. intros H c Hc. rewrite Forall_forall in H. by apply H.
Qed.

Lemma fresh_Forall (nv : Vocabulary.t) :
  Forall (λ w, w ∉ nv) min_names → ∀ w, w ∈ min_names → w ∉ nv.
Proof using Type.
  clear_parameters. intros H w Hw. rewrite Forall_forall in H. by apply H.
Qed.

End agreement.

Arguments run_tsv {K} _.
Arguments run_agreement {K} _.
Arguments run_votes {K} _.
Arguments run_gold {K} _.
Arguments run_exit {K} _.
Arguments gold_kappas {K} _.
Arguments attr_kappas {K} _.
Arguments attr_name {K} _.

(** * The theorems at concrete iteration orders *)

Lemma both_spellings_stored_twice_witness :
  ∃ st sen attrs,
    load_data first_seen [ann1_both_spellings] = (st, Ok ()) ∧
    attr_vocab st = ["DachneigungMax"%string] ∧
    dget "s1"%string (data st) = Some sen ∧
    dget 0 (annot sen) = Some attrs ∧
    attrs = [0; 0] ∧ ¬ NoDup attrs.
Proof. exact (both_spellings_stored_twice first_seen first_seen_ok). Defined.

Lemma both_spellings_counted_twice_witness :
  ∃ st sen,
    load_data first_seen [ann1_both_spellings] = (st, Ok ()) ∧
    annotator_vocab st = ["ann1"%string] ∧
    dget "s1"%string (data st) = Some sen ∧
    dkeys (annot sen) = [0] ∧
    counter_get 0 (attr_stats sen) = 2.
Proof. exact (both_spellings_counted_twice first_seen first_seen_ok). Defined.

Lemma both_spellings_reach_quorum_two_witness :
  ∃ st d' nv' sen',
    load_data first_seen [ann1_both_spellings] = (st, Ok ()) ∧
    annotator_vocab st = ["ann1"%string] ∧
    add_votes (data st) (attr_vocab st) (annotator_vocab st) = Ok (d', nv') ∧
    nv' = ["ann1"; "min1"; "min2"; "min3"]%string ∧
    dget "s1"%string d' = Some sen' ∧
    dget 2 (annot sen') = Some [0].
Proof. exact (both_spellings_reach_quorum_two first_seen first_seen_ok). Defined.

Lemma single_annotator_run_divides_by_zero_witness :
  let run_of := main first_seen first_seen nat 0 1 Nat.add Nat.div (λ _ _, 0) in
  run_exit (run_of [ann1_single]) = Raise ZeroDivisionError ∧
  run_agreement (run_of [ann1_single]) = None ∧
  run_exit (run_of [gold_A; ann1_A]) = Raise ZeroDivisionError ∧
  run_agreement (run_of [gold_A; ann1_A]) = None.
Proof.
  exact (single_annotator_run_divides_by_zero first_seen first_seen nat 0 1
           Nat.add Nat.div (λ _ _, 0) first_seen_ok first_seen_ok).
Defined.

Lemma missing_annotator_gold_evaluator_keyerror_witness :
  ∃ st sen,
    load_data first_seen [gold_two; ann1_first] = (st, Ok ()) ∧
    annotator_vocab st = ["gold"; "ann1"]%string ∧
    dget "s2"%string (data st) = Some sen ∧
    dget 0 (annot sen) = Some [0] ∧
    dget 1 (annot sen) = None ∧
    eval_against_gold (data st) (attr_vocab st) (annotator_vocab st)
      = Raise (KeyError_id 1) ∧
    measure_agreement nat 0 1 Nat.add Nat.div (λ _ _, 0)
        (data st) (attr_vocab st) (annotator_vocab st)
      = Raise (NoAnnotation 1 "s2").
Proof.
  exact (missing_annotator_gold_evaluator_keyerror first_seen nat 0 1 Nat.add Nat.div
           (λ _ _, 0) first_seen_ok).
Defined.


Lemma tsv_full_agreement_of_loaded_annotators_witness :
  let st := (load_data first_seen [gold_A; ann1_A]).1 in
  ∃ header lines,
    run_tsv (main first_seen first_seen nat 0 1 Nat.add Nat.div (λ _ _, 0)
               [gold_A; ann1_A]) = Some (header, lines)
    ∧ length lines = length (data st)
    ∧ ∀ j sid sen, data st !! j = Some (sid, sen) →
        ∃ line b,
          lines !! j = Some line ∧ tsv_id line = sen_id sen
          ∧ tsv_full_agreement line = Some b
          ∧ (b = true ↔ same_lists sen)
          ∧ ((∀ a l, (a, l) ∈ annot sen → NoDup l) → (b = true ↔ same_sets sen)).
Proof.
  intros st.
  apply (tsv_full_agreement_of_loaded_annotators first_seen first_seen nat 0 1 Nat.add
           Nat.div (λ _ _, 0) first_seen_ok).
  vm_compute. reflexivity.
Defined.

Lemma add_votes_frame_witness :
  let st := (load_data first_seen [gold_A; ann1_A; ann2_A]).1 in
  (∀ d' nv',
     add_votes (data st) (attr_vocab st) (annotator_vocab st) = Ok (d', nv') →
     nv' = annotator_vocab st ++ min_names
     ∧ Forall2 (λ e e', e'.1 = e.1 ∧ votes_added (annotator_vocab st) e.2 e'.2)
         (data st) d')
  ∧ (annotated_by_all (annotator_vocab st) (data st) →
     ∃ d' nv', add_votes (data st) (attr_vocab st) (annotator_vocab st) = Ok (d', nv')).
Proof.
  intros st. apply add_votes_frame. apply (bool_decide_unpack _). vm_compute. exact I.
Defined.

Lemma gold_evaluator_counts_witness :
  let st := (load_data first_seen [gold_2s; annotator1_2s; annotator2_2s]).1 in
  ∃ tbl, count_gold (data st) (annotator_vocab st) 0 = Ok tbl
    ∧ ∀ attr ann fig, ann < length (annotator_vocab st) → ann ≠ 0 →
        stats_get tbl attr ann fig
        = sum_list ((λ e : string * sentence, sentence_count 0 e.2 attr ann fig)
                      <$> data st).
Proof.
  intros st.
  apply (proj1 (gold_evaluator_counts first_seen first_seen_ok)).
  - intros sid sen ann Hin Hlt. vm_compute in Hin, Hlt.
    assert (ann = 0 ∨ ann = 1 ∨ ann = 2) as Hann by lia.
    apply elem_of_cons in Hin as [[= -> ->]|Hin];
      [|apply elem_of_cons in Hin as [[= -> ->]|Hin]; [|by apply elem_of_nil in Hin]];
      destruct Hann as [->|[->| ->]]; vm_compute; eauto.
  - vm_compute. lia.
  - apply lists_NoDup_Forall. apply (bool_decide_unpack _). vm_compute. exact I.
Defined.

Lemma all_zero_pair_has_kappa_one_witness :
  let st := (load_data first_seen [gold_2s; annotator1_2s; annotator2_2s]).1 in
  ∃ stats,
    measure_agreement nat 0 1 Nat.add Nat.div (λ _ _, 7)
      (data st) (attr_vocab st) (annotator_vocab st) = Ok stats
    ∧ ∃ rows, stats ≡ₚ rows
        ∧ Forall2 (λ e row,
             attr_name row = e.2
             ∧ Forall2 (λ p k, all_zero (presence_vector (data st) e.1 p.1.1) →
                               all_zero (presence_vector (data st) e.1 p.2.1) → k = 1)
                 (inter_pairs (annotator_vocab st)) (attr_kappas row)
             ∧ Forall2 (λ p k, all_zero (presence_vector (data st) e.1 p.1.1) →
                               all_zero (presence_vector (data st) e.1 p.2.1) → k = 1)
                 (gold_pairs (annotator_vocab st)) (gold_kappas row))
            (Vocabulary.items (attr_vocab st)) rows.
Proof.
  intros st. eexists. split; [vm_compute; reflexivity|].
  apply (proj1 (all_zero_pair_has_kappa_one nat 0 1 Nat.add Nat.div (λ _ _, 7)
                  (data st) (attr_vocab st) (annotator_vocab st))).
  vm_compute. reflexivity.
Defined.

(** * What fails as stated *)



(** C9 as stated: with gold and two annotators who all pick A, the line of
    the sentence says True, although min3 (empty) differs from the others
    once the vote annotators exist. *)
Lemma tsv_full_agreement_ignores_vote_annotators :
  ¬ (∀ (set_iter : list string → list string) (set_iter_id : list nat → list nat)
       (K : Type) (kzero kone : K) (kadd : K → K → K) (kdiv : K → nat → K)
       (cohen_kappa_score : list nat → list nat → K),
       set_order_ok set_iter → set_order_ok set_iter_id →
       ∀ filenames header lines d' nv',
         let r := main set_iter set_iter_id K kzero kone kadd kdiv cohen_kappa_score
                    filenames in
         run_tsv r = Some (header, lines) → run_votes r = Some (d', nv') →
         ∀ line sen, line ∈ lines → dget (tsv_id line) d' = Some sen →
           (tsv_full_agreement line = Some true
            ↔ ∀ a1 l1 a2 l2, (a1, l1) ∈ annot sen → (a2, l2) ∈ annot sen →
                ∀ x : nat, x ∈ l1 ↔ x ∈ l2)).
Proof.
  intros Hclaim.
  specialize (Hclaim first_seen first_seen nat 0 1 Nat.add Nat.div (λ _ _, 0)
                first_seen_ok first_seen_ok [gold_A; ann1_A; ann2_A]).
  set (line0 := {| tsv_id := "s1"; tsv_text := Some "text"%string;
                   tsv_annots := ["A"; "A"; "A"]%string; tsv_counts := "A:2";
                   tsv_full_agreement := Some true |}).
  set (sen0 := {| sen_id := "s1"; sen_text := Some "text"%string;
                  annot := [(0, [0]); (1, [0]); (2, [0]); (3, [0]); (4, [0]); (5, [])];
                  attr_stats := [(0, 2)]; full_agreement := Some true |}).
  specialize (Hclaim (tsv_header ["gold"; "ann1"; "ann2"]%string) [line0]
                [("s1"%string, sen0)]
                ["gold"; "ann1"; "ann2"; "min1"; "min2"; "min3"]%string
                ltac:(vm_compute; reflexivity) ltac:(vm_compute; reflexivity)
                line0 sen0 ltac:(left) ltac:(reflexivity)).
  destruct Hclaim as [Hall _].
  specialize (Hall eq_refl 0 [0] 5 [] ltac:(left) ltac:(do 5 right; left) 0).
  destruct Hall as [Hin _]. specialize (Hin ltac:(left)). by apply elem_of_nil in Hin.
Qed.

(** C10 as stated: an annotator who is called min1 is counted as a real
    annotator, and its entry is overwritten by the vote set of quorum 1. *)
Lemma add_votes_overwrites_annotator_called_min1 :
  ¬ (∀ (d : dict string sentence) (av nv : Vocabulary.t) d' nv',
       add_votes d av nv = Ok (d', nv') →
       Forall2 (λ e e', ∀ ann attrs, dget ann (annot e.2) = Some attrs →
                          dget ann (annot e'.2) = Some attrs) d d').
Proof.
  intros Hclaim.
  set (st := (load_data first_seen [min1_A; ann1_B]).1).
  assert (annotator_vocab st = ["min1"; "ann1"]%string) as Hnv by (vm_compute; reflexivity).
  destruct (add_votes (data st) (attr_vocab st) (annotator_vocab st))
    as [e|[d' nv']] eqn:Hvotes; [vm_compute in Hvotes; discriminate|].
  specialize (Hclaim _ _ _ _ _ Hvotes).
  vm_compute in Hvotes. injection Hvotes as <- <-.
  vm_compute in Hclaim.
  apply Forall2_cons_1 in Hclaim as [Hentry _].
  specialize (Hentry 0 [0] eq_refl). discriminate.
Qed.
(** * The further properties at concrete inputs *)

Arguments attr_freq {K} _.
Arguments avg_gold {K} _.

Lemma gen_sen_yields_witness :
  let row := data_row "s1" "text" ["A"%string] in
  let sen := {| row_id := "s1"; row_text := Some "text"%string;
                row_attributes := ["A"%string] |} in
  gen_sen "doc1_ann1.xlsx" 1 row = Ok (Some sen)
  ∧ 1 ≠ 0
  ∧ row !! 0 = Some (Some (row_id sen))
  ∧ row !! 1 = Some (row_text sen)
  ∧ Sorted String.le (row_attributes sen)
  ∧ length (row_attributes sen) ≤ 5
  ∧ ∀ a, a ∈ row_attributes sen
         ↔ a ≠ EmptyString ∧ (a ∉ ATTR_IGNORE)
           ∧ ∃ j, j < 5 ∧ row !! (3 + 2 * j) = Some (Some a).
Proof.
  intros row sen.
  assert (gen_sen "doc1_ann1.xlsx" 1 row = Ok (Some sen)) as H by (vm_compute; reflexivity).
  split; [exact H|]. exact (gen_sen_yields "doc1_ann1.xlsx" 1 row sen H).
Defined.

Lemma load_data_well_formed_witness :
  loaded_ok (load_data first_seen [gold_A; ann1_A; ann2_A]).1.
Proof.
  apply (load_data_well_formed first_seen first_seen_ok [gold_A; ann1_A; ann2_A] _ (Ok ())).
  vm_compute. reflexivity.
Defined.

Lemma load_data_lists_sorted_known_witness :
  let st := (load_data first_seen [gold_A; ann1_A; ann2_A]).1 in
  Sorted le [0] ∧ ∀ a, a ∈ [0] → ∃ w, attr_vocab st !! a = Some w.
Proof.
  intros st.
  refine (load_data_lists_sorted_known first_seen [gold_A; ann1_A; ann2_A] st (Ok ()) _
            "s1"%string sen_A 0 [0] _ _).
  - vm_compute. reflexivity.
  - apply (list_elem_of_lookup_2 _ 0). vm_compute. reflexivity.
  - apply (list_elem_of_lookup_2 _ 0). reflexivity.
Defined.

Lemma load_data_attr_stats_witness :
  let st := (load_data first_seen [gold_A; ann1_A; ann2_A]).1 in
  counter_get 0 (attr_stats sen_A)
  = sum_list (stat_of (annotator_vocab st) 0 <$> annot sen_A)
  ∧ ((∀ ann attrs, (ann, attrs) ∈ annot sen_A → NoDup attrs) →
     counter_get 0 (attr_stats sen_A)
     = length (filter (selected_by (annotator_vocab st) 0) (annot sen_A)))
  ∧ ((∃ ann attrs, (ann, attrs) ∈ annot sen_A ∧ 0 ∈ attrs) →
     is_Some (dget 0 (attr_stats sen_A))).
Proof.
  intros st.
  refine (load_data_attr_stats first_seen [gold_A; ann1_A; ann2_A] st (Ok ())
            "s1"%string sen_A 0 _ _).
  - vm_compute. reflexivity.
  - apply (list_elem_of_lookup_2 _ 0). vm_compute. reflexivity.
Defined.

Lemma annotator_of_filename_round_trip_witness :
  annotator_of_filename ("data" +:+ "/" +:+ "doc1" +:+ "_" +:+ "ann1" +:+ ".xlsx")
  = Ok "ann1"%string
  ∧ annotator_of_filename
      ("data" +:+ "/" +:+ "doc1" +:+ "_" +:+ "ann1" +:+ "_" +:+ "2021" +:+ ".xlsx")
    = Ok "ann1"%string
  ∧ annotator_of_filename ("doc1" +:+ "_" +:+ "ann1" +:+ ".xlsx") = Ok "ann1"%string
  ∧ annotator_of_filename ("doc1" +:+ "_" +:+ "ann1" +:+ "_" +:+ "2021" +:+ ".xlsx")
    = Ok "ann1"%string.
Proof.
  apply (annotator_of_filename_round_trip "data" "doc1" "ann1" "2021");
    apply plain_Forall; apply (bool_decide_unpack _); vm_compute; exact I.
Defined.

Lemma load_file_rejects_header_witness :
  ∃ st', load_file first_seen ann1_no_header init_lstate
         = (st', Raise (UnexpectedHeader (file_name ann1_no_header)))
    ∧ data st' = data init_lstate
    ∧ attr_vocab st' = attr_vocab init_lstate
    ∧ annotator_vocab init_lstate `prefix_of` annotator_vocab st'
    ∧ lower "ann1" ∈ annotator_vocab st'.
Proof.
  eapply (load_file_rejects_header first_seen ann1_no_header init_lstate "ann1").
  - vm_compute. reflexivity.
  - reflexivity.
  - discriminate.
Defined.

Lemma load_data_stores_every_sentence_witness :
  let st := (load_data first_seen [gold_A; ann1_A; ann2_A]).1 in
  stored st (lower "gold")
    {| row_id := "s1"; row_text := Some "text"%string; row_attributes := ["A"%string] |}.
Proof.
  intros st.
  refine (load_data_stores_every_sentence first_seen first_seen_ok
            [gold_A; ann1_A; ann2_A] st gold_A "gold" 1
            (data_row "s1" "text" ["A"%string]) _ _ _ _ _ _).
  - vm_compute. reflexivity.
  - left.
  - vm_compute. reflexivity.
  - reflexivity.
  - vm_compute. reflexivity.
Defined.

Lemma add_votes_quorums_nested_witness :
  ∃ d' nv',
    add_votes data_A attrs_A annotators_A = Ok (d', nv')
    ∧ ∀ sid sen', (sid, sen') ∈ d' →
        ∃ m1 m2 m3,
          dget (length annotators_A) (annot sen') = Some m1
          ∧ dget (length annotators_A + 1) (annot sen') = Some m2
          ∧ dget (length annotators_A + 2) (annot sen') = Some m3
          ∧ m3 ⊆ m2 ∧ m2 ⊆ m1
          ∧ ∀ a, a ∈ m1 ↔ ∃ ann w attrs, annotators_A !! ann = Some w ∧ w ≠ gold
                            ∧ dget ann (annot sen') = Some attrs ∧ a ∈ attrs.
Proof.
  eexists _, _. split; [vm_compute; reflexivity|].
  eapply (add_votes_quorums_nested data_A _ attrs_A annotators_A).
  - apply fresh_Forall. apply (bool_decide_unpack _). vm_compute. exact I.
  - vm_compute. reflexivity.
Defined.

Lemma measure_agreement_rows_witness :
  ∃ stats : list (attr_row nat),
    measure_agreement nat 0 1 Nat.add Nat.div (λ _ _, 0) data_A attrs_A annotators_A
    = Ok stats
    ∧ Sorted (λ r1 r2, attr_freq r2 ≤ attr_freq r1) stats
    ∧ ∃ rows, stats ≡ₚ rows
        ∧ Forall2 (λ e row, attr_name row = e.2
                            ∧ attr_freq row = selections data_A annotators_A e.1)
            (Vocabulary.items attrs_A) rows.
Proof.
  eexists. split; [vm_compute; reflexivity|].
  apply (measure_agreement_rows nat 0 1 Nat.add Nat.div (λ _ _, 0)
           data_A attrs_A annotators_A).
  vm_compute. reflexivity.
Defined.

Lemma measure_agreement_completes_iff_witness :
  (∃ stats, measure_agreement nat 0 1 Nat.add Nat.div (λ _ _, 0)
              data_A attrs_A annotators_A = Ok stats)
  ↔ fully_annotated annotators_A data_A ∧ (attrs_A = [] ∨ two_annotators annotators_A).
Proof.
  apply measure_agreement_completes_iff.
  apply ids_known_Forall. apply (bool_decide_unpack _). vm_compute. exact I.
Defined.

Lemma measure_agreement_kappa_count_witness :
  ∃ (stats : list (attr_row nat)) (row : attr_row nat),
    measure_agreement nat 0 1 Nat.add Nat.div (λ _ _, 0) data_A attrs_A annotators_A
    = Ok stats
    ∧ stats !! 0 = Some row
    ∧ 2 * (length (attr_kappas row) + length (gold_kappas row))
      = length annotators_A * (length annotators_A - 1)
    ∧ (gold ∉ annotators_A → gold_kappas row = [] ∧ avg_gold row = 0).
Proof.
  eexists _, _. split; [vm_compute; reflexivity|]. split; [reflexivity|].
  eapply (measure_agreement_kappa_count nat 0 1 Nat.add Nat.div (λ _ _, 0)
            data_A attrs_A annotators_A).
  - vm_compute. reflexivity.
  - apply (list_elem_of_lookup_2 _ 0). reflexivity.
Defined.

Lemma eval_against_gold_completes_iff_witness :
  ((∃ out, eval_against_gold data_A attrs_A annotators_A = Ok out)
   ↔ gold ∈ annotators_A ∧ fully_annotated annotators_A data_A)
  ∧ (gold ∉ annotators_A
     → eval_against_gold data_A attrs_A annotators_A = Raise (KeyError_word gold)).
Proof.
  apply eval_against_gold_completes_iff.
  apply lists_known_Forall. apply (bool_decide_unpack _). vm_compute. exact I.
Defined.

Lemma eval_against_gold_output_witness :
  ∃ ranked blocks,
    eval_against_gold data_A attrs_A annotators_A = Ok (ranked, blocks)
    ∧ Sorted (λ e1 e2, volume e2 ≤ volume e1) ranked
    ∧ length blocks = length ranked `min` 10
    ∧ ∀ i b, blocks !! i = Some b →
        ∃ e, ranked !! i = Some e
          ∧ (attrs_A ++ ["total"%string]) !! e.1 = Some (block_attr b)
          ∧ Forall (λ x, starts_with_min x.1 = false) (real_annot b)
          ∧ Forall (λ x, starts_with_min x.1 = true) (vote_annot b)
          ∧ (∀ w c, (w, c) ∈ real_annot b ++ vote_annot b →
               ∃ ann, (ann, c) ∈ e.2 ∧ annotators_A !! ann = Some w)
          ∧ (NoDup annotators_A →
             ∃ g named,
               Vocabulary.find_word gold annotators_A = Some g
               ∧ dkeys e.2 = filter (λ ann, ann ≠ g) (Vocabulary.ids annotators_A)
               ∧ Forall2 (λ x y, annotators_A !! x.1 = Some y.1 ∧ y.2 = x.2) e.2 named
               ∧ real_annot b
                 = List.filter (λ '(ann, _), negb (starts_with_min ann)) named
               ∧ vote_annot b = List.filter (λ '(ann, _), starts_with_min ann) named).
Proof.
  eexists _, _. split; [vm_compute; reflexivity|].
  apply (eval_against_gold_output data_A attrs_A annotators_A).
  vm_compute. reflexivity.
Defined.

Lemma eval_against_gold_total_witness :
  ∃ ranked blocks,
    eval_against_gold data_A attrs_A annotators_A = Ok (ranked, blocks)
    ∧ ∃ g st t,
        Vocabulary.find_word gold annotators_A = Some g
        ∧ count_gold data_A annotators_A g = Ok st
        ∧ Vocabulary.find_word "total" (attrs_A ++ ["total"%string]) = Some t
        ∧ ranked
          ≡ₚ dset t ((λ ann, (ann, (λ fig, (fig, sum_list
                                              ((λ attr, stats_get st attr ann fig)
                                                 <$> dkeys st)))
                                  <$> [TP; FN; FP]))
                     <$> filter (λ ann, ann ≠ g) (Vocabulary.ids annotators_A)) st.
Proof.
  eexists _, _. split; [vm_compute; reflexivity|].
  eapply (eval_against_gold_total data_A attrs_A annotators_A).
  vm_compute. reflexivity.
Defined.

Lemma print_data_sets_full_agreement_witness :
  let res := print_data first_seen data_A attrs_A annotators_A in
  res.1.2.1 = tsv_header annotators_A
  ∧ (res.2 = Ok () →
     length res.1.2.2 = length data_A ∧ res.1.1 = with_full_agreement <$> data_A)
  ∧ (∀ e, res.2 = Raise e →
       length res.1.2.2 < length data_A
       ∧ res.1.1 = (with_full_agreement <$> take (S (length res.1.2.2)) data_A)
                   ++ drop (S (length res.1.2.2)) data_A).
Proof.
  intros res.
  apply (print_data_sets_full_agreement first_seen data_A res.1.1 attrs_A annotators_A
           res.1.2 res.2).
  vm_compute. reflexivity.
Defined.

Lemma get_tsv_line_cells_witness :
  ∃ line,
    get_tsv_line first_seen sen_A attrs_A = Ok line
    ∧ Forall2 (λ e cell,
                 match e.2 with
                 | [] => cell = "no_attr"%string
                 | _ => ∃ words, Forall2 (λ a w, attrs_A !! a = Some w) e.2 words
                          ∧ cell = String.concat "," words
                 end) (annot sen_A) (tsv_annots line)
    ∧ ∃ ids counts,
        NoDup ids
        ∧ (∀ a, a ∈ ids ↔ ∃ ann attrs, (ann, attrs) ∈ annot sen_A ∧ a ∈ attrs)
        ∧ Forall2 (λ a c, ∃ w, attrs_A !! a = Some w
                     ∧ c = (w +:+ ":" +:+ pretty (counter_get a (attr_stats sen_A)))%string)
            ids counts
        ∧ tsv_counts line = String.concat " " counts.
Proof.
  eexists. split; [vm_compute; reflexivity|].
  apply (get_tsv_line_cells first_seen first_seen_ok sen_A attrs_A).
  vm_compute. reflexivity.
Defined.

Lemma main_completes_iff_witness :
  run_exit (main first_seen first_seen nat 0 1 Nat.add Nat.div (λ _ _, 0)
              [gold_A; ann1_A; ann2_A]) = Ok ()
  ↔ ∃ st, load_data first_seen [gold_A; ann1_A; ann2_A] = (st, Ok ())
      ∧ gold ∈ annotator_vocab st
      ∧ fully_annotated (annotator_vocab st) (remove_empty (data st))
      ∧ (attr_vocab st = [] ∨ two_annotators (annotator_vocab st)).
Proof.
  exact (main_completes_iff first_seen first_seen nat 0 1 Nat.add Nat.div (λ _ _, 0)
           first_seen_ok [gold_A; ann1_A; ann2_A]).
Defined.
